(** * boundedinfinity/enumeration: resolution and matching, verified

    A shallow embedding of the enumeration generator and of the run-time
    support package it targets.

    - [GoStrings]: the functions of Go's package [strings] the code calls;
      [utf8], [unicode] and [GoStringsMap]: what [strings.ToLower] and
      [strings.ToUpper] run on outside ASCII, the UTF-8 coding and
      [strings.Map].
    - [enumer]: package [enumer] (src/unnamed/part_000, from [package enumer]
      on): [Join], [IsEq], the codec helpers and [Scan].
    - [MainOlder]: the generator of src/unnamed/part_000 (first file):
      [processEnum] with the configurable converters, and the companion its
      [processTemplate] emits (matching through [enumer.IsEq]).
    - [Main]: the generator of src/cmd/enumer/main.go: [processEnum] with the
      fixed conversions, and the companion its [processTemplate] emits
      (matching through [parseMap]).

    Go strings are byte sequences: [string] of the Standard Library.  What
    the repository imports from elsewhere (the Go standard library's Unicode
    tables and SQL driver, go-commoner, pluralize, asciibox, the file system
    and the YAML decoder) is an interface here, a type class whose methods the
    code calls; the theorems hold for every implementation of it, and where
    one needs a property of an implementation it is a hypothesis. *)

From Stdlib Require Import String Ascii List Bool Arith Lia.
From stdpp Require Import base option list strings gmap pretty.

Local Open Scope string_scope.

(** ** Errors

    [fmt.Errorf] without [%w] and [errors.New] build a plain message; with
    [%w] the result also keeps the wrapped error. *)

Inductive error : Type :=
| errorString (s : string)
| wrapError (msg : string) (err : error).

(** [err.Error()] *)
Definition Error (e : error) : string :=
  match e with
  | errorString s => s
  | wrapError msg _ => msg
  end.

(** [err.Unwrap()] *)
Definition Unwrap (e : error) : option error :=
  match e with
  | errorString _ => None
  | wrapError _ err => Some err
  end.

(** The line feed of the Go literal ["\n"]. *)
Definition LF : string := String (ascii_of_nat 10) EmptyString.

(** ** Package strings of the Go standard library *)

(** The non-ASCII path of [strings.ToLower] and [strings.ToUpper] is
    [strings.Map(unicode.ToLower, s)], driven by the Unicode case tables of
    the Go distribution. *)
Class Unicode := {
  Map_unicode_ToLower : string -> string;
  Map_unicode_ToUpper : string -> string
}.

Module GoStrings.

(** [c < utf8.RuneSelf] *)
Definition isASCIIByte (c : ascii) : bool := (nat_of_ascii c <? 128)%nat.

(** ['A' <= c && c <= 'Z'] *)
Definition isUpperByte (c : ascii) : bool :=
  ((65 <=? nat_of_ascii c) && (nat_of_ascii c <=? 90))%nat.

(** ['a' <= c && c <= 'z'] *)
Definition isLowerByte (c : ascii) : bool :=
  ((97 <=? nat_of_ascii c) && (nat_of_ascii c <=? 122))%nat.

(** [c += 'a' - 'A'] on an upper-case letter *)
Definition toLowerByte (c : ascii) : ascii :=
  if isUpperByte c then ascii_of_nat (nat_of_ascii c + 32) else c.

(** [c -= 'a' - 'A'] on a lower-case letter *)
Definition toUpperByte (c : ascii) : ascii :=
  if isLowerByte c then ascii_of_nat (nat_of_ascii c - 32) else c.

Fixpoint allBytes (p : ascii -> bool) (s : string) : bool :=
  match s with
  | EmptyString => true
  | String c rest => p c && allBytes p rest
  end.

Fixpoint anyByte (p : ascii -> bool) (s : string) : bool :=
  match s with
  | EmptyString => false
  | String c rest => p c || anyByte p rest
  end.

Fixpoint mapBytes (f : ascii -> ascii) (s : string) : string :=
  match s with
  | EmptyString => EmptyString
  | String c rest => String (f c) (mapBytes f rest)
  end.

Definition isASCII (s : string) : bool := allBytes isASCIIByte s.
Definition hasUpper (s : string) : bool := anyByte isUpperByte s.
Definition hasLower (s : string) : bool := anyByte isLowerByte s.

Section Case.
Context `{Unicode}.

(** [strings.ToLower]: ASCII-only strings are handled byte by byte (and
    returned as they are when they hold no upper-case letter); any other
    string goes through the Unicode tables. *)
Definition ToLower (s : string) : string :=
  if isASCII s then
    if hasUpper s then mapBytes toLowerByte s else s
  else Map_unicode_ToLower s.

(** [strings.ToUpper], the mirror image. *)
Definition ToUpper (s : string) : string :=
  if isASCII s then
    if hasLower s then mapBytes toUpperByte s else s
  else Map_unicode_ToUpper s.
End Case.

(** [strings.Join(elems, sep)] *)
Fixpoint Join (elems : list string) (sep : string) : string :=
  match elems with
  | [] => ""
  | [x] => x
  | x :: rest => x +:+ sep +:+ Join rest sep
  end.

End GoStrings.

(** ** Packages unicode/utf8 and unicode of the Go standard library

    [strings.ToLower] and [strings.ToUpper] leave their byte-wise path for
    [strings.Map(unicode.ToLower, s)] as soon as a string holds a byte
    outside ASCII.  [Map] is spelled out here with the UTF-8 coding it runs
    on; the case tables of the Go distribution ([unicode.CaseRanges]) stay
    an interface. *)

Module utf8.
Local Open Scope Z_scope.

(** A [rune] is an [int32]; a byte is taken by its value. *)
Definition rune : Type := Z.

Definition RuneError : rune := 0xFFFD.
Definition RuneSelf : Z := 0x80.
Definition MaxRune : rune := 0x10FFFF.

Definition surrogateMin : Z := 0xD800.
Definition surrogateMax : Z := 0xDFFF.

Definition tx : Z := 0x80.
Definition t2 : Z := 0xC0.
Definition t3 : Z := 0xE0.
Definition t4 : Z := 0xF0.

Definition maskx : Z := 0x3F.
Definition mask2 : Z := 0x1F.
Definition mask3 : Z := 0x0F.
Definition mask4 : Z := 0x07.

Definition rune1Max : Z := 0x7F.
Definition rune2Max : Z := 0x7FF.
Definition rune3Max : Z := 0xFFFF.

Definition locb : Z := 0x80.
Definition hicb : Z := 0xBF.

(** The value of a byte of a string, and the byte of a value below 256. *)
Definition value (c : ascii) : Z := Z.of_nat (nat_of_ascii c).
Definition char (z : Z) : ascii := ascii_of_nat (Z.to_nat z).

(** The conversion [byte(x)] of an integer: its low eight bits. *)
Definition byte (x : Z) : Z := x mod 256.

Fixpoint bytes (l : list Z) : string :=
  match l with
  | [] => EmptyString
  | z :: rest => String (char z) (bytes rest)
  end.

(** [s[:n]] *)
Fixpoint upto (n : nat) (s : string) : string :=
  match n, s with
  | O, _ => EmptyString
  | S k, EmptyString => EmptyString
  | S k, String c rest => String c (upto k rest)
  end.

(** [s[n:]] *)
Fixpoint from (n : nat) (s : string) : string :=
  match n, s with
  | O, _ => s
  | S k, EmptyString => EmptyString
  | S k, String _ rest => from k rest
  end.

(** [s[i]], read where the code has checked the length before. *)
Definition at_ (s : string) (i : nat) : Z :=
  match String.get i s with
  | Some c => value c
  | None => 0
  end.

(** An entry of the table [first]: [as] for an ASCII byte, [xx] for a byte
    that starts no rune, and for a leading byte the size of its sequence
    with the range [acceptRanges] gives for the second byte. *)
Inductive firstInfo : Type :=
| as_
| xx
| lead (size : nat) (lo hi : Z).

Definition first (b : Z) : firstInfo :=
  if b <? 0x80 then as_
  else if b <? 0xC2 then xx
  else if b <? 0xE0 then lead 2 locb hicb
  else if b =? 0xE0 then lead 3 0xA0 hicb
  else if b <? 0xED then lead 3 locb hicb
  else if b =? 0xED then lead 3 locb 0x9F
  else if b <? 0xF0 then lead 3 locb hicb
  else if b =? 0xF0 then lead 4 0x90 hicb
  else if b <? 0xF4 then lead 4 locb hicb
  else if b =? 0xF4 then lead 4 locb 0x8F
  else xx.

(** [utf8.DecodeRuneInString]: the rune at the head of [s] and its width in
    bytes; [(RuneError, 1)] where the bytes are no valid coding. *)
Definition DecodeRuneInString (s : string) : rune * nat :=
  let n := String.length s in
  if (n <? 1)%nat then (RuneError, 0%nat)
  else
    let s0 := at_ s 0 in
    match first s0 with
    | as_ => (s0, 1%nat)
    | xx => (RuneError, 1%nat)
    | lead sz lo hi =>
      if (n <? sz)%nat then (RuneError, 1%nat)
      else
        let s1 := at_ s 1 in
        if (s1 <? lo) || (hi <? s1) then (RuneError, 1%nat)
        else if (sz <=? 2)%nat then
          (Z.lor (Z.shiftl (Z.land s0 mask2) 6) (Z.land s1 maskx), 2%nat)
        else
          let s2 := at_ s 2 in
          if (s2 <? locb) || (hicb <? s2) then (RuneError, 1%nat)
          else if (sz <=? 3)%nat then
            (Z.lor (Z.lor (Z.shiftl (Z.land s0 mask3) 12)
                          (Z.shiftl (Z.land s1 maskx) 6))
                   (Z.land s2 maskx), 3%nat)
          else
            let s3 := at_ s 3 in
            if (s3 <? locb) || (hicb <? s3) then (RuneError, 1%nat)
            else
              (Z.lor (Z.lor (Z.lor (Z.shiftl (Z.land s0 mask4) 18)
                                   (Z.shiftl (Z.land s1 maskx) 12))
                            (Z.shiftl (Z.land s2 maskx) 6))
                     (Z.land s3 maskx), 4%nat)
    end.

(** [for _, c := range s]: the runes of [s] in order, an invalid byte
    giving [RuneError]; [skip] counts the bytes still to pass of the rune
    decoded last. *)
Fixpoint rangeRunes (skip : nat) (s : string) : list rune :=
  match s with
  | EmptyString => []
  | String _ rest =>
    match skip with
    | S k => rangeRunes k rest
    | O =>
      let (c, width) := DecodeRuneInString s in
      c :: rangeRunes (width - 1) rest
    end
  end.

(** [utf8.ValidRune] *)
Definition ValidRune (r : rune) : bool :=
  if (0 <=? r) && (r <? surrogateMin) then true
  else if (surrogateMax <? r) && (r <=? MaxRune) then true
  else false.

(** [utf8.RuneLen] *)
Definition RuneLen (r : rune) : Z :=
  if r <? 0 then -1
  else if r <=? rune1Max then 1
  else if r <=? rune2Max then 2
  else if (surrogateMin <=? r) && (r <=? surrogateMax) then -1
  else if r <=? rune3Max then 3
  else if r <=? MaxRune then 4
  else -1.

(** The three bytes [appendRuneNonASCII] writes for a rune up to
    [rune3Max], and for [RuneError] in place of an invalid rune. *)
Definition threeBytes (r : rune) : list Z :=
  [Z.lor t3 (byte (Z.shiftr r 12));
   Z.lor tx (Z.land (byte (Z.shiftr r 6)) maskx);
   Z.lor tx (Z.land (byte r) maskx)].

(** [utf8.AppendRune]; the comparisons are on [uint32(r)]. *)
Definition AppendRune (p : string) (r : rune) : string :=
  let i := r mod 2 ^ 32 in
  if i <=? rune1Max then p +:+ bytes [byte r]
  else if i <=? rune2Max then
    p +:+ bytes [Z.lor t2 (byte (Z.shiftr r 6));
                 Z.lor tx (Z.land (byte r) maskx)]
  else if (MaxRune <? i) || ((surrogateMin <=? i) && (i <=? surrogateMax))
  then p +:+ bytes (threeBytes RuneError)
  else if i <=? rune3Max then p +:+ bytes (threeBytes r)
  else
    p +:+ bytes [Z.lor t4 (byte (Z.shiftr r 18));
                 Z.lor tx (Z.land (byte (Z.shiftr r 12)) maskx);
                 Z.lor tx (Z.land (byte (Z.shiftr r 6)) maskx);
                 Z.lor tx (Z.land (byte r) maskx)].

(** The bytes [AppendRune] adds for [r], and for the runes of a list in
    turn. *)
Definition coding (r : rune) : string := AppendRune "" r.

Definition codings (l : list rune) : string :=
  fold_right (fun r s => coding r +:+ s) "" l.

End utf8.

(** [unicode.To(_case, r)] for a rune above [MaxASCII]: the search in
    [unicode.CaseRanges]. *)
Inductive Case : Type := UpperCase | LowerCase | TitleCase.

Class CaseRanges := {
  unicode_To : Case -> utf8.rune -> utf8.rune
}.

Module unicode.
Local Open Scope Z_scope.

Definition MaxASCII : utf8.rune := 0x7F.

Section To.
Context `{CaseRanges}.

(** [unicode.ToUpper] *)
Definition ToUpper (r : utf8.rune) : utf8.rune :=
  if r <=? MaxASCII then
    if (0x61 <=? r) && (r <=? 0x7A) then r - (0x61 - 0x41) else r
  else unicode_To UpperCase r.

(** [unicode.ToLower] *)
Definition ToLower (r : utf8.rune) : utf8.rune :=
  if r <=? MaxASCII then
    if (0x41 <=? r) && (r <=? 0x5A) then r + (0x61 - 0x41) else r
  else unicode_To LowerCase r.
End To.

End unicode.

(** [strings.Map] and the case mapping it gives [strings.ToLower] and
    [strings.ToUpper] outside ASCII. *)
Module GoStringsMap.
Import utf8.
Local Open Scope Z_scope.

Section Map.
Variable mapping : rune -> rune.

(** What the first loop of [Map] leaves when it breaks: the output so far,
    [s[:i]] followed by the mapped rune, and the rest of the input,
    [s[i+width:]]. *)
Definition enter (b : ascii) (found : option (string * string))
  : option (string * string) :=
  match found with
  | Some (written, rest) => Some (String b written, rest)
  | None => None
  end.

(** The first loop of [Map]: it passes the runes the mapping leaves as
    they are and breaks at the first rune that changes, or at an invalid
    byte.  [None]: the loop ended without a break. *)
Fixpoint Map_first (skip : nat) (s : string) : option (string * string) :=
  match s with
  | EmptyString => None
  | String b rest =>
    match skip with
    | S k => enter b (Map_first k rest)
    | O =>
      let (c, decoded) := DecodeRuneInString s in
      let r := mapping c in
      if (r =? c) && negb (c =? RuneError) then
        enter b (Map_first (decoded - 1) rest)
      else if (c =? RuneError) && negb (decoded =? 1)%nat && (r =? c) then
        enter b (Map_first (decoded - 1) rest)
      else
        let width :=
          if c =? RuneError then decoded else Z.to_nat (RuneLen c) in
        Some (if 0 <=? r then AppendRune "" r else "", from width s)
    end
  end.

(** The second loop of [Map], over the rest of the input. *)
Definition Map_second (written : string) (rest : string) : string :=
  fold_left
    (fun b c =>
       let r := mapping c in
       if 0 <=? r then
         if r <? RuneSelf then b +:+ bytes [byte r] else AppendRune b r
       else b)
    (rangeRunes 0 rest) written.

(** [strings.Map(mapping, s)] *)
Definition Map (s : string) : string :=
  match Map_first 0 s with
  | None => s
  | Some (written, rest) => Map_second written rest
  end.

(** [Map] seen from inside its first loop, [skip] bytes before the next
    rune. *)
Definition Map_after (skip : nat) (s : string) : string :=
  match Map_first skip s with
  | None => s
  | Some (written, rest) => Map_second written rest
  end.

(** What [Map] is to return by its documentation: the coding of every
    mapped rune in turn, a negative one being dropped. *)
Definition put (r : rune) : string := if 0 <=? r then coding r else "".

Definition mapped (l : list rune) : string :=
  fold_right (fun c s => put (mapping c) +:+ s) "" l.
End Map.

(** The non-ASCII path of [strings.ToLower] and [strings.ToUpper] over
    given case tables. *)
Definition tables (T : CaseRanges) : Unicode :=
  {| Map_unicode_ToLower := Map unicode.ToLower;
     Map_unicode_ToUpper := Map unicode.ToUpper |}.

End GoStringsMap.

(** ** Package database/sql/driver of the Go standard library *)

(** A value of Go's [any] as the decoders see it: the nil interface, a
    string, a byte slice, or a value of another dynamic type, kept by what
    [%v] prints for it. *)
Inductive any : Type :=
| anyNil
| anyString (s : string)
| anyBytes (b : string)
| anyOther (printed : string).

Definition isNil (value : any) : bool :=
  match value with anyNil => true | _ => false end.

(** [fmt.Sprintf("%v", v)]; a byte slice prints as its bytes in decimal,
    between brackets. *)
Definition Sprint (v : any) : string :=
  match v with
  | anyNil => "<nil>"
  | anyString s => s
  | anyBytes b =>
    "[" +:+ GoStrings.Join
              (map (fun c => pretty (nat_of_ascii c)) (list_ascii_of_string b))
              " " +:+ "]"
  | anyOther printed => printed
  end.

(** [driver.String.ConvertValue] *)
Class Driver := {
  String_ConvertValue : any -> any * option error
}.

(** ** Package enumer: src/unnamed/part_000, third file *)

Module enumer.
Import GoStrings.

(** Modelled from the spec: the declaration of [enumer.EnumData] is not
    among the sources.  The fields are those the spec lists for the input
    specification ([serialize.type], [serialize.value]) and the generators
    read. *)
Record SerializeData := {
  Serialize_Type : string;
  Serialize_Value : string
}.

(** Modelled from the spec: the element type of [EnumData.Values], whose
    declaration is not among the sources ([name], [serialized],
    [parse-from]). *)
Record EnumValue := {
  Name : string;
  Serialized : string;
  ParseFrom : list string
}.

(** Modelled from the spec: [enumer.EnumData], whose declaration is not
    among the sources; the fields are those the spec lists for the input
    specification and the generators read and write. *)
Record EnumData := {
  InputPath : string;
  OutputPath : string;
  Package : string;
  Type' : string;
  Struct : string;
  Values : list EnumValue;
  Header : string;
  HeaderFrom : string;
  HeaderLines : list string;
  SkipFormat : bool;
  Debug : bool;
  Overwrite : bool;
  Serialize : SerializeData
}.

(** [Join]: the values as strings, then [strings.Join]. *)
Definition Join (values : list string) (sep : string) : string :=
  let ss := fold_left (fun ss value => (ss ++ [value])%list) values [] in
  GoStrings.Join ss sep.

Section IsEq.
Context `{Unicode}.

(** [IsEq(a)(b)]; [upper] is computed with [strings.ToLower], as in the
    source. *)
Definition IsEq (a : string) : string -> bool :=
  let as_ := a in
  let lower := ToLower as_ in
  let upper := ToLower as_ in
  fun b =>
    let bs := b in
    String.eqb as_ bs
    || String.eqb lower (ToLower bs)
    || String.eqb upper (ToUpper bs).
End IsEq.

(** [Value]: the serialized form as the driver's value. *)
Definition Value (e : string) : any * option error := (anyString e, None).

Section Scan.
Context `{Driver}.

(** [Scan(value, e, parser)]: the pointer [e] is the enumeration value
    passed in and returned with the error. *)
Definition Scan (value : any) (e : string)
    (parser : string -> string * option error) : string * option error :=
  if isNil value then (e, Some (errorString "cannot be null"))
  else
    let '(dv, err) := String_ConvertValue value in
    match err with
    | Some err => (e, Some err)
    | None =>
      match dv with
      | anyString s =>
        let '(p, err) := parser s in
        match err with
        | Some err => (e, Some err)
        | None => (p, None)
        end
      | _ => (e, Some (errorString "not a string"))
      end
    end.
End Scan.

End enumer.

(** ** What the generators import

    The file system and the YAML decoder. *)
Class OS := {
  os_ReadFile : string -> string * option error;
  os_Stat : string -> option error;
  yaml_Unmarshal : string -> enumer.EnumData -> enumer.EnumData * option error
}.

(** [asciibox.BoxOptions], by the fields the generators set. *)
Inductive Alignment : Type := Alignment_Left | Alignment_Middle.

Record BoxOptions := {
  BoxWidth : nat;
  BoxAlignment : Alignment;
  WrapCharacter : string
}.

(** go-commoner ([stringer], [caser], [pather], [extentioner]), pluralize,
    asciibox and [strings.Split], by the functions the generators call. *)
Class Imports := {
  strings_Split : string -> string -> list string;
  stringer_IsEmpty : string -> bool;
  stringer_IsDefined : string -> bool;
  stringer_RemoveSymbols : string -> string;
  stringer_RemoveSpace : string -> string;
  stringer_RemoveNonLanguageCharacters : string -> string -> string;
  stringer_ReplaceNonLanguageCharacters : string -> string -> string -> string;
  stringer_ReplaceInList : string -> list string -> string -> string;
  stringer_Split : string -> string -> list string;
  CaseType : Type;
  CaseTypes_Phrase : CaseType;
  CaseTypes_Pascal : CaseType;
  caser_Convert : string -> CaseType -> CaseType -> string;
  caser_Converter : string -> (string -> string) + error;
  caser_PhraseToPascal : string -> string;
  caser_PascalToKebabLower : string -> string;
  caser_KebabToPascal : string -> string;
  pather_Dir : string -> string;
  pather_Base : string -> string;
  extentioner_Swap : string -> string -> string -> string;
  extentioner_Strip : string -> string;
  pluralize_Plural : string -> string;
  asciibox_Box : list string -> BoxOptions -> string
}.

(** ** The generators: what both files share *)

Module Generator.
Import enumer.

(** [argsData] *)
Record argsData := {
  args_InputPath : string;
  args_SkipFormat : bool;
  args_Debug : bool;
  args_VsCode : string;
  args_Serialize : string;
  args_Overwrite : bool
}.

(** Assignments to the fields of [*enum]. *)
Definition set_InputPath (x : string) (e : EnumData) : EnumData :=
  {| InputPath := x; OutputPath := OutputPath e; Package := Package e;
     Type' := Type' e; Struct := Struct e; Values := Values e;
     Header := Header e; HeaderFrom := HeaderFrom e;
     HeaderLines := HeaderLines e; SkipFormat := SkipFormat e;
     Debug := Debug e; Overwrite := Overwrite e; Serialize := Serialize e |}.

Definition set_OutputPath (x : string) (e : EnumData) : EnumData :=
  {| InputPath := InputPath e; OutputPath := x; Package := Package e;
     Type' := Type' e; Struct := Struct e; Values := Values e;
     Header := Header e; HeaderFrom := HeaderFrom e;
     HeaderLines := HeaderLines e; SkipFormat := SkipFormat e;
     Debug := Debug e; Overwrite := Overwrite e; Serialize := Serialize e |}.

Definition set_Package (x : string) (e : EnumData) : EnumData :=
  {| InputPath := InputPath e; OutputPath := OutputPath e; Package := x;
     Type' := Type' e; Struct := Struct e; Values := Values e;
     Header := Header e; HeaderFrom := HeaderFrom e;
     HeaderLines := HeaderLines e; SkipFormat := SkipFormat e;
     Debug := Debug e; Overwrite := Overwrite e; Serialize := Serialize e |}.

Definition set_Type (x : string) (e : EnumData) : EnumData :=
  {| InputPath := InputPath e; OutputPath := OutputPath e;
     Package := Package e; Type' := x; Struct := Struct e;
     Values := Values e; Header := Header e; HeaderFrom := HeaderFrom e;
     HeaderLines := HeaderLines e; SkipFormat := SkipFormat e;
     Debug := Debug e; Overwrite := Overwrite e; Serialize := Serialize e |}.

Definition set_Struct (x : string) (e : EnumData) : EnumData :=
  {| InputPath := InputPath e; OutputPath := OutputPath e;
     Package := Package e; Type' := Type' e; Struct := x;
     Values := Values e; Header := Header e; HeaderFrom := HeaderFrom e;
     HeaderLines := HeaderLines e; SkipFormat := SkipFormat e;
     Debug := Debug e; Overwrite := Overwrite e; Serialize := Serialize e |}.

Definition set_Values (x : list EnumValue) (e : EnumData) : EnumData :=
  {| InputPath := InputPath e; OutputPath := OutputPath e;
     Package := Package e; Type' := Type' e; Struct := Struct e;
     Values := x; Header := Header e; HeaderFrom := HeaderFrom e;
     HeaderLines := HeaderLines e; SkipFormat := SkipFormat e;
     Debug := Debug e; Overwrite := Overwrite e; Serialize := Serialize e |}.

Definition set_Header (x : string) (e : EnumData) : EnumData :=
  {| InputPath := InputPath e; OutputPath := OutputPath e;
     Package := Package e; Type' := Type' e; Struct := Struct e;
     Values := Values e; Header := x; HeaderFrom := HeaderFrom e;
     HeaderLines := HeaderLines e; SkipFormat := SkipFormat e;
     Debug := Debug e; Overwrite := Overwrite e; Serialize := Serialize e |}.

Definition set_HeaderLines (x : list string) (e : EnumData) : EnumData :=
  {| InputPath := InputPath e; OutputPath := OutputPath e;
     Package := Package e; Type' := Type' e; Struct := Struct e;
     Values := Values e; Header := Header e; HeaderFrom := HeaderFrom e;
     HeaderLines := x; SkipFormat := SkipFormat e;
     Debug := Debug e; Overwrite := Overwrite e; Serialize := Serialize e |}.

Definition set_SkipFormat (x : bool) (e : EnumData) : EnumData :=
  {| InputPath := InputPath e; OutputPath := OutputPath e;
     Package := Package e; Type' := Type' e; Struct := Struct e;
     Values := Values e; Header := Header e; HeaderFrom := HeaderFrom e;
     HeaderLines := HeaderLines e; SkipFormat := x;
     Debug := Debug e; Overwrite := Overwrite e; Serialize := Serialize e |}.

Definition set_Debug (x : bool) (e : EnumData) : EnumData :=
  {| InputPath := InputPath e; OutputPath := OutputPath e;
     Package := Package e; Type' := Type' e; Struct := Struct e;
     Values := Values e; Header := Header e; HeaderFrom := HeaderFrom e;
     HeaderLines := HeaderLines e; SkipFormat := SkipFormat e;
     Debug := x; Overwrite := Overwrite e; Serialize := Serialize e |}.

Definition set_Overwrite (x : bool) (e : EnumData) : EnumData :=
  {| InputPath := InputPath e; OutputPath := OutputPath e;
     Package := Package e; Type' := Type' e; Struct := Struct e;
     Values := Values e; Header := Header e; HeaderFrom := HeaderFrom e;
     HeaderLines := HeaderLines e; SkipFormat := SkipFormat e;
     Debug := Debug e; Overwrite := x; Serialize := Serialize e |}.

Definition set_Name (x : string) (v : EnumValue) : EnumValue :=
  {| Name := x; Serialized := Serialized v; ParseFrom := ParseFrom v |}.

Definition set_Serialized (x : string) (v : EnumValue) : EnumValue :=
  {| Name := Name v; Serialized := x; ParseFrom := ParseFrom v |}.

(** [processEnum] works on [*enum] and returns an error: a computation
    that threads the record and stops at the first error. *)
Definition Proc (A : Type) : Type := EnumData -> EnumData * (A + error).

Definition ret {A} (a : A) : Proc A := fun enum => (enum, inl a).
Definition fail {A} (err : error) : Proc A := fun enum => (enum, inr err).
Definition bind {A B} (m : Proc A) (f : A -> Proc B) : Proc B :=
  fun enum =>
    match m enum with
    | (enum', inl a) => f a enum'
    | (enum', inr err) => (enum', inr err)
    end.
Definition get : Proc EnumData := fun enum => (enum, inl enum).
Definition modify (f : EnumData -> EnumData) : Proc unit :=
  fun enum => (f enum, inl tt).
Definition when (b : bool) (m : Proc unit) : Proc unit :=
  if b then m else ret tt.

(** What the caller of [processEnum] sees: the record and the error. *)
Definition run (m : Proc unit) (enum : EnumData) : EnumData * option error :=
  match m enum with
  | (enum', inl _) => (enum', None)
  | (enum', inr err) => (enum', Some err)
  end.

(** What [main] does once the arguments are read and no editor schema is
    asked for: [handleErr] prints the error and exits with status 1;
    otherwise the resolved definition goes on to [processTemplate] and
    [processWrite]. *)
Inductive Outcome : Type :=
| Exit1 (printed : string)
| Emit (enum : EnumData).

(** The zero value of [enumer.EnumData], [var enum enumer.EnumData]. *)
Definition zeroEnum : EnumData :=
  {| InputPath := ""; OutputPath := ""; Package := ""; Type' := "";
     Struct := ""; Values := []; Header := ""; HeaderFrom := "";
     HeaderLines := []; SkipFormat := false; Debug := false;
     Overwrite := false;
     Serialize := {| Serialize_Type := ""; Serialize_Value := "" |} |}.

End Generator.

Declare Scope proc_scope.
Delimit Scope proc_scope with proc.
Notation "'do' x <- m ; k" := (Generator.bind m (fun x => k))
  (at level 10, x name, m at level 100, k at level 200) : proc_scope.

(** ** The generator of src/unnamed/part_000 (configurable converters) *)

Module MainOlder.
Import enumer Generator.
Local Open Scope proc_scope.

(** [Header] *)
Definition Header : list string :=
  [ "===== DO NOT EDIT =====";
    "Manual changes will be overwritten.";
    "Generated by github.com/boundedinfinity/enumer" ].

Section Resolution.
Context `{OS} `{Imports}.

(** [passthrough := func(s string) string { return s }] *)
Definition passthrough (s : string) : string := s.

(** The body of the loop over [enum.Values], at index [i]: the resolved
    value, or the error the loop returns. *)
Definition processEnum_value (typeConverter valueConverter : string -> string)
    (i : nat) (value : EnumValue) : EnumValue * option error :=
  if stringer_IsEmpty (Name value) && stringer_IsEmpty (Serialized value) then
    (value,
     Some (errorString ("Invalid values[" +:+ pretty i
                        +:+ "] name or serialized value")))
  else if stringer_IsEmpty (Name value)
          && negb (stringer_IsEmpty (Serialized value)) then
    let value := set_Name (valueConverter (Serialized value)) value in
    let value := set_Name (stringer_RemoveSymbols (Name value)) value in
    let value := set_Name (stringer_RemoveSpace (Name value)) value in
    (value, None)
  else if negb (stringer_IsEmpty (Name value))
          && stringer_IsEmpty (Serialized value) then
    let value := set_Serialized (typeConverter (Name value)) value in
    (value, None)
  else (value, None).

(** [for i := 0; i < len(enum.Values); i++]: the slice as the loop leaves
    it, every value before the failing index already written back. *)
Fixpoint processEnum_values (typeConverter valueConverter : string -> string)
    (i : nat) (values : list EnumValue) : list EnumValue * option error :=
  match values with
  | [] => ([], None)
  | value :: rest =>
    match processEnum_value typeConverter valueConverter i value with
    | (_, Some err) => (value :: rest, Some err)
    | (value', None) =>
      let '(rest', err) :=
        processEnum_values typeConverter valueConverter (S i) rest in
      (value' :: rest', err)
    end
  end.

(** [caser.Converter[string](name)], its error returned as it is. *)
Definition converter (name : string) : Proc (string -> string) :=
  match caser_Converter name with
  | inr err => fail err
  | inl c => ret c
  end.

(** [var typeConverter func(string) string] and the [if] that sets
    it. *)
Definition typeConverterFor (enum : EnumData) : Proc (string -> string) :=
  if negb (String.eqb (Serialize_Type (Serialize enum)) "")
  then converter (Serialize_Type (Serialize enum))
  else ret caser_PhraseToPascal.

(** [var valueConverter func(string) string] and the [if] that sets
    it. *)
Definition valueConverterFor (enum : EnumData) : Proc (string -> string) :=
  if negb (stringer_IsEmpty (Serialize_Value (Serialize enum)))
  then converter (Serialize_Value (Serialize enum))
  else ret passthrough.

(** [processEnum] *)
Definition processEnum (args : argsData) : Proc unit :=
  do enum <- get ;
  do _ <- (match os_ReadFile (args_InputPath args) with
           | (bs, None) =>
             fun _ =>
               match yaml_Unmarshal bs enum with
               | (enum', None) => (enum', inl tt)
               | (enum', Some err) =>
                 (enum',
                  inr (wrapError ("Can't parse config path "
                                  +:+ args_InputPath args +:+ " : "
                                  +:+ Error err +:+ ".") err))
               end
           | (_, Some err) =>
             fail (wrapError ("Can't load config path "
                              +:+ args_InputPath args +:+ " : "
                              +:+ Error err +:+ ".") err)
           end) ;
  do _ <- when (args_SkipFormat args)
            (modify (set_SkipFormat (args_SkipFormat args))) ;
  do _ <- when (args_Debug args) (modify (set_Debug (args_Debug args))) ;
  do _ <- modify (set_InputPath (args_InputPath args)) ;
  do enum <- get ;
  do _ <- when (String.eqb (OutputPath enum) "")
            (modify (set_OutputPath
                       (extentioner_Swap (InputPath enum) ".yaml" ".go"))) ;
  do enum <- get ;
  do _ <- when (String.eqb (Package enum) "")
            (modify (set_Package
                       (stringer_ReplaceInList
                          (pather_Base (pather_Dir (OutputPath enum)))
                          ["-"; " "] "_"))) ;
  do typeConverter <- typeConverterFor enum ;
  do _ <- when (String.eqb (Type' enum) "")
            (modify (set_Type
                       (caser_KebabToPascal
                          (extentioner_Strip
                             (extentioner_Strip
                                (pather_Base (OutputPath enum))))))) ;
  do enum <- get ;
  do _ <- when (String.eqb (Struct enum) "")
            (modify (set_Struct (pluralize_Plural (Type' enum)))) ;
  do valueConverter <- valueConverterFor enum ;
  do _ <- (fun enum =>
             let '(values, err) :=
               processEnum_values typeConverter valueConverter 0
                 (Values enum) in
             (set_Values values enum,
              match err with Some err => inr err | None => inl tt end)) ;
  do enum <- get ;
  do _ <- when (String.eqb (enumer.Header enum) ""
                && String.eqb (HeaderFrom enum) "")
            (modify (set_HeaderLines Header)) ;
  do _ <- when (negb (String.eqb (enumer.Header enum) ""))
            (modify (set_HeaderLines
                       (stringer_Split (enumer.Header enum) LF))) ;
  do _ <- when (negb (String.eqb (HeaderFrom enum) ""))
            (match os_Stat (HeaderFrom enum) with
             | Some err =>
               fail (wrapError ("Invalid header from path "
                                +:+ HeaderFrom enum +:+ ": "
                                +:+ Error err) err)
             | None =>
               match os_ReadFile (args_InputPath args) with
               | (_, Some err) =>
                 fail (wrapError ("Can't read header from path "
                                  +:+ HeaderFrom enum +:+ ": "
                                  +:+ Error err) err)
               | (bs, None) =>
                 modify (set_HeaderLines (stringer_Split bs LF))
               end
             end) ;
  do enum <- get ;
  do _ <- modify (set_Header
                    (asciibox_Box (HeaderLines enum)
                       {| BoxWidth := 0;
                          BoxAlignment := Alignment_Left;
                          WrapCharacter := "" |})) ;
  do _ <- when (args_Overwrite args) (modify (set_Overwrite true)) ;
  ret tt.

(** [main], from [var enum enumer.EnumData] on. *)
Definition main (args : argsData) : Outcome :=
  match run (processEnum args) zeroEnum with
  | (_, Some err) => Exit1 (Error err)
  | (enum, None) => Emit enum
  end.
End Resolution.

(** The companion [processTemplate] emits for a resolved [enum]: the
    variable [Ts] holds one field per value, [Ts.Name = Type(Serialized)],
    the list [Values] and the error [Err]. *)
Section Companion.
Context `{Unicode}.
Variable enum : EnumData.

(** [Err: fmt.Errorf("invalid " + enum.Type)] *)
Definition Err : error := errorString ("invalid " +:+ Type' enum).

(** [init()]: [Ts.Values = []Type{Ts.Name1, ...}], in the order of
    [enum.Values]. *)
Definition Values : list string := map Serialized (enumer.Values enum).

(** [newErr(a, values...)] *)
Definition newErr (a : any) (values : list string) : error :=
  wrapError ("invalid " +:+ Error Err +:+ " value '" +:+ Sprint a
             +:+ "'. Must be one of " +:+ enumer.Join values ", ") Err.

(** The loop of [ParseFrom]: [found] and [ok] as the loop leaves them. *)
Fixpoint ParseFrom_loop (v : string) (values : list string)
    (found : string) (ok : bool) : string * bool :=
  match values with
  | [] => (found, ok)
  | value :: rest =>
    if IsEq v value then (value, true)
    else ParseFrom_loop v rest found ok
  end.

(** [ParseFrom(v, values...)] *)
Definition ParseFrom (v : string) (values : list string)
    : string * option error :=
  let '(found, ok) := ParseFrom_loop v values "" false in
  if negb ok then (found, Some (newErr (anyString v) values))
  else (found, None).

(** [Parse(v)] *)
Definition Parse (v : string) : string * option error :=
  ParseFrom v Values.

(** [IsFrom(v, values...)] *)
Fixpoint IsFrom (v : string) (values : list string) : bool :=
  match values with
  | [] => false
  | value :: rest => if IsEq v value then true else IsFrom v rest
  end.

(** [Is(v)] *)
Definition Is (v : string) : bool := IsFrom v Values.

(** The [Scan] method: [enumer.Scan(value, t, Ts.Parse)]. *)
Definition Scan `{Driver} (value : any) (t : string)
    : string * option error :=
  enumer.Scan value t Parse.
End Companion.

End MainOlder.

(** ** The generator of src/cmd/enumer/main.go (fixed conversions) *)

Module Main.
Import enumer Generator.
Local Open Scope proc_scope.

(** [Header] *)
Definition Header : list string :=
  [ "DO NOT EDIT"; "";
    "Manual changes will be overwritten."; "";
    "Generated by github.com/boundedinfinity/enumer" ].

Section Resolution.
Context `{OS} `{Imports}.

(** The body of the loop over [enum.Values], at index [i]. *)
Definition processEnum_value (i : nat) (value : EnumValue)
    : EnumValue * option error :=
  if stringer_IsEmpty (Name value) && stringer_IsEmpty (Serialized value) then
    (value,
     Some (errorString ("invalid values[" +:+ pretty i
                        +:+ "] name or serialized value")))
  else if stringer_IsEmpty (Name value)
          && stringer_IsDefined (Serialized value) then
    let value :=
      set_Name (stringer_ReplaceNonLanguageCharacters
                  (Serialized value) " " "_") value in
    let value :=
      set_Name (caser_Convert (Name value)
                  CaseTypes_Phrase CaseTypes_Pascal) value in
    (value, None)
  else if stringer_IsDefined (Name value)
          && stringer_IsEmpty (Serialized value) then
    let value :=
      set_Serialized (stringer_RemoveNonLanguageCharacters
                        (Name value) "_") value in
    let value :=
      set_Serialized (caser_PascalToKebabLower (Serialized value)) value in
    let value :=
      set_Name (stringer_RemoveNonLanguageCharacters
                  (Name value) "_") value in
    let value := set_Name (stringer_RemoveSpace (Name value)) value in
    (value, None)
  else if stringer_IsDefined (Name value)
          && stringer_IsDefined (Serialized value) then
    let value :=
      set_Name (stringer_RemoveNonLanguageCharacters
                  (Name value) "_") value in
    let value := set_Name (stringer_RemoveSpace (Name value)) value in
    (value, None)
  else (value, None).

(** [for i := 0; i < len(enum.Values); i++] *)
Fixpoint processEnum_values (i : nat) (values : list EnumValue)
    : list EnumValue * option error :=
  match values with
  | [] => ([], None)
  | value :: rest =>
    match processEnum_value i value with
    | (_, Some err) => (value :: rest, Some err)
    | (value', None) =>
      let '(rest', err) := processEnum_values (S i) rest in
      (value' :: rest', err)
    end
  end.

(** [box] *)
Definition box (text : string) : string :=
  let lines := strings_Split text LF in
  asciibox_Box lines
    {| BoxWidth := 60;
       BoxAlignment := Alignment_Middle;
       WrapCharacter := "/" |}.

(** [processEnum] *)
Definition processEnum (args : argsData) : Proc unit :=
  do enum <- get ;
  do _ <- (match os_ReadFile (args_InputPath args) with
           | (bs, None) =>
             fun _ =>
               match yaml_Unmarshal bs enum with
               | (enum', None) => (enum', inl tt)
               | (enum', Some err) =>
                 (enum',
                  inr (wrapError ("can't parse config path "
                                  +:+ args_InputPath args +:+ " : "
                                  +:+ Error err) err))
               end
           | (_, Some err) =>
             fail (wrapError ("can't load config path "
                              +:+ args_InputPath args +:+ " : "
                              +:+ Error err) err)
           end) ;
  do _ <- when (args_SkipFormat args)
            (modify (set_SkipFormat (args_SkipFormat args))) ;
  do _ <- when (args_Debug args) (modify (set_Debug (args_Debug args))) ;
  do _ <- modify (set_InputPath (args_InputPath args)) ;
  do enum <- get ;
  do _ <- when (String.eqb (OutputPath enum) "")
            (modify (set_OutputPath
                       (extentioner_Swap (InputPath enum) ".yaml" ".go"))) ;
  do enum <- get ;
  do _ <- when (String.eqb (Package enum) "")
            (modify (set_Package
                       (stringer_ReplaceInList
                          (pather_Base (pather_Dir (OutputPath enum)))
                          ["-"; " "] "_"))) ;
  do _ <- when (String.eqb (Type' enum) "")
            (modify (set_Type
                       (caser_KebabToPascal
                          (extentioner_Strip
                             (extentioner_Strip
                                (pather_Base (OutputPath enum))))))) ;
  do enum <- get ;
  do _ <- when (String.eqb (Struct enum) "")
            (modify (set_Struct (pluralize_Plural (Type' enum)))) ;
  do _ <- (fun enum =>
             let '(values, err) := processEnum_values 0 (Values enum) in
             (set_Values values enum,
              match err with Some err => inr err | None => inl tt end)) ;
  do enum <- get ;
  do _ <- when (String.eqb (enumer.Header enum) ""
                && String.eqb (HeaderFrom enum) "")
            (modify (set_HeaderLines Header)) ;
  do _ <- when (negb (String.eqb (enumer.Header enum) ""))
            (modify (set_HeaderLines
                       (stringer_Split (enumer.Header enum) LF))) ;
  do _ <- when (negb (String.eqb (HeaderFrom enum) ""))
            (match os_Stat (HeaderFrom enum) with
             | Some err =>
               fail (wrapError ("invalid header from path "
                                +:+ HeaderFrom enum +:+ ": "
                                +:+ Error err) err)
             | None =>
               match os_ReadFile (args_InputPath args) with
               | (_, Some err) =>
                 fail (wrapError ("can't read header from path "
                                  +:+ HeaderFrom enum +:+ ": "
                                  +:+ Error err) err)
               | (bs, None) =>
                 modify (set_HeaderLines (stringer_Split bs LF))
               end
             end) ;
  do enum <- get ;
  do _ <- modify (set_Header
                    (box (GoStrings.Join (HeaderLines enum) LF))) ;
  do _ <- when (args_Overwrite args) (modify (set_Overwrite true)) ;
  ret tt.

(** [main], from [var enum enumer.EnumData] on. *)
Definition main (args : argsData) : Outcome :=
  match run (processEnum args) zeroEnum with
  | (_, Some err) => Exit1 (Error err)
  | (enum, None) => Emit enum
  end.
End Resolution.

(** The companion [processTemplate] emits: the struct holds [Err], the
    closure [errf], the table [parseMap] and one field per value,
    [Ts.Name = Type(Serialized)]; [members] are those fields in the order
    of [enum.Values]. *)
Record companion := {
  Err : error;
  parseMap : gmap string (list string);
  members : list string
}.

(** [var Ts = ts{Err: fmt.Errorf("invalid " + enum.Type), Name: ..., ...}] *)
Definition companionVar (enum : EnumData) : companion :=
  {| Err := errorString ("invalid " +:+ Type' enum);
     parseMap := ∅;
     members := map Serialized (enumer.Values enum) |}.

(** [init()]: [Ts.parseMap] gets one entry per value, keyed by the field
    [Ts.Name] and holding the serialized form, the name and the
    [ParseFrom] entries.  (The guard on [d[jen.Lit(value.Name)]] never
    finds a key, the keys of [d] being the statements [Ts.Name].)  The
    order of the entries matters only when two values share a serialized
    form; what is proved of the table's content is proved for distinct
    serialized forms. *)
Definition aliases (value : EnumValue) : list string :=
  Serialized value :: Name value :: ParseFrom value.

Definition register (d : gmap string (list string)) (value : EnumValue)
    : gmap string (list string) :=
  <[Serialized value := aliases value]> d.

Definition init (enum : EnumData) (t : companion) : companion :=
  {| Err := Err t;
     parseMap := fold_left register (enumer.Values enum) ∅;
     members := members t |}.

(** The companion once the program has started. *)
Definition Ts (enum : EnumData) : companion := init enum (companionVar enum).

Section Companion.
Variable t : companion.

(** [Values()] *)
Definition Values : list string := members t.

(** [errf(v, items...)], the closure [init()] installs. *)
Definition errf (v : any) (items : list string) : error :=
  let xs :=
    fold_left
      (fun xs item =>
         match parseMap t !! item with
         | Some x => (xs ++ x)%list
         | None => xs
         end)
      items [] in
  wrapError (Error (Err t) +:+ ": " +:+ Sprint v +:+ " is not one of "
             +:+ GoStrings.Join xs ",") (Err t).

(** [for _, matcher := range matchers] *)
Fixpoint matchers_loop (v item : string) (matchers : list string)
    (found : string) (ok : bool) : string * bool :=
  match matchers with
  | [] => (found, ok)
  | matcher :: rest =>
    if String.eqb v matcher then (item, true)
    else matchers_loop v item rest found ok
  end.

(** [for _, item := range items], with the return that follows it;
    [items] is the whole argument, for [errf]. *)
Fixpoint ParseFrom_loop (v : string) (items rest : list string)
    (found : string) (ok : bool) : string * option error :=
  match rest with
  | [] => (found, None)
  | item :: rest =>
    match parseMap t !! item with
    | None => ParseFrom_loop v items rest found ok
    | Some matchers =>
      let '(found, ok) := matchers_loop v item matchers found ok in
      if negb ok then (found, Some (errf (anyString v) items))
      else (found, None)
    end
  end.

(** [ParseFrom(v, items...)] *)
Definition ParseFrom (v : string) (items : list string)
    : string * option error :=
  ParseFrom_loop v items items "" false.

(** [Parse(v)] *)
Definition Parse (v : string) : string * option error :=
  ParseFrom v Values.

(** [IsFrom(v, items...)] *)
Definition IsFrom (v : string) (items : list string) : bool :=
  let '(_, err) := ParseFrom v items in
  match err with None => true | Some _ => false end.

(** [Is(v)] *)
Definition Is (v : string) : bool := IsFrom v Values.

(** What [errf] lists, in closed form: the table entries of the items,
    end to end. *)
Definition listed (items : list string) : list string :=
  flat_map
    (fun item =>
       match parseMap t !! item with Some x => x | None => [] end)
    items.
End Companion.

End Main.

(** ** Reference implementations of the imported interfaces

    They serve to run the model on sample inputs, nothing more: the ASCII
    behaviour of the imported functions on words, spaces and dashes.  No
    theorem below depends on them. *)

Module Reference.
Import GoStrings enumer.

(** Byte-wise case mapping on strings that hold non-ASCII bytes: what Go
    computes when those bytes are valid UTF-8 for runes without case. *)
Definition unicode : Unicode :=
  {| Map_unicode_ToLower := mapBytes toLowerByte;
     Map_unicode_ToUpper := mapBytes toUpperByte |}.

(** [driver.String.ConvertValue]: strings and byte slices are returned as
    they are, anything else is printed with [%v]; never an error. *)
Definition driver : Driver :=
  {| String_ConvertValue := fun v =>
       match v with
       | anyString _ | anyBytes _ => (v, None)
       | _ => (anyString (Sprint v), None)
       end |}.

(** A file system where every path holds the YAML text of [doc]. *)
Definition os (doc : EnumData) : OS :=
  {| os_ReadFile := fun _ => ("", None);
     os_Stat := fun _ => None;
     yaml_Unmarshal := fun _ _ => (doc, None) |}.

Definition isSpaceByte (c : ascii) : bool :=
  ((nat_of_ascii c =? 32) || ((9 <=? nat_of_ascii c) && (nat_of_ascii c <=? 13)))%nat.

Definition isDigitByte (c : ascii) : bool :=
  ((48 <=? nat_of_ascii c) && (nat_of_ascii c <=? 57))%nat.

Definition isAlnumByte (c : ascii) : bool :=
  isUpperByte c || isLowerByte c || isDigitByte c.

Fixpoint filterBytes (p : ascii -> bool) (s : string) : string :=
  match s with
  | EmptyString => EmptyString
  | String c rest =>
    if p c then String c (filterBytes p rest) else filterBytes p rest
  end.

Fixpoint inString (c : ascii) (s : string) : bool :=
  match s with
  | EmptyString => false
  | String d rest => Ascii.eqb c d || inString c rest
  end.

Definition isLanguageByte (keep : string) (c : ascii) : bool :=
  isAlnumByte c || isSpaceByte c || inString c keep.

Fixpoint replaceBytes (p : ascii -> bool) (by_ : string) (s : string) : string :=
  match s with
  | EmptyString => EmptyString
  | String c rest =>
    if p c then String c (replaceBytes p by_ rest)
    else by_ +:+ replaceBytes p by_ rest
  end.

(** Words separated by [sep], each with its first letter in upper case,
    put together; [start] says that the next byte starts a word. *)
Fixpoint capitalizeWords (sep : ascii) (start : bool) (s : string) : string :=
  match s with
  | EmptyString => EmptyString
  | String c rest =>
    if Ascii.eqb c sep then capitalizeWords sep true rest
    else String (if start then toUpperByte c else c)
           (capitalizeWords sep false rest)
  end.

(** A dash before every upper-case letter but the first byte, all in lower
    case. *)
Fixpoint kebabLower (first : bool) (s : string) : string :=
  match s with
  | EmptyString => EmptyString
  | String c rest =>
    if isUpperByte c && negb first
    then String "-"%char (String (toLowerByte c) (kebabLower false rest))
    else String (toLowerByte c) (kebabLower false rest)
  end.

Inductive caseType : Type := Phrase | Pascal.

Definition imports : Imports :=
  {| strings_Split := fun s _ => [s];
     stringer_IsEmpty := fun s => String.eqb s "";
     stringer_IsDefined := fun s => negb (String.eqb s "");
     stringer_RemoveSymbols :=
       filterBytes (fun c => isAlnumByte c || isSpaceByte c);
     stringer_RemoveSpace := filterBytes (fun c => negb (isSpaceByte c));
     stringer_RemoveNonLanguageCharacters := fun s keep =>
       filterBytes (isLanguageByte keep) s;
     stringer_ReplaceNonLanguageCharacters := fun s by_ keep =>
       replaceBytes (isLanguageByte keep) by_ s;
     stringer_ReplaceInList := fun s _ _ => s;
     stringer_Split := fun s _ => [s];
     CaseType := caseType;
     CaseTypes_Phrase := Phrase;
     CaseTypes_Pascal := Pascal;
     caser_Convert := fun s from to =>
       match from, to with
       | Phrase, Pascal => capitalizeWords " "%char true s
       | _, _ => s
       end;
     caser_Converter := fun name =>
       inr (errorString ("unknown converter " +:+ name));
     caser_PhraseToPascal := capitalizeWords " "%char true;
     caser_PascalToKebabLower := kebabLower true;
     caser_KebabToPascal := capitalizeWords "-"%char true;
     pather_Dir := fun p => p;
     pather_Base := fun p => p;
     extentioner_Swap := fun p _ _ => p;
     extentioner_Strip := fun p => p;
     pluralize_Plural := fun s => s +:+ "s";
     asciibox_Box := fun lines _ => GoStrings.Join lines LF |}.

(** Sample arguments and documents. *)
Definition args : Generator.argsData :=
  {| Generator.args_InputPath := "/work/status.enum.yaml";
     Generator.args_SkipFormat := false;
     Generator.args_Debug := false;
     Generator.args_VsCode := "";
     Generator.args_Serialize := "";
     Generator.args_Overwrite := false |}.

Definition document (values : list EnumValue) : EnumData :=
  Generator.set_Values values
    (Generator.set_Type "Status" Generator.zeroEnum).

Definition value (name serialized : string) (parseFrom : list string)
    : EnumValue :=
  {| Name := name; Serialized := serialized; ParseFrom := parseFrom |}.

(** A resolved enumeration [Status] with two values. *)
Definition done : EnumValue := value "Done" "done" ["finished"].
Definition open : EnumValue := value "Open" "open" [].
Definition status : EnumData := document [done; open].

(** Documents as their authors write them. *)
Definition collision : EnumData :=
  document [value "" "Active" []; value "" "active" []].

Definition incomplete : EnumData :=
  document [value "" "Active" []; value "Idle" "" []; value "" "" []].

Definition onlySerialized : EnumValue :=
  value "" "done" ["complete"; "finished"].

Definition onlyName : EnumValue := value "InProgress" "" [].

Definition spacedName : EnumValue := value "In Progress" "" [].

End Reference.

(** ** Package enumer: the JSON and YAML helpers

    [encoding/json], by the two functions the helpers call on a string. *)
Class Json := {
  json_Marshal : string -> string * option error;
  json_Unmarshal : string -> string * option error
}.

Module enumerCodec.

Section Json.
Context `{Json}.

(** [MarshalJSON(e)] *)
Definition MarshalJSON (e : string) : string * option error :=
  json_Marshal e.

(** [UnmarshalJSON(data, e, parser)]; the pointer [e] is passed in and
    returned with the error. *)
Definition UnmarshalJSON (data : string) (e : string)
    (parser : string -> string * option error) : string * option error :=
  let '(s, err) := json_Unmarshal data in
  match err with
  | Some err => (e, Some err)
  | None =>
    let '(p, err) := parser s in
    match err with
    | Some err => (e, Some err)
    | None => (p, None)
    end
  end.
End Json.

(** [MarshalYAML(e)] *)
Definition MarshalYAML (e : string) : any * option error :=
  (anyString e, None).

(** [UnmarshalYAML(unmarshal, e, parser)]; [unmarshal] is the decoder's
    callback, here by what it leaves in the string it is given and the
    error it returns. *)
Definition UnmarshalYAML (unmarshal : string -> string * option error)
    (e : string) (parser : string -> string * option error)
    : string * option error :=
  let '(s, err) := unmarshal "" in
  match err with
  | Some err => (e, Some err)
  | None =>
    let '(p, err) := parser s in
    match err with
    | Some err => (e, Some err)
    | None => (p, None)
    end
  end.

End enumerCodec.

(** ** The methods the older generator emits on the enumeration type *)

Module MainOlderMethods.

Section Methods.
Context `{Unicode} `{Json} `{Driver}.
Variable enum : enumer.EnumData.

(** [func (t T) String() string] *)
Definition String_ (t : string) : string := t.

(** [func (t T) MarshalJSON() ([]byte, error)] *)
Definition MarshalJSON (t : string) : string * option error :=
  enumerCodec.MarshalJSON t.

(** [func (t *T) UnmarshalJSON(data []byte) error] *)
Definition UnmarshalJSON (data : string) (t : string) : string * option error :=
  enumerCodec.UnmarshalJSON data t (MainOlder.Parse enum).

(** [func (t T) MarshalYAML() (interface{}, error)] *)
Definition MarshalYAML (t : string) : any * option error :=
  enumerCodec.MarshalYAML t.

(** [func (t *T) UnmarshalYAML(unmarshal func(interface{}) error) error] *)
Definition UnmarshalYAML (unmarshal : string -> string * option error)
    (t : string) : string * option error :=
  enumerCodec.UnmarshalYAML unmarshal t (MainOlder.Parse enum).

(** [func (t T) Value() (driver.Value, error)] *)
Definition Value (t : string) : any * option error := enumer.Value t.
End Methods.

End MainOlderMethods.

(** ** The methods src/cmd/enumer/main.go emits on the enumeration type *)

Module MainMethods.

Section Methods.
Context `{Json} `{Driver}.
Variable Ts : Main.companion.

(** [func (t T) String() string] *)
Definition String_ (t : string) : string := t.

(** [func (t T) MarshalJSON() ([]byte, error)] *)
Definition MarshalJSON (t : string) : string * option error :=
  json_Marshal t.

(** [func (t *T) UnmarshalJSON(data []byte) error] *)
Definition UnmarshalJSON (data : string) (t : string) : string * option error :=
  let '(s, err) := json_Unmarshal data in
  match err with
  | Some err => (t, Some err)
  | None =>
    let '(found, err) := Main.Parse Ts s in
    match err with
    | Some err => (t, Some err)
    | None => (found, None)
    end
  end.

(** [func (t T) MarshalYAML() (interface{}, error)] *)
Definition MarshalYAML (t : string) : any * option error :=
  (anyString t, None).

(** [func (t *T) UnmarshalYAML(unmarshal func(interface{}) error) error] *)
Definition UnmarshalYAML (unmarshal : string -> string * option error)
    (t : string) : string * option error :=
  let '(s, err) := unmarshal "" in
  match err with
  | Some err => (t, Some err)
  | None =>
    let '(found, err) := Main.Parse Ts s in
    match err with
    | Some err => (t, Some err)
    | None => (found, None)
    end
  end.

(** [func (t T) Value() (driver.Value, error)] *)
Definition Value (t : string) : any * option error := (anyString t, None).

(** [func (t *T) Scan(value interface{}) error] *)
Definition Scan (value : any) (t : string) : string * option error :=
  if isNil value then (t, Some (Main.errf Ts value []))
  else
    let '(dv, err) := String_ConvertValue value in
    match err with
    | Some err => (t, Some err)
    | None =>
      match dv with
      | anyString s =>
        let '(found, err) := Main.Parse Ts s in
        match err with
        | Some err => (t, Some err)
        | None => (found, None)
        end
      | _ => (t, Some (Main.errf Ts value []))
      end
    end.
End Methods.

End MainMethods.

(** ** The rest of the tool of src/cmd/enumer/main.go: arguments and output

    What [processArgs] calls besides [os.Stat]. *)
Class Shell := {
  filepath_Abs : string -> string * option error;
  stringer_EndsWith : string -> string -> bool
}.

(** The files the tool writes: a state [FS] of the file system and the
    operations of [os] and [pather] on it. *)
Class Disk := {
  FS : Type;
  pather_Join : string -> string -> string;
  Paths_Exists : FS -> string -> bool;
  Paths_RemoveErr : FS -> string -> FS * option error;
  Dirs_EnsureErr : FS -> string -> FS * option error;
  os_MkdirAll : FS -> string -> nat -> FS * option error;
  os_WriteFile : FS -> string -> string -> nat -> FS * option error
}.

(** The texts the tool writes: the embedded [settings.json], the result of
    [generateJsonSchema()] and, for a resolved definition, the source
    [processTemplate] returns (always with a nil error). *)
Class Texts := {
  vscodeSettingsContext : string;
  generateJsonSchema : string;
  processTemplate : enumer.EnumData -> string
}.

Module Tool.
Import enumer Generator.

(** [FilePermissions = 0644] *)
Definition FilePermissions : nat := 420.

Definition jsonSchemaName : string := "enum.schema.json".
Definition vscodeSettingsName : string := "settings.json".

(** [path.IsAbs]: the path starts with a slash. *)
Definition path_IsAbs (p : string) : bool :=
  match p with
  | String c _ => Ascii.eqb c "/"%char
  | EmptyString => false
  end.

(** What [flag.Parse] leaves in the four variables the flags are bound to:
    the values of the command line, or the defaults (empty, false). *)
Record commandLine := {
  flag_config : string;
  flag_skip_format : bool;
  flag_debug : bool;
  flag_vscode : string
}.

(** [var args argsData] *)
Definition zeroArgs : argsData :=
  {| args_InputPath := ""; args_SkipFormat := false; args_Debug := false;
     args_VsCode := ""; args_Serialize := ""; args_Overwrite := false |}.

Definition set_args_InputPath (x : string) (args : argsData) : argsData :=
  {| args_InputPath := x; args_SkipFormat := args_SkipFormat args;
     args_Debug := args_Debug args; args_VsCode := args_VsCode args;
     args_Serialize := args_Serialize args;
     args_Overwrite := args_Overwrite args |}.

Section Tool.
Context `{OS} `{Imports} `{Shell} `{Disk} `{Texts}.

(** [processArgs] *)
Definition processArgs (cl : commandLine) (args : argsData)
    : argsData * option error :=
  let args :=
    {| args_InputPath := flag_config cl;
       args_SkipFormat := flag_skip_format cl;
       args_Debug := flag_debug cl;
       args_VsCode := flag_vscode cl;
       args_Serialize := args_Serialize args;
       args_Overwrite := args_Overwrite args |} in
  if negb (String.eqb (args_VsCode args) "") then (args, None)
  else if String.eqb (args_InputPath args) "" then
    (args, Some (errorString "missing config path"))
  else
    let '(args, err) :=
      if negb (path_IsAbs (args_InputPath args)) then
        match filepath_Abs (args_InputPath args) with
        | (_, Some err) => (args, Some err)
        | (absPath, None) => (set_args_InputPath absPath args, None)
        end
      else (args, None) in
    match err with
    | Some err => (args, Some err)
    | None =>
      if negb (stringer_EndsWith (args_InputPath args) ".enum.yaml") then
        (args,
         Some (errorString (args_InputPath args
                            +:+ " must be a .enum.yaml file")))
      else
        match os_Stat (args_InputPath args) with
        | Some err =>
          (args,
           Some (wrapError ("invalid config path " +:+ args_InputPath args
                            +:+ ": " +:+ Error err) err))
        | None => (args, None)
        end
    end.

(** [processWrite]: the file system as it leaves it, and the error. *)
Definition processWrite (enum : EnumData) (bs : string) (fs : FS)
    : FS * option error :=
  let write (fs : FS) : FS * option error :=
    let dir := pather_Dir (OutputPath enum) in
    let '(fs, err) := os_MkdirAll fs dir FilePermissions in
    match err with
    | Some err => (fs, Some err)
    | None =>
      let '(fs, err) := Paths_RemoveErr fs (OutputPath enum) in
      match err with
      | Some err => (fs, Some err)
      | None => os_WriteFile fs (OutputPath enum) bs FilePermissions
      end
    end in
  if Paths_Exists fs (OutputPath enum) then
    if Overwrite enum then
      let '(fs, err) := Paths_RemoveErr fs (OutputPath enum) in
      match err with
      | Some err => (fs, Some err)
      | None => write fs
      end
    else (fs, None)
  else write fs.

(** [processJsonSchema]: the file system, what it prints and the error. *)
Definition processJsonSchema (args : argsData) (fs : FS)
    : FS * list string * option error :=
  let projectSettingsDir := pather_Join (args_VsCode args) ".vscode" in
  let '(fs, err) := Dirs_EnsureErr fs projectSettingsDir in
  match err with
  | Some err => (fs, [], Some err)
  | None =>
    let projectSettingsPath :=
      pather_Join projectSettingsDir vscodeSettingsName in
    let '(fs, out, err) :=
      if Paths_Exists fs projectSettingsPath then
        let name := "enumer-schema-" +:+ vscodeSettingsName in
        let projectSettingsPath := pather_Join projectSettingsDir name in
        let '(fs, err) :=
          os_WriteFile fs projectSettingsPath vscodeSettingsContext
            FilePermissions in
        match err with
        | Some err => (fs, [], Some err)
        | None =>
          (fs,
           ["Add the contents of the " +:+ name +:+ " file to your "
            +:+ vscodeSettingsName +:+ " file."],
           None)
        end
      else
        let '(fs, err) :=
          os_WriteFile fs projectSettingsPath vscodeSettingsContext
            FilePermissions in
        (fs, [], err) in
    match err with
    | Some err => (fs, out, Some err)
    | None =>
      let projectEnumsPath := pather_Join projectSettingsDir jsonSchemaName in
      let '(fs, err) :=
        os_WriteFile fs projectEnumsPath generateJsonSchema FilePermissions in
      (fs, out, err)
    end
  end.

(** [main], whole: the file system, what is printed and the exit status
    ([handleErr] prints the error and exits with status 1). *)
Definition main (cl : commandLine) (fs : FS) : FS * list string * nat :=
  match processArgs cl zeroArgs with
  | (_, Some err) => (fs, [Error err], 1)
  | (args, None) =>
    if negb (String.eqb (args_VsCode args) "") then
      match processJsonSchema args fs with
      | (fs, out, Some err) => (fs, (out ++ [Error err])%list, 1)
      | (fs, out, None) => (fs, out, 0)
      end
    else
      match run (Main.processEnum args) zeroEnum with
      | (_, Some err) => (fs, [Error err], 1)
      | (enum, None) =>
        let bs := processTemplate enum in
        match processWrite enum bs fs with
        | (fs, Some err) => (fs, [Error err], 1)
        | (fs, None) => (fs, [], 0)
        end
      end
  end.
End Tool.

End Tool.

(** ** Reference implementations for the rest of the tool *)

Module ReferenceIO.

(** The double quote, which JSON puts around a string. *)
Definition quote : string := String (ascii_of_nat 34) EmptyString.

Fixpoint dropLast (s : string) : string :=
  match s with
  | EmptyString => EmptyString
  | String c EmptyString => EmptyString
  | String c rest => String c (dropLast rest)
  end.

(** JSON of a string without characters to escape: the string between
    quotes. *)
Definition json : Json :=
  {| json_Marshal := fun s => (quote +:+ s +:+ quote, None);
     json_Unmarshal := fun data =>
       match data with
       | String c rest =>
         if Ascii.eqb c (ascii_of_nat 34) then (dropLast rest, None)
         else ("", Some (errorString "invalid character"))
       | EmptyString => ("", Some (errorString "unexpected end of JSON input"))
       end |}.

Fixpoint endsWith (s suffix : string) : bool :=
  String.eqb s suffix ||
  match s with
  | EmptyString => false
  | String _ rest => endsWith rest suffix
  end.

(** A shell whose working directory is [/work]. *)
Definition shell : Shell :=
  {| filepath_Abs := fun p => ("/work/" +:+ p, None);
     stringer_EndsWith := endsWith |}.

(** Files by path, with their content; directories are not kept. *)
Definition disk : Disk :=
  {| FS := gmap string string;
     pather_Join := fun a b => a +:+ "/" +:+ b;
     Paths_Exists := fun fs p =>
       match fs !! p with Some _ => true | None => false end;
     Paths_RemoveErr := fun fs p => (delete p fs, None);
     Dirs_EnsureErr := fun fs _ => (fs, None);
     os_MkdirAll := fun fs _ _ => (fs, None);
     os_WriteFile := fun fs p c _ => (<[p := c]> fs, None) |}.

Definition texts : Texts :=
  {| vscodeSettingsContext := "{}";
     generateJsonSchema := "{}";
     processTemplate := fun enum =>
       "package " +:+ enumer.Package enum +:+ LF
       +:+ "type " +:+ enumer.Type' enum +:+ " string" +:+ LF |}.

(** A document that sets its output, its header and a header-from file. *)
Definition licensed : enumer.EnumData :=
  {| enumer.InputPath := "elsewhere.enum.yaml";
     enumer.OutputPath := "/work/gen/status.go";
     enumer.Package := "";
     enumer.Type' := "Status";
     enumer.Struct := "";
     enumer.Values := [Reference.done; Reference.open];
     enumer.Header := "mine";
     enumer.HeaderFrom := "LICENSE";
     enumer.HeaderLines := [];
     enumer.SkipFormat := false;
     enumer.Debug := true;
     enumer.Overwrite := false;
     enumer.Serialize :=
       {| enumer.Serialize_Type := ""; enumer.Serialize_Value := "" |} |}.

(** A document that names a converter [caser.Converter] does not know. *)
Definition misconfigured : enumer.EnumData :=
  {| enumer.InputPath := "";
     enumer.OutputPath := "";
     enumer.Package := "";
     enumer.Type' := "Status";
     enumer.Struct := "";
     enumer.Values := [Reference.onlyName];
     enumer.Header := "";
     enumer.HeaderFrom := "";
     enumer.HeaderLines := [];
     enumer.SkipFormat := false;
     enumer.Debug := false;
     enumer.Overwrite := false;
     enumer.Serialize :=
       {| enumer.Serialize_Type := "shouting";
          enumer.Serialize_Value := "" |} |}.

(** A file system where the output of [licensed] is in place. *)
Definition generated : gmap string string :=
  <["/work/gen/status.go" := "package gen"]> ∅.

(** A command line that asks for the editor schema of a project. *)
Definition vscodeLine : Tool.commandLine :=
  {| Tool.flag_config := "";
     Tool.flag_skip_format := false;
     Tool.flag_debug := false;
     Tool.flag_vscode := "/proj" |}.

(** A command line that names the sample configuration. *)
Definition commandLine : Tool.commandLine :=
  {| Tool.flag_config := "status.enum.yaml";
     Tool.flag_skip_format := true;
     Tool.flag_debug := false;
     Tool.flag_vscode := "" |}.

End ReferenceIO.

(** ** A fragment of the Unicode case tables *)

Module ReferenceTables.
Import utf8.
Local Open Scope Z_scope.

(** A fragment of [unicode.CaseRanges]: the capital and the small e with
    acute (U+00C9, U+00E9), the capital I with dot above (U+0130) whose
    lower case is i, the dotless small i (U+0131) whose upper case is I,
    the long s (U+017F) whose upper case is S, and the Kelvin sign (U+212A)
    whose lower case is k; every other rune is left as it is. *)
Definition caseRanges : CaseRanges :=
  {| unicode_To := fun _case r =>
       match _case with
       | LowerCase =>
         if r =? 0xC9 then 0xE9
         else if r =? 0x130 then 0x69
         else if r =? 0x212A then 0x6B
         else r
       | _ =>
         if r =? 0xE9 then 0xC9
         else if r =? 0x131 then 0x49
         else if r =? 0x17F then 0x53
         else r
       end |}.

(** The word cafe with its last letter accented, in capitals and in small
    letters, and the Kelvin sign, in UTF-8. *)
Definition upperCafe : string := "CAF" +:+ bytes [0xC3; 0x89].
Definition lowerCafe : string := "caf" +:+ bytes [0xC3; 0xA9].
Definition kelvin : string := bytes [0xE2; 0x84; 0xAA].

End ReferenceTables.

(** * Theorems *)

Local Open Scope list_scope.

(** ** Case mapping of ASCII strings *)

Section CaseMapping.
Import GoStrings.

Ltac every_byte c :=
  destruct c as [[] [] [] [] [] [] [] []]; vm_compute; try reflexivity;
  try discriminate.

Lemma toLowerByte_not_upper c : isUpperByte (toLowerByte c) = false.
Proof. every_byte c. Qed.

Lemma toUpperByte_not_lower c : isLowerByte (toUpperByte c) = false.
Proof. every_byte c. Qed.

Lemma toLowerByte_fixed c :
  isLowerByte (toLowerByte c) = false -> toLowerByte c = c.
Proof. every_byte c. Qed.

Lemma toUpperByte_fixed c :
  isUpperByte (toUpperByte c) = false -> toUpperByte c = c.
Proof. every_byte c. Qed.

(** A byte that is at once a lower-cased and an upper-cased byte is no
    letter: both originals are that byte. *)
Lemma lower_meets_upper c d : toLowerByte c = toUpperByte d -> c = d.
Proof.
  intros E.
  assert (Hc : toLowerByte c = c).
  { apply toLowerByte_fixed. rewrite E. apply toUpperByte_not_lower. }
  assert (Hd : toUpperByte d = d).
  { apply toUpperByte_fixed. rewrite <- E. apply toLowerByte_not_upper. }
  congruence.
Qed.

Lemma mapBytes_lower_meets_upper a :
  forall b, mapBytes toLowerByte a = mapBytes toUpperByte b -> a = b.
Proof.
  induction a as [|c a IH]; intros [|d b] E; simpl in E;
    try discriminate; [reflexivity|].
  injection E as Ec Er.
  f_equal; [apply lower_meets_upper, Ec | apply IH, Er].
Qed.

Lemma mapBytes_no_upper s :
  hasUpper s = false -> mapBytes toLowerByte s = s.
Proof.
  unfold hasUpper. induction s as [|c s IH]; simpl; [reflexivity|].
  intros E. apply orb_false_iff in E as [Ec Es].
  rewrite IH by exact Es. unfold toLowerByte. rewrite Ec. reflexivity.
Qed.

Lemma mapBytes_no_lower s :
  hasLower s = false -> mapBytes toUpperByte s = s.
Proof.
  unfold hasLower. induction s as [|c s IH]; simpl; [reflexivity|].
  intros E. apply orb_false_iff in E as [Ec Es].
  rewrite IH by exact Es. unfold toUpperByte. rewrite Ec. reflexivity.
Qed.

Context `{Unicode}.

(** On ASCII strings [ToLower] and [ToUpper] are the byte-wise maps. *)
Lemma ToLower_ascii s : isASCII s = true -> ToLower s = mapBytes toLowerByte s.
Proof.
  intros E. unfold ToLower. rewrite E.
  destruct (hasUpper s) eqn:U; [reflexivity|].
  symmetry. apply mapBytes_no_upper, U.
Qed.

Lemma ToUpper_ascii s : isASCII s = true -> ToUpper s = mapBytes toUpperByte s.
Proof.
  intros E. unfold ToUpper. rewrite E.
  destruct (hasLower s) eqn:U; [reflexivity|].
  symmetry. apply mapBytes_no_lower, U.
Qed.

(** [IsEq] is the disjunction of its three comparisons. *)
Lemma IsEq_true a b :
  enumer.IsEq a b = true <->
  a = b \/ ToLower a = ToLower b \/ ToLower a = ToUpper b.
Proof.
  unfold enumer.IsEq. rewrite !orb_true_iff, !String.eqb_eq. tauto.
Qed.

(** Equal lower-cased forms are enough for [IsEq], whatever the strings. *)
Lemma IsEq_lower a b : ToLower a = ToLower b -> enumer.IsEq a b = true.
Proof. intros E. apply IsEq_true. auto. Qed.

Lemma IsEq_refl a : enumer.IsEq a a = true.
Proof. apply IsEq_true. auto. Qed.

(** On ASCII strings the third comparison forces equality, so [IsEq] is
    equality or equality of the lower-cased forms. *)
Lemma IsEq_ascii a b :
  isASCII a = true -> isASCII b = true ->
  (enumer.IsEq a b = true <-> a = b \/ ToLower a = ToLower b).
Proof.
  intros Ha Hb. rewrite IsEq_true. split.
  - intros [E | [E | E]]; auto.
    left. rewrite (ToLower_ascii a Ha), (ToUpper_ascii b Hb) in E.
    apply mapBytes_lower_meets_upper, E.
  - intros [E | E]; auto.
Qed.

(** X22: for ASCII strings [a] and [b], whatever the Unicode tables are,
    [IsEq a b] holds exactly when [a] equals [b] or their lower-cased forms
    are equal: the third comparison, of the lower-cased [a] with the
    upper-cased [b], adds no match, since [upper] is computed with
    [ToLower]. *)
Theorem IsEq_exact_or_lowercase_ascii a b :
  isASCII a = true -> isASCII b = true ->
  (enumer.IsEq a b = true <-> a = b \/ ToLower a = ToLower b).
Proof.
  intros Ha Hb. split.
  - intros E. apply IsEq_true in E as [E | [E | E]]; auto.
    left. rewrite (ToLower_ascii a Ha), (ToUpper_ascii b Hb) in E.
    apply mapBytes_lower_meets_upper, E.
  - intros [-> | E]; [apply IsEq_refl | apply IsEq_lower, E].
Qed.
End CaseMapping.

Lemma IsEq_exact_or_lowercase_ascii_sample :
  GoStrings.isASCII "In-Progress" = true /\
  GoStrings.isASCII "IN-PROGRESS" = true /\
  (@enumer.IsEq Reference.unicode "In-Progress" "IN-PROGRESS" = true <->
   "In-Progress" = "IN-PROGRESS" \/
   @GoStrings.ToLower Reference.unicode "In-Progress"
   = @GoStrings.ToLower Reference.unicode "IN-PROGRESS").
Proof.
  split; [reflexivity|]. split; [reflexivity|].
  apply (@IsEq_exact_or_lowercase_ascii Reference.unicode); reflexivity.
Defined.

(** ** UTF-8 and [strings.Map]

    The coding of runes, the loop over the runes of a string and the two
    loops of [strings.Map], up to what [strings.ToLower] and
    [strings.ToUpper] return on any string. *)

Section Utf8.
Import utf8 GoStrings GoStringsMap.
Local Open Scope Z_scope.

Ltac constants :=
  unfold RuneError, RuneSelf, MaxRune, surrogateMin, surrogateMax,
    rune1Max, rune2Max, rune3Max, locb, hicb in *.

(** Settles the comparisons of the goal that the hypotheses decide. *)
Ltac settle :=
  repeat match goal with
  | |- context [?x <=? ?y] =>
    first [rewrite (proj2 (Z.leb_le x y)) by lia
          | rewrite (proj2 (Z.leb_gt x y)) by lia]
  | |- context [?x <? ?y] =>
    first [rewrite (proj2 (Z.ltb_lt x y)) by lia
          | rewrite (proj2 (Z.ltb_ge x y)) by lia]
  | |- context [?x =? ?y] =>
    first [rewrite (proj2 (Z.eqb_eq x y)) by lia
          | rewrite (proj2 (Z.eqb_neq x y)) by lia]
  end.

Ltac first_is :=
  unfold first; constants; settle;
  repeat match goal with
  | |- context [if ?b then _ else _] => destruct b
  end; reflexivity.

(** *** The bit operations as arithmetic *)

Lemma land_shifted_low a b n :
  0 <= n -> 0 <= b < 2 ^ n -> Z.land (a * 2 ^ n) b = 0.
Proof.
  intros Hn Hb. apply Z.bits_inj'. intros i Hi.
  rewrite Z.land_spec, Z.bits_0.
  destruct (Z.lt_ge_cases i n) as [L | G].
  - rewrite Z.mul_pow2_bits_low by lia. reflexivity.
  - rewrite <- (Z.mod_small b (2 ^ n)) by lia.
    rewrite Z.mod_pow2_bits_high by lia. apply andb_false_r.
Qed.

(** Bits put under a shifted value add up. *)
Lemma lor_shifted a b n :
  0 <= n -> 0 <= b < 2 ^ n -> Z.lor (a * 2 ^ n) b = a * 2 ^ n + b.
Proof.
  intros Hn Hb. pose proof (Z.add_lor_land (a * 2 ^ n) b) as E.
  rewrite (land_shifted_low a b n Hn Hb) in E. lia.
Qed.

Lemma land_maskx x : Z.land x 63 = x mod 64.
Proof. exact (Z.land_ones x 6 ltac:(lia)). Qed.

Lemma land_mask2 x : Z.land x 31 = x mod 32.
Proof. exact (Z.land_ones x 5 ltac:(lia)). Qed.

Lemma land_mask3 x : Z.land x 15 = x mod 16.
Proof. exact (Z.land_ones x 4 ltac:(lia)). Qed.

Lemma land_mask4 x : Z.land x 7 = x mod 8.
Proof. exact (Z.land_ones x 3 ltac:(lia)). Qed.

Lemma shiftl_6 x : Z.shiftl x 6 = x * 64.
Proof. exact (Z.shiftl_mul_pow2 x 6 ltac:(lia)). Qed.

Lemma shiftl_12 x : Z.shiftl x 12 = x * 4096.
Proof. exact (Z.shiftl_mul_pow2 x 12 ltac:(lia)). Qed.

Lemma shiftl_18 x : Z.shiftl x 18 = x * 262144.
Proof. exact (Z.shiftl_mul_pow2 x 18 ltac:(lia)). Qed.

Lemma shiftr_6 x : Z.shiftr x 6 = x / 64.
Proof. exact (Z.shiftr_div_pow2 x 6 ltac:(lia)). Qed.

Lemma shiftr_12 x : Z.shiftr x 12 = x / 4096.
Proof. exact (Z.shiftr_div_pow2 x 12 ltac:(lia)). Qed.

Lemma shiftr_18 x : Z.shiftr x 18 = x / 262144.
Proof. exact (Z.shiftr_div_pow2 x 18 ltac:(lia)). Qed.

Lemma lor_scaled a b n k :
  0 <= n -> k = 2 ^ n -> 0 <= b < k -> Z.lor (a * k) b = a * k + b.
Proof. intros Hn -> Hb. apply lor_shifted; assumption. Qed.

(** The rune of two, three and four bytes, as [DecodeRuneInString] puts it
    together. *)
Lemma rune_of_2 s0 s1 :
  Z.lor (Z.shiftl (Z.land s0 utf8.mask2) 6) (Z.land s1 utf8.maskx)
  = s0 mod 32 * 64 + s1 mod 64.
Proof.
  unfold utf8.mask2, utf8.maskx.
  rewrite land_mask2, land_maskx, shiftl_6.
  apply (lor_scaled _ _ 6); [lia | reflexivity |].
  apply Z.mod_pos_bound. lia.
Qed.

Lemma rune_of_3 s0 s1 s2 :
  Z.lor (Z.lor (Z.shiftl (Z.land s0 utf8.mask3) 12)
               (Z.shiftl (Z.land s1 utf8.maskx) 6))
        (Z.land s2 utf8.maskx)
  = s0 mod 16 * 4096 + s1 mod 64 * 64 + s2 mod 64.
Proof.
  unfold utf8.mask3, utf8.maskx.
  rewrite land_mask3, !land_maskx, shiftl_6, shiftl_12.
  pose proof (Z.mod_pos_bound s1 64 ltac:(lia)).
  pose proof (Z.mod_pos_bound s2 64 ltac:(lia)).
  rewrite (lor_scaled (s0 mod 16) (s1 mod 64 * 64) 12 4096) by lia.
  replace (s0 mod 16 * 4096 + s1 mod 64 * 64)
    with ((s0 mod 16 * 64 + s1 mod 64) * 64) by lia.
  rewrite (lor_scaled _ (s2 mod 64) 6 64) by lia. lia.
Qed.

Lemma rune_of_4 s0 s1 s2 s3 :
  Z.lor (Z.lor (Z.lor (Z.shiftl (Z.land s0 utf8.mask4) 18)
                      (Z.shiftl (Z.land s1 utf8.maskx) 12))
               (Z.shiftl (Z.land s2 utf8.maskx) 6))
        (Z.land s3 utf8.maskx)
  = s0 mod 8 * 262144 + s1 mod 64 * 4096 + s2 mod 64 * 64 + s3 mod 64.
Proof.
  unfold utf8.mask4, utf8.maskx.
  rewrite land_mask4, !land_maskx, shiftl_6, shiftl_12, shiftl_18.
  pose proof (Z.mod_pos_bound s1 64 ltac:(lia)).
  pose proof (Z.mod_pos_bound s2 64 ltac:(lia)).
  pose proof (Z.mod_pos_bound s3 64 ltac:(lia)).
  rewrite (lor_scaled (s0 mod 8) (s1 mod 64 * 4096) 18 262144) by lia.
  replace (s0 mod 8 * 262144 + s1 mod 64 * 4096)
    with ((s0 mod 8 * 64 + s1 mod 64) * 4096) by lia.
  rewrite (lor_scaled _ (s2 mod 64 * 64) 12 4096) by lia.
  replace ((s0 mod 8 * 64 + s1 mod 64) * 4096 + s2 mod 64 * 64)
    with (((s0 mod 8 * 64 + s1 mod 64) * 64 + s2 mod 64) * 64) by lia.
  rewrite (lor_scaled _ (s3 mod 64) 6 64) by lia. lia.
Qed.

(** A continuation byte, [tx | x & maskx]. *)
Lemma continuation x :
  Z.lor utf8.tx (Z.land (utf8.byte x) utf8.maskx) = 128 + x mod 64.
Proof.
  unfold utf8.tx, utf8.maskx, utf8.byte. rewrite land_maskx.
  pose proof (Z.mod_pos_bound (x mod 256) 64 ltac:(lia)).
  change 128 with (2 * 64) at 1.
  rewrite (lor_scaled 2 _ 6 64) by lia.
  assert ((x mod 256) mod 64 = x mod 64) by (Z.div_mod_to_equations; lia).
  lia.
Qed.

(** The leading bytes, [t2 | x], [t3 | x] and [t4 | x]. *)
Lemma leading_2 x : 0 <= x < 32 -> Z.lor utf8.t2 (utf8.byte x) = 192 + x.
Proof.
  intros Hx. unfold utf8.t2, utf8.byte. rewrite Z.mod_small by lia.
  change 192 with (3 * 64) at 1. rewrite (lor_scaled 3 x 6 64) by lia. lia.
Qed.

Lemma leading_3 x : 0 <= x < 16 -> Z.lor utf8.t3 (utf8.byte x) = 224 + x.
Proof.
  intros Hx. unfold utf8.t3, utf8.byte. rewrite Z.mod_small by lia.
  change 224 with (14 * 16) at 1. rewrite (lor_scaled 14 x 4 16) by lia. lia.
Qed.

Lemma leading_4 x : 0 <= x < 8 -> Z.lor utf8.t4 (utf8.byte x) = 240 + x.
Proof.
  intros Hx. unfold utf8.t4, utf8.byte. rewrite Z.mod_small by lia.
  change 240 with (30 * 8) at 1. rewrite (lor_scaled 30 x 3 8) by lia. lia.
Qed.

(** *** Coding and decoding *)

Lemma value_bound c : 0 <= value c < 256.
Proof.
  unfold value. pose proof (nat_ascii_bounded c). lia.
Qed.

Lemma char_value c : char (value c) = c.
Proof.
  unfold char, value. rewrite Nat2Z.id. apply ascii_nat_embedding.
Qed.

Lemma value_char z : 0 <= z < 256 -> value (char z) = z.
Proof.
  intros Hz. unfold char, value.
  rewrite nat_ascii_embedding by lia. lia.
Qed.

Lemma AppendRune_coding p r : AppendRune p r = p +:+ coding r.
Proof.
  unfold coding, AppendRune.
  repeat match goal with
  | |- context [if ?b then _ else _] => destruct b
  end; reflexivity.
Qed.

Lemma coding_1 r : 0 <= r <= 127 -> coding r = bytes [r].
Proof.
  intros Hr. unfold coding, AppendRune. constants.
  rewrite (Z.mod_small r (2 ^ 32)) by lia. settle.
  unfold byte. rewrite Z.mod_small by lia. reflexivity.
Qed.

Lemma coding_2 r :
  128 <= r <= 2047 -> coding r = bytes [192 + r / 64; 128 + r mod 64].
Proof.
  intros Hr. unfold coding, AppendRune. constants.
  rewrite (Z.mod_small r (2 ^ 32)) by lia. settle.
  rewrite continuation, shiftr_6, leading_2
    by (Z.div_mod_to_equations; lia).
  reflexivity.
Qed.

Lemma coding_3 r :
  2048 <= r <= 65535 -> ~ 55296 <= r <= 57343 ->
  coding r = bytes [224 + r / 4096; 128 + r / 64 mod 64; 128 + r mod 64].
Proof.
  intros Hr Hs. unfold coding, AppendRune. constants.
  rewrite (Z.mod_small r (2 ^ 32)) by lia.
  assert (C : (1114111 <? r) || (55296 <=? r) && (r <=? 57343) = false).
  { apply orb_false_iff. split; [apply Z.ltb_ge; lia|].
    apply andb_false_iff.
    destruct (Z.le_gt_cases 55296 r);
      [right; apply Z.leb_gt | left; apply Z.leb_gt]; lia. }
  rewrite C. settle. unfold threeBytes.
  rewrite !continuation, shiftr_6, shiftr_12, leading_3
    by (Z.div_mod_to_equations; lia).
  reflexivity.
Qed.

Lemma coding_4 r :
  65536 <= r <= 1114111 ->
  coding r = bytes [240 + r / 262144; 128 + r / 4096 mod 64;
                    128 + r / 64 mod 64; 128 + r mod 64].
Proof.
  intros Hr. unfold coding, AppendRune. constants.
  rewrite (Z.mod_small r (2 ^ 32)) by lia. settle. cbn [orb andb].
  rewrite !continuation, shiftr_6, shiftr_12, shiftr_18, leading_4
    by (Z.div_mod_to_equations; lia).
  reflexivity.
Qed.

Lemma ValidRune_range r :
  ValidRune r = true <-> 0 <= r <= 1114111 /\ ~ 55296 <= r <= 57343.
Proof.
  unfold ValidRune. constants.
  destruct (Z.leb_spec 0 r), (Z.ltb_spec r 55296), (Z.ltb_spec 57343 r),
    (Z.leb_spec r 1114111); cbn; split; try discriminate; try lia;
    intros; reflexivity.
Qed.

(** The sizes of a valid rune: one to four bytes, as [RuneLen] says. *)
Lemma coding_length r :
  ValidRune r = true ->
  RuneLen r = Z.of_nat (String.length (coding r))
  /\ (1 <= String.length (coding r))%nat.
Proof.
  intros V. apply ValidRune_range in V as [Hr Hs].
  unfold RuneLen. constants.
  destruct (Z.le_gt_cases r 127);
    [rewrite coding_1 by lia; settle; cbn; lia|].
  destruct (Z.le_gt_cases r 2047);
    [rewrite coding_2 by lia; settle; cbn; lia|].
  destruct (Z.le_gt_cases r 65535).
  - rewrite coding_3 by lia. settle.
    assert (C : (55296 <=? r) && (r <=? 57343) = false).
    { apply andb_false_iff.
      destruct (Z.le_gt_cases 55296 r);
        [right; apply Z.leb_gt | left; apply Z.leb_gt]; lia. }
    rewrite C. cbn. lia.
  - rewrite coding_4 by lia. settle. cbn. lia.
Qed.

(** The table [first], read by ranges. *)
Lemma first_cases b :
  (b < 128 /\ first b = as_)
  \/ first b = xx
  \/ (194 <= b <= 223 /\ first b = lead 2 128 191)
  \/ (b = 224 /\ first b = lead 3 160 191)
  \/ (225 <= b <= 239 /\ b <> 237 /\ first b = lead 3 128 191)
  \/ (b = 237 /\ first b = lead 3 128 159)
  \/ (b = 240 /\ first b = lead 4 144 191)
  \/ (241 <= b <= 243 /\ first b = lead 4 128 191)
  \/ (b = 244 /\ first b = lead 4 128 143).
Proof.
  unfold first. constants.
  repeat match goal with
  | |- context [?x <? ?y] => destruct (Z.ltb_spec x y)
  | |- context [?x =? ?y] => destruct (Z.eqb_spec x y)
  end; intuition lia.
Qed.

(** [DecodeRuneInString] on a leading byte, by the size it announces. *)
Lemma Decode_as c0 rest :
  first (value c0) = as_ ->
  DecodeRuneInString (String c0 rest) = (value c0, 1%nat).
Proof. intros F. unfold DecodeRuneInString. cbn. rewrite F. reflexivity. Qed.

Lemma Decode_xx c0 rest :
  first (value c0) = xx ->
  DecodeRuneInString (String c0 rest) = (RuneError, 1%nat).
Proof. intros F. unfold DecodeRuneInString. cbn. rewrite F. reflexivity. Qed.

Lemma Decode_short c0 sz lo hi :
  first (value c0) = lead (S (S sz)) lo hi ->
  DecodeRuneInString (String c0 "") = (RuneError, 1%nat).
Proof. intros F. unfold DecodeRuneInString. cbn. rewrite F. reflexivity. Qed.

Lemma Decode_2 c0 c1 rest lo hi :
  first (value c0) = lead 2 lo hi ->
  DecodeRuneInString (String c0 (String c1 rest))
  = if (value c1 <? lo) || (hi <? value c1) then (RuneError, 1%nat)
    else (value c0 mod 32 * 64 + value c1 mod 64, 2%nat).
Proof.
  intros F. unfold DecodeRuneInString. cbn. rewrite F. cbn.
  rewrite rune_of_2. reflexivity.
Qed.

Lemma Decode_3_short c0 c1 lo hi :
  first (value c0) = lead 3 lo hi ->
  DecodeRuneInString (String c0 (String c1 "")) = (RuneError, 1%nat).
Proof. intros F. unfold DecodeRuneInString. cbn. rewrite F. reflexivity. Qed.

Lemma Decode_3 c0 c1 c2 rest lo hi :
  first (value c0) = lead 3 lo hi ->
  DecodeRuneInString (String c0 (String c1 (String c2 rest)))
  = if (value c1 <? lo) || (hi <? value c1) then (RuneError, 1%nat)
    else if (value c2 <? 128) || (191 <? value c2) then (RuneError, 1%nat)
    else (value c0 mod 16 * 4096 + value c1 mod 64 * 64 + value c2 mod 64,
          3%nat).
Proof.
  intros F. unfold DecodeRuneInString. cbn. rewrite F. cbn.
  rewrite rune_of_3. reflexivity.
Qed.

Lemma Decode_4_short2 c0 c1 lo hi :
  first (value c0) = lead 4 lo hi ->
  DecodeRuneInString (String c0 (String c1 "")) = (RuneError, 1%nat).
Proof. intros F. unfold DecodeRuneInString. cbn. rewrite F. reflexivity. Qed.

Lemma Decode_4_short3 c0 c1 c2 lo hi :
  first (value c0) = lead 4 lo hi ->
  DecodeRuneInString (String c0 (String c1 (String c2 "")))
  = (RuneError, 1%nat).
Proof. intros F. unfold DecodeRuneInString. cbn. rewrite F. reflexivity. Qed.

Lemma Decode_4 c0 c1 c2 c3 rest lo hi :
  first (value c0) = lead 4 lo hi ->
  DecodeRuneInString (String c0 (String c1 (String c2 (String c3 rest))))
  = if (value c1 <? lo) || (hi <? value c1) then (RuneError, 1%nat)
    else if (value c2 <? 128) || (191 <? value c2) then (RuneError, 1%nat)
    else if (value c3 <? 128) || (191 <? value c3) then (RuneError, 1%nat)
    else (value c0 mod 8 * 262144 + value c1 mod 64 * 4096
          + value c2 mod 64 * 64 + value c3 mod 64, 4%nat).
Proof.
  intros F. unfold DecodeRuneInString. cbn. rewrite F. cbn.
  rewrite rune_of_4. reflexivity.
Qed.

Lemma bytes_values_1 c0 : bytes [value c0] = String c0 "".
Proof. cbn. rewrite char_value. reflexivity. Qed.

Lemma bytes_values_2 c0 c1 :
  bytes [value c0; value c1] = String c0 (String c1 "").
Proof. cbn. rewrite !char_value. reflexivity. Qed.

Lemma bytes_values_3 c0 c1 c2 :
  bytes [value c0; value c1; value c2] = String c0 (String c1 (String c2 "")).
Proof. cbn. rewrite !char_value. reflexivity. Qed.

Lemma bytes_values_4 c0 c1 c2 c3 :
  bytes [value c0; value c1; value c2; value c3]
  = String c0 (String c1 (String c2 (String c3 ""))).
Proof. cbn. rewrite !char_value. reflexivity. Qed.

(** Two bytes that [DecodeRuneInString] accepts are the coding of the rune
    it returns; so are three, and four. *)
Lemma accepted_2 c0 c1 :
  194 <= value c0 <= 223 -> 128 <= value c1 <= 191 ->
  let r := value c0 mod 32 * 64 + value c1 mod 64 in
  ValidRune r = true /\ coding r = String c0 (String c1 "").
Proof.
  intros H0 H1 r.
  assert (R : r = (value c0 - 192) * 64 + (value c1 - 128))
    by (subst r; Z.div_mod_to_equations; lia).
  split; [apply ValidRune_range; lia|].
  rewrite coding_2 by lia.
  replace (192 + r / 64) with (value c0) by (Z.div_mod_to_equations; lia).
  replace (128 + r mod 64) with (value c1) by (Z.div_mod_to_equations; lia).
  apply bytes_values_2.
Qed.

Lemma accepted_3 c0 c1 c2 :
  224 <= value c0 <= 239 -> 128 <= value c1 <= 191 ->
  128 <= value c2 <= 191 ->
  (value c0 = 224 -> 160 <= value c1) ->
  (value c0 = 237 -> value c1 <= 159) ->
  let r := value c0 mod 16 * 4096 + value c1 mod 64 * 64 + value c2 mod 64 in
  ValidRune r = true /\ coding r = String c0 (String c1 (String c2 "")).
Proof.
  intros H0 H1 H2 Hlo Hhi r.
  assert (R : r = (value c0 - 224) * 4096 + (value c1 - 128) * 64
                  + (value c2 - 128))
    by (subst r; Z.div_mod_to_equations; lia).
  assert (B : 2048 <= r <= 65535 /\ ~ 55296 <= r <= 57343) by lia.
  split; [apply ValidRune_range; lia|].
  rewrite coding_3 by lia.
  replace (224 + r / 4096) with (value c0) by (Z.div_mod_to_equations; lia).
  replace (128 + r / 64 mod 64) with (value c1)
    by (Z.div_mod_to_equations; lia).
  replace (128 + r mod 64) with (value c2) by (Z.div_mod_to_equations; lia).
  apply bytes_values_3.
Qed.

Lemma accepted_4 c0 c1 c2 c3 :
  240 <= value c0 <= 244 -> 128 <= value c1 <= 191 ->
  128 <= value c2 <= 191 -> 128 <= value c3 <= 191 ->
  (value c0 = 240 -> 144 <= value c1) ->
  (value c0 = 244 -> value c1 <= 143) ->
  let r := value c0 mod 8 * 262144 + value c1 mod 64 * 4096
           + value c2 mod 64 * 64 + value c3 mod 64 in
  ValidRune r = true
  /\ coding r = String c0 (String c1 (String c2 (String c3 ""))).
Proof.
  intros H0 H1 H2 H3 Hlo Hhi r.
  assert (R : r = (value c0 - 240) * 262144 + (value c1 - 128) * 4096
                  + (value c2 - 128) * 64 + (value c3 - 128))
    by (subst r; Z.div_mod_to_equations; lia).
  assert (B : 65536 <= r <= 1114111) by lia.
  split; [apply ValidRune_range; lia|].
  rewrite coding_4 by lia.
  replace (240 + r / 262144) with (value c0)
    by (Z.div_mod_to_equations; lia).
  replace (128 + r / 4096 mod 64) with (value c1)
    by (Z.div_mod_to_equations; lia).
  replace (128 + r / 64 mod 64) with (value c2)
    by (Z.div_mod_to_equations; lia).
  replace (128 + r mod 64) with (value c3) by (Z.div_mod_to_equations; lia).
  apply bytes_values_4.
Qed.

(** What [DecodeRuneInString] returns on a string that is not empty: either
    [(RuneError, 1)], or a valid rune with the length of its coding, and
    then the string starts with that coding. *)
Lemma Decode_cases c0 rest :
  DecodeRuneInString (String c0 rest) = (RuneError, 1%nat)
  \/ exists r tail,
       ValidRune r = true
       /\ DecodeRuneInString (String c0 rest)
          = (r, String.length (coding r))
       /\ String c0 rest = coding r +:+ tail
       /\ from (String.length (coding r)) (String c0 rest) = tail.
Proof.
  pose proof (value_bound c0) as B0.
  destruct (first_cases (value c0))
    as [[H F]|[F|[[H F]|[[H F]|[(H & H' & F)|[[H F]|[[H F]|[[H F]|[H F]]]]]]]]].
  - right. exists (value c0), rest.
    rewrite (Decode_as _ _ F), coding_1, bytes_values_1 by lia.
    repeat split. apply ValidRune_range. lia.
  - left. apply Decode_xx, F.
  - destruct rest as [|c1 rest]; [left; apply (Decode_short _ _ _ _ F)|].
    rewrite (Decode_2 _ _ _ _ _ F).
    destruct (Z.ltb_spec (value c1) 128); [left; reflexivity|].
    destruct (Z.ltb_spec 191 (value c1)); [left; reflexivity|].
    right. cbn [orb].
    destruct (accepted_2 c0 c1) as [V C]; [lia | lia |].
    eexists _, rest. rewrite C. repeat split. exact V.
  - destruct rest as [|c1 [|c2 rest]];
      [left; apply (Decode_short _ _ _ _ F)
      |left; apply (Decode_3_short _ _ _ _ F)|].
    rewrite (Decode_3 _ _ _ _ _ _ F).
    destruct (Z.ltb_spec (value c1) 160); [left; reflexivity|].
    destruct (Z.ltb_spec 191 (value c1)); [left; reflexivity|].
    destruct (Z.ltb_spec (value c2) 128); [left; reflexivity|].
    destruct (Z.ltb_spec 191 (value c2)); [left; reflexivity|].
    right. cbn [orb].
    destruct (accepted_3 c0 c1 c2) as [V C]; try lia.
    eexists _, rest. rewrite C. repeat split. exact V.
  - destruct rest as [|c1 [|c2 rest]];
      [left; apply (Decode_short _ _ _ _ F)
      |left; apply (Decode_3_short _ _ _ _ F)|].
    rewrite (Decode_3 _ _ _ _ _ _ F).
    destruct (Z.ltb_spec (value c1) 128); [left; reflexivity|].
    destruct (Z.ltb_spec 191 (value c1)); [left; reflexivity|].
    destruct (Z.ltb_spec (value c2) 128); [left; reflexivity|].
    destruct (Z.ltb_spec 191 (value c2)); [left; reflexivity|].
    right. cbn [orb].
    destruct (accepted_3 c0 c1 c2) as [V C]; try lia.
    eexists _, rest. rewrite C. repeat split. exact V.
  - destruct rest as [|c1 [|c2 rest]];
      [left; apply (Decode_short _ _ _ _ F)
      |left; apply (Decode_3_short _ _ _ _ F)|].
    rewrite (Decode_3 _ _ _ _ _ _ F).
    destruct (Z.ltb_spec (value c1) 128); [left; reflexivity|].
    destruct (Z.ltb_spec 159 (value c1)); [left; reflexivity|].
    destruct (Z.ltb_spec (value c2) 128); [left; reflexivity|].
    destruct (Z.ltb_spec 191 (value c2)); [left; reflexivity|].
    right. cbn [orb].
    destruct (accepted_3 c0 c1 c2) as [V C]; try lia.
    eexists _, rest. rewrite C. repeat split. exact V.
  - destruct rest as [|c1 [|c2 [|c3 rest]]];
      [left; apply (Decode_short _ _ _ _ F)
      |left; apply (Decode_4_short2 _ _ _ _ F)
      |left; apply (Decode_4_short3 _ _ _ _ _ F)|].
    rewrite (Decode_4 _ _ _ _ _ _ _ F).
    destruct (Z.ltb_spec (value c1) 144); [left; reflexivity|].
    destruct (Z.ltb_spec 191 (value c1)); [left; reflexivity|].
    destruct (Z.ltb_spec (value c2) 128); [left; reflexivity|].
    destruct (Z.ltb_spec 191 (value c2)); [left; reflexivity|].
    destruct (Z.ltb_spec (value c3) 128); [left; reflexivity|].
    destruct (Z.ltb_spec 191 (value c3)); [left; reflexivity|].
    right. cbn [orb].
    destruct (accepted_4 c0 c1 c2 c3) as [V C]; try lia.
    eexists _, rest. rewrite C. repeat split. exact V.
  - destruct rest as [|c1 [|c2 [|c3 rest]]];
      [left; apply (Decode_short _ _ _ _ F)
      |left; apply (Decode_4_short2 _ _ _ _ F)
      |left; apply (Decode_4_short3 _ _ _ _ _ F)|].
    rewrite (Decode_4 _ _ _ _ _ _ _ F).
    destruct (Z.ltb_spec (value c1) 128); [left; reflexivity|].
    destruct (Z.ltb_spec 191 (value c1)); [left; reflexivity|].
    destruct (Z.ltb_spec (value c2) 128); [left; reflexivity|].
    destruct (Z.ltb_spec 191 (value c2)); [left; reflexivity|].
    destruct (Z.ltb_spec (value c3) 128); [left; reflexivity|].
    destruct (Z.ltb_spec 191 (value c3)); [left; reflexivity|].
    right. cbn [orb].
    destruct (accepted_4 c0 c1 c2 c3) as [V C]; try lia.
    eexists _, rest. rewrite C. repeat split. exact V.
  - destruct rest as [|c1 [|c2 [|c3 rest]]];
      [left; apply (Decode_short _ _ _ _ F)
      |left; apply (Decode_4_short2 _ _ _ _ F)
      |left; apply (Decode_4_short3 _ _ _ _ _ F)|].
    rewrite (Decode_4 _ _ _ _ _ _ _ F).
    destruct (Z.ltb_spec (value c1) 128); [left; reflexivity|].
    destruct (Z.ltb_spec 143 (value c1)); [left; reflexivity|].
    destruct (Z.ltb_spec (value c2) 128); [left; reflexivity|].
    destruct (Z.ltb_spec 191 (value c2)); [left; reflexivity|].
    destruct (Z.ltb_spec (value c3) 128); [left; reflexivity|].
    destruct (Z.ltb_spec 191 (value c3)); [left; reflexivity|].
    right. cbn [orb].
    destruct (accepted_4 c0 c1 c2 c3) as [V C]; try lia.
    eexists _, rest. rewrite C. repeat split. exact V.
Qed.

Lemma bytes_then l rest :
  bytes l +:+ rest = fold_right (fun z s => String (char z) s) rest l.
Proof. induction l as [|z l IH]; [reflexivity|]. cbn. now rewrite <- IH. Qed.

(** [DecodeRuneInString] reads back the coding of a valid rune, whatever
    follows it. *)
Lemma Decode_coding r rest :
  ValidRune r = true ->
  DecodeRuneInString (coding r +:+ rest) = (r, String.length (coding r)).
Proof.
  intros V. apply ValidRune_range in V as [Hr Hs].
  destruct (Z.le_gt_cases r 127) as [L1|G1].
  { rewrite coding_1 by lia. rewrite bytes_then. cbn [fold_right].
    rewrite Decode_as; rewrite value_char by lia;
      [reflexivity | first_is]. }
  destruct (Z.le_gt_cases r 2047) as [L2|G2].
  { rewrite coding_2 by lia. rewrite bytes_then. cbn [fold_right].
    assert (B0 : 194 <= 192 + r / 64 <= 223)
      by (Z.div_mod_to_equations; lia).
    assert (B1 : 128 <= 128 + r mod 64 <= 191)
      by (Z.div_mod_to_equations; lia).
    rewrite (Decode_2 _ _ _ 128 191);
      rewrite !value_char by lia; [|first_is].
    settle. cbn [orb]. f_equal. Z.div_mod_to_equations. lia. }
  destruct (Z.le_gt_cases r 65535) as [L3|G3].
  { rewrite coding_3 by lia. rewrite bytes_then. cbn [fold_right].
    assert (B0 : 224 <= 224 + r / 4096 <= 239)
      by (Z.div_mod_to_equations; lia).
    assert (B1 : 128 <= 128 + r / 64 mod 64 <= 191)
      by (Z.div_mod_to_equations; lia).
    assert (B2 : 128 <= 128 + r mod 64 <= 191)
      by (Z.div_mod_to_equations; lia).
    assert (E : (224 + r / 4096) mod 16 * 4096
                + (128 + r / 64 mod 64) mod 64 * 64
                + (128 + r mod 64) mod 64 = r)
      by (Z.div_mod_to_equations; lia).
    destruct (Z.eq_dec (r / 4096) 0) as [Z0|N0].
    - assert (160 <= 128 + r / 64 mod 64)
        by (Z.div_mod_to_equations; lia).
      rewrite (Decode_3 _ _ _ _ 160 191);
        rewrite !value_char by lia; [|first_is].
      settle. cbn [orb]. rewrite E. reflexivity.
    - destruct (Z.eq_dec (r / 4096) 13) as [Z13|N13].
      + assert (128 + r / 64 mod 64 <= 159)
          by (Z.div_mod_to_equations; lia).
        rewrite (Decode_3 _ _ _ _ 128 159);
          rewrite !value_char by lia; [|first_is].
        settle. cbn [orb]. rewrite E. reflexivity.
      + rewrite (Decode_3 _ _ _ _ 128 191);
          rewrite !value_char by lia; [|first_is].
        settle. cbn [orb]. rewrite E. reflexivity. }
  rewrite coding_4 by lia. rewrite bytes_then. cbn [fold_right].
  assert (B0 : 240 <= 240 + r / 262144 <= 244)
    by (Z.div_mod_to_equations; lia).
  assert (B1 : 128 <= 128 + r / 4096 mod 64 <= 191)
    by (Z.div_mod_to_equations; lia).
  assert (B2 : 128 <= 128 + r / 64 mod 64 <= 191)
    by (Z.div_mod_to_equations; lia).
  assert (B3 : 128 <= 128 + r mod 64 <= 191)
    by (Z.div_mod_to_equations; lia).
  assert (E : (240 + r / 262144) mod 8 * 262144
              + (128 + r / 4096 mod 64) mod 64 * 4096
              + (128 + r / 64 mod 64) mod 64 * 64
              + (128 + r mod 64) mod 64 = r)
    by (Z.div_mod_to_equations; lia).
  destruct (Z.eq_dec (r / 262144) 0) as [Z0|N0].
  - assert (144 <= 128 + r / 4096 mod 64)
      by (Z.div_mod_to_equations; lia).
    rewrite (Decode_4 _ _ _ _ _ 144 191);
      rewrite !value_char by lia; [|first_is].
    settle. cbn [orb]. rewrite E. reflexivity.
  - destruct (Z.eq_dec (r / 262144) 4) as [Z4|N4].
    + assert (128 + r / 4096 mod 64 <= 143)
        by (Z.div_mod_to_equations; lia).
      rewrite (Decode_4 _ _ _ _ _ 128 143);
        rewrite !value_char by lia; [|first_is].
      settle. cbn [orb]. rewrite E. reflexivity.
    + rewrite (Decode_4 _ _ _ _ _ 128 191);
        rewrite !value_char by lia; [|first_is].
      settle. cbn [orb]. rewrite E. reflexivity.
Qed.

(** *** The loops over the runes *)

Lemma from_cons n c rest : from (S n) (String c rest) = from n rest.
Proof. reflexivity. Qed.

Lemma upto_length_then p tail : upto (String.length p) (p +:+ tail) = p.
Proof.
  induction p as [|c p IH]; [reflexivity|].
  change (String c p +:+ tail) with (String c (p +:+ tail)).
  cbn [String.length upto]. now rewrite IH.
Qed.

Lemma from_length_then p tail : from (String.length p) (p +:+ tail) = tail.
Proof. induction p as [|c p IH]; [reflexivity|]. exact IH. Qed.

(** Passing [k] bytes in the loop is starting the loop [k] bytes later. *)
Lemma rangeRunes_from s : forall k, rangeRunes k s = rangeRunes 0 (from k s).
Proof.
  induction s as [|c s IH]; intros [|k]; try reflexivity.
  cbn [rangeRunes from]. apply IH.
Qed.

(** The loop yields valid runes only. *)
Lemma rangeRunes_valid s :
  forall k, Forall (fun r => ValidRune r = true) (rangeRunes k s).
Proof.
  induction s as [|c s IH]; intros k; [constructor|].
  destruct k as [|k]; cbn [rangeRunes]; [|apply IH].
  destruct (Decode_cases c s) as [E | (r & tail & V & E & _)];
    rewrite E; constructor; try apply IH; [reflexivity | exact V].
Qed.

(** The loop reads a coding back. *)
Lemma rangeRunes_coding r rest :
  ValidRune r = true ->
  rangeRunes 0 (coding r +:+ rest) = r :: rangeRunes 0 rest.
Proof.
  intros V. pose proof (Decode_coding r rest V) as D.
  destruct (coding_length r V) as [_ L].
  destruct (coding r) as [|c p] eqn:C; [cbn in L; lia|].
  change (String c p +:+ rest) with (String c (p +:+ rest)) in *.
  cbn [rangeRunes]. rewrite D. f_equal.
  cbn [String.length]. rewrite Nat.sub_succ, Nat.sub_0_r.
  rewrite rangeRunes_from, from_length_then. reflexivity.
Qed.

Lemma rangeRunes_codings l :
  Forall (fun r => ValidRune r = true) l -> rangeRunes 0 (codings l) = l.
Proof.
  induction 1 as [|r l V _ IH]; [reflexivity|].
  cbn [codings fold_right]. rewrite rangeRunes_coding by exact V.
  f_equal. exact IH.
Qed.

Section MapLoops.
Variable mapping : rune -> rune.

Lemma append_assoc (a b c : string) : (a +:+ b) +:+ c = a +:+ (b +:+ c).
Proof.
  induction a as [|x a IH]; [reflexivity|].
  change (String x (((a +:+ b)) +:+ c) = String x (a +:+ (b +:+ c))).
  now rewrite IH.
Qed.

Lemma append_empty (a : string) : a +:+ "" = a.
Proof.
  induction a as [|x a IH]; [reflexivity|].
  change (String x (a +:+ "") = String x a). now rewrite IH.
Qed.

(** What either loop writes for a mapped rune that is not negative. *)
Lemma written_rune b r :
  0 <= r ->
  (if r <? RuneSelf then b +:+ bytes [byte r] else AppendRune b r)
  = b +:+ coding r.
Proof.
  intros Hr. unfold RuneSelf. destruct (Z.ltb_spec r 128).
  - rewrite coding_1 by lia. unfold byte.
    rewrite Z.mod_small by lia. reflexivity.
  - apply AppendRune_coding.
Qed.

(** The second loop appends the mapped runes. *)
Lemma Map_second_mapped rest : forall written,
  Map_second mapping written rest
  = written +:+ mapped mapping (rangeRunes 0 rest).
Proof.
  unfold Map_second. induction (rangeRunes 0 rest) as [|c l IH];
    intros written; cbn [fold_left mapped fold_right].
  - symmetry. apply append_empty.
  - rewrite IH. unfold put. destruct (Z.leb_spec 0 (mapping c)).
    + rewrite written_rune by assumption. apply append_assoc.
    + reflexivity.
Qed.

Lemma Map_after_enter b k s found :
  Map_first mapping k s = found ->
  match enter b found with
  | None => String b s
  | Some (written, rest) => Map_second mapping written rest
  end = String b (Map_after mapping k s).
Proof.
  intros <-. unfold Map_after.
  destruct (Map_first mapping k s) as [[written rest]|]; [|reflexivity].
  cbn [enter]. rewrite !Map_second_mapped. reflexivity.
Qed.

(** The two loops of [Map] together: the bytes passed stay, and from the
    next rune on every rune is mapped and coded. *)
Lemma Map_after_mapped s : forall k,
  Map_after mapping k s = upto k s +:+ mapped mapping (rangeRunes k s).
Proof.
  induction s as [|b s IH]; intros k.
  { destruct k; reflexivity. }
  destruct k as [|k].
  2:{ unfold Map_after. cbn [Map_first].
      rewrite (Map_after_enter b k s _ eq_refl), IH. reflexivity. }
  unfold Map_after. cbn [Map_first rangeRunes upto].
  change ("" +:+ ?x) with x.
  destruct (Decode_cases b s) as [E | (r & tail & V & E & Hs & Htail)];
    rewrite E.
  - (* an invalid byte *)
    rewrite Z.eqb_refl, Nat.eqb_refl, andb_false_r. cbn [andb negb].
    rewrite Map_second_mapped. cbn [mapped fold_right from Nat.sub].
    unfold put. rewrite (rangeRunes_from s 0). reflexivity.
  - destruct (coding_length r V) as [Hlen Hpos].
    set (n := String.length (coding r)) in *.
    assert (Hupto : String b (upto (n - 1) s) = coding r).
    { rewrite <- (upto_length_then (coding r) tail). fold n. rewrite <- Hs.
      destruct n as [|n]; [lia|]. cbn [upto].
      rewrite Nat.sub_succ, Nat.sub_0_r. reflexivity. }
    assert (Hrest : rangeRunes (n - 1) s = rangeRunes 0 (from n (String b s))).
    { rewrite rangeRunes_from. destruct n as [|n]; [lia|].
      cbn [from]. rewrite Nat.sub_succ, Nat.sub_0_r. reflexivity. }
    assert (Hput : mapping r = r -> put (mapping r) = coding r).
    { intros ->. unfold put. apply ValidRune_range in V.
      destruct (Z.leb_spec 0 r); [reflexivity | lia]. }
    assert (Hcontinue :
      mapping r = r ->
      match enter b (Map_first mapping (n - 1) s) with
      | None => String b s
      | Some (written, rest) => Map_second mapping written rest
      end = mapped mapping (r :: rangeRunes (n - 1) s)).
    { intros Hfix. rewrite (Map_after_enter b _ s _ eq_refl), IH.
      cbn [mapped fold_right]. rewrite (Hput Hfix), <- Hupto.
      reflexivity. }
    assert (Hbreak :
      Map_second mapping (if 0 <=? mapping r then AppendRune "" (mapping r)
                          else "") (from n (String b s))
      = mapped mapping (r :: rangeRunes (n - 1) s)).
    { rewrite Map_second_mapped, <- Hrest. reflexivity. }
    assert (Hwidth : Z.to_nat (RuneLen r) = n) by (rewrite Hlen; lia).
    destruct (Z.eqb_spec (mapping r) r) as [Hfix|Hmoved];
      destruct (Z.eqb_spec r RuneError) as [Herr|Hok]; cbn [andb negb].
    + destruct (Nat.eqb_spec n 1); cbn [negb andb];
        [exact Hbreak | exact (Hcontinue Hfix)].
    + exact (Hcontinue Hfix).
    + rewrite andb_false_r. exact Hbreak.
    + rewrite Hwidth. exact Hbreak.
Qed.

(** [Map] returns the coding of the mapped runes of its argument. *)
Lemma Map_mapped s : Map mapping s = mapped mapping (rangeRunes 0 s).
Proof. exact (Map_after_mapped s 0). Qed.

(** Where the mapping keeps runes valid, nothing is dropped. *)
Lemma mapped_codings l :
  Forall (fun r => ValidRune (mapping r) = true) l ->
  mapped mapping l = codings (map mapping l).
Proof.
  induction 1 as [|r l V _ IH]; [reflexivity|].
  cbn [mapped codings fold_right map]. fold (mapped mapping l).
  fold (codings (map mapping l)). rewrite IH. unfold put.
  apply ValidRune_range in V. destruct (Z.leb_spec 0 (mapping r));
    [reflexivity | lia].
Qed.

End MapLoops.

(** *** Case mapping over the Unicode tables *)

Section CaseTables.
Context (T : CaseRanges).

Lemma ToLower_value c :
  isASCIIByte c = true -> unicode.ToLower (value c) = value (toLowerByte c).
Proof.
  intros A. destruct c as [[] [] [] [] [] [] [] []];
    vm_compute in A |- *; congruence.
Qed.

Lemma ToUpper_value c :
  isASCIIByte c = true -> unicode.ToUpper (value c) = value (toUpperByte c).
Proof.
  intros A. destruct c as [[] [] [] [] [] [] [] []];
    vm_compute in A |- *; congruence.
Qed.

Lemma rangeRunes_ascii c s :
  isASCIIByte c = true ->
  rangeRunes 0 (String c s) = value c :: rangeRunes 0 s.
Proof.
  intros A. cbn [rangeRunes]. rewrite Decode_as; [reflexivity|].
  unfold first. replace (value c <? 128) with true; [reflexivity|].
  symmetry. apply Z.ltb_lt. unfold isASCIIByte in A.
  apply Nat.ltb_lt in A. unfold value. lia.
Qed.

Lemma put_ascii c : isASCIIByte c = true -> put (value c) = String c "".
Proof.
  intros A. pose proof (value_bound c) as B.
  assert (value c <= 127).
  { unfold isASCIIByte in A. apply Nat.ltb_lt in A. unfold value. lia. }
  unfold put. destruct (Z.leb_spec 0 (value c)); [|lia].
  rewrite coding_1 by lia. apply bytes_values_1.
Qed.

Lemma toLowerByte_isASCII c :
  isASCIIByte c = true -> isASCIIByte (toLowerByte c) = true.
Proof.
  intros A. destruct c as [[] [] [] [] [] [] [] []];
    vm_compute in A |- *; congruence.
Qed.

Lemma toUpperByte_isASCII c :
  isASCIIByte c = true -> isASCIIByte (toUpperByte c) = true.
Proof.
  intros A. destruct c as [[] [] [] [] [] [] [] []];
    vm_compute in A |- *; congruence.
Qed.

(** On an ASCII string the byte-wise path of [strings.ToLower] gives what
    [Map] would. *)
Lemma mapBytes_lower_mapped s :
  isASCII s = true ->
  mapBytes toLowerByte s = mapped unicode.ToLower (rangeRunes 0 s).
Proof.
  unfold isASCII. induction s as [|c s IH]; [reflexivity|].
  cbn [allBytes]. intros A. apply andb_true_iff in A as [Ac As].
  rewrite rangeRunes_ascii by exact Ac. cbn [mapBytes mapped fold_right].
  fold (mapped unicode.ToLower (rangeRunes 0 s)).
  rewrite <- IH by exact As.
  rewrite ToLower_value, put_ascii by auto using toLowerByte_isASCII.
  reflexivity.
Qed.

Lemma mapBytes_upper_mapped s :
  isASCII s = true ->
  mapBytes toUpperByte s = mapped unicode.ToUpper (rangeRunes 0 s).
Proof.
  unfold isASCII. induction s as [|c s IH]; [reflexivity|].
  cbn [allBytes]. intros A. apply andb_true_iff in A as [Ac As].
  rewrite rangeRunes_ascii by exact Ac. cbn [mapBytes mapped fold_right].
  fold (mapped unicode.ToUpper (rangeRunes 0 s)).
  rewrite <- IH by exact As.
  rewrite ToUpper_value, put_ascii by auto using toUpperByte_isASCII.
  reflexivity.
Qed.

(** [strings.ToLower] and [strings.ToUpper] over the tables, on every
    string: the coding of the mapped runes. *)
Lemma ToLower_mapped s :
  @ToLower (tables T) s = mapped unicode.ToLower (rangeRunes 0 s).
Proof.
  destruct (isASCII s) eqn:A.
  - rewrite (@ToLower_ascii (tables T)) by exact A.
    apply mapBytes_lower_mapped, A.
  - unfold ToLower. rewrite A. apply Map_mapped.
Qed.

Lemma ToUpper_mapped s :
  @ToUpper (tables T) s = mapped unicode.ToUpper (rangeRunes 0 s).
Proof.
  destruct (isASCII s) eqn:A.
  - rewrite (@ToUpper_ascii (tables T)) by exact A.
    apply mapBytes_upper_mapped, A.
  - unfold ToUpper. rewrite A. apply Map_mapped.
Qed.

(** On ASCII runes [unicode.ToLower] and [unicode.ToUpper] do not look
    at the tables. *)
Lemma ascii_mapped_valid r :
  ValidRune r = true -> r <= 127 ->
  ValidRune (unicode.ToLower r) = true /\ ValidRune (unicode.ToUpper r) = true.
Proof.
  intros V A. apply ValidRune_range in V.
  unfold unicode.ToLower, unicode.ToUpper, unicode.MaxASCII.
  destruct (Z.leb_spec r 127); [|lia].
  destruct (Z.leb_spec 65 r), (Z.leb_spec r 90), (Z.leb_spec 97 r),
    (Z.leb_spec r 122); cbn [andb]; split; apply ValidRune_range; lia.
Qed.

Lemma ascii_lower_of_lower r :
  0 <= r <= 127 -> unicode.ToLower (unicode.ToLower r) = unicode.ToLower r.
Proof.
  intros A. unfold unicode.ToLower, unicode.MaxASCII.
  destruct (Z.leb_spec r 127); [|lia].
  destruct (Z.leb_spec 65 r), (Z.leb_spec r 90); cbn [andb];
    try (destruct (Z.leb_spec r 127); [|lia]);
    try (destruct (Z.leb_spec 65 r), (Z.leb_spec r 90); cbn [andb]);
    try reflexivity; try lia.
  destruct (Z.leb_spec (r + (97 - 65)) 127); [|lia].
  destruct (Z.leb_spec 65 (r + (97 - 65))), (Z.leb_spec (r + (97 - 65)) 90);
    cbn [andb]; try reflexivity; lia.
Qed.

Lemma ascii_lower_of_upper r :
  0 <= r <= 127 -> unicode.ToUpper r <> r ->
  unicode.ToLower (unicode.ToUpper r) <> unicode.ToUpper r.
Proof.
  intros A. unfold unicode.ToLower, unicode.ToUpper, unicode.MaxASCII.
  destruct (Z.leb_spec r 127); [|lia].
  destruct (Z.leb_spec 97 r), (Z.leb_spec r 122); cbn [andb];
    try (intros N; exfalso; apply N; reflexivity).
  intros _.
  destruct (Z.leb_spec (r - (97 - 65)) 127); [|lia].
  destruct (Z.leb_spec 65 (r - (97 - 65))), (Z.leb_spec (r - (97 - 65)) 90);
    cbn [andb]; lia.
Qed.

Section Laws.
(** Three facts the case tables of Unicode have, for the runes above
    ASCII: a mapped rune is a valid rune, lower-casing a lower-cased rune
    changes nothing, and a rune that upper-casing made out of another one
    has a lower case of its own. *)
Hypothesis tables_valid : forall r,
  ValidRune r = true -> unicode.MaxASCII < r ->
  ValidRune (unicode_To LowerCase r) = true
  /\ ValidRune (unicode_To UpperCase r) = true.
Hypothesis tables_lower_of_lower : forall r,
  ValidRune r = true -> unicode.MaxASCII < r ->
  unicode.ToLower (unicode_To LowerCase r) = unicode_To LowerCase r.
Hypothesis tables_lower_of_upper : forall r,
  ValidRune r = true -> unicode.MaxASCII < r ->
  unicode_To UpperCase r <> r ->
  unicode.ToLower (unicode_To UpperCase r) <> unicode_To UpperCase r.

Lemma above_ascii_lower r :
  127 < r -> unicode.ToLower r = unicode_To LowerCase r.
Proof.
  intros G. unfold unicode.ToLower, unicode.MaxASCII.
  destruct (Z.leb_spec r 127); [lia | reflexivity].
Qed.

Lemma above_ascii_upper r :
  127 < r -> unicode.ToUpper r = unicode_To UpperCase r.
Proof.
  intros G. unfold unicode.ToUpper, unicode.MaxASCII.
  destruct (Z.leb_spec r 127); [lia | reflexivity].
Qed.

Lemma mapped_valid r :
  ValidRune r = true ->
  ValidRune (unicode.ToLower r) = true /\ ValidRune (unicode.ToUpper r) = true.
Proof.
  intros V. destruct (Z.le_gt_cases r 127) as [A|G].
  - apply ascii_mapped_valid; assumption.
  - rewrite above_ascii_lower, above_ascii_upper by exact G.
    apply tables_valid; assumption.
Qed.

Lemma lower_of_lower r :
  ValidRune r = true ->
  unicode.ToLower (unicode.ToLower r) = unicode.ToLower r.
Proof.
  intros V. destruct (Z.le_gt_cases r 127) as [A|G].
  - apply ascii_lower_of_lower. apply ValidRune_range in V. lia.
  - rewrite (above_ascii_lower r G). apply tables_lower_of_lower; assumption.
Qed.

Lemma lower_of_upper r :
  ValidRune r = true ->
  unicode.ToUpper r <> r ->
  unicode.ToLower (unicode.ToUpper r) <> unicode.ToUpper r.
Proof.
  intros V. destruct (Z.le_gt_cases r 127) as [A|G].
  - apply ascii_lower_of_upper. apply ValidRune_range in V. lia.
  - rewrite (above_ascii_upper r G). apply tables_lower_of_upper; assumption.
Qed.

(** A rune that is at once a lower-cased and an upper-cased rune is the
    lower case of both originals. *)
Lemma rune_lower_meets_upper x y :
  ValidRune x = true -> ValidRune y = true ->
  unicode.ToLower x = unicode.ToUpper y ->
  unicode.ToLower y = unicode.ToLower x.
Proof.
  intros Vx Vy E.
  assert (F : unicode.ToLower (unicode.ToUpper y) = unicode.ToUpper y).
  { rewrite <- E. apply lower_of_lower, Vx. }
  destruct (Z.eq_dec (unicode.ToUpper y) y) as [Fy|Cy].
  - rewrite <- Fy at 1. rewrite F. symmetry. exact E.
  - destruct (lower_of_upper y Vy Cy F).
Qed.

Lemma runes_lower_meet_upper l1 : forall l2,
  Forall (fun r => ValidRune r = true) l1 ->
  Forall (fun r => ValidRune r = true) l2 ->
  map unicode.ToLower l1 = map unicode.ToUpper l2 ->
  map unicode.ToLower l2 = map unicode.ToLower l1.
Proof.
  induction l1 as [|x l1 IH]; intros [|y l2] V1 V2 E;
    try discriminate; [reflexivity|].
  apply Forall_cons_1 in V1 as [Vx V1]. apply Forall_cons_1 in V2 as [Vy V2].
  cbn [map] in *. injection E as Ex El. f_equal.
  - apply rune_lower_meets_upper; assumption.
  - apply IH; assumption.
Qed.

Lemma lower_codings s :
  @ToLower (tables T) s = codings (map unicode.ToLower (rangeRunes 0 s)).
Proof.
  rewrite ToLower_mapped. apply mapped_codings.
  eapply Forall_impl; [apply rangeRunes_valid|].
  intros r V. apply mapped_valid, V.
Qed.

Lemma upper_codings s :
  @ToUpper (tables T) s = codings (map unicode.ToUpper (rangeRunes 0 s)).
Proof.
  rewrite ToUpper_mapped. apply mapped_codings.
  eapply Forall_impl; [apply rangeRunes_valid|].
  intros r V. apply mapped_valid, V.
Qed.

Lemma valid_after (f : rune -> rune) l :
  (forall r, ValidRune r = true -> ValidRune (f r) = true) ->
  Forall (fun r => ValidRune r = true) l ->
  Forall (fun r => ValidRune r = true) (map f l).
Proof.
  intros Hf V. induction V as [|r l Vr _ IH]; constructor; auto.
Qed.

(** The third comparison of [IsEq] brings nothing: where the lower-cased
    [a] is the upper-cased [b], the lower-cased forms are equal too. *)
Lemma ToLower_meets_ToUpper a b :
  @ToLower (tables T) a = @ToUpper (tables T) b ->
  @ToLower (tables T) a = @ToLower (tables T) b.
Proof.
  rewrite !lower_codings, upper_codings. intros E.
  apply (f_equal (rangeRunes 0)) in E.
  rewrite !rangeRunes_codings in E
    by (apply valid_after;
        [intros r V; apply mapped_valid, V | apply rangeRunes_valid]).
  f_equal. symmetry.
  apply runes_lower_meet_upper; auto using rangeRunes_valid.
Qed.

End Laws.

(** C9: for all strings [a] and [b], [IsEq a b] holds exactly when [a]
    equals [b] or their lower-cased forms are equal: the third comparison,
    of the lower-cased [a] with the upper-cased [b], adds no match, since
    [upper] is computed with [ToLower].  Outside ASCII [strings.ToLower]
    and [strings.ToUpper] go through the case tables of the Go
    distribution, of which three facts are used, all about runes above
    ASCII: the tables map a valid rune to a valid rune, lower-casing a
    rune they lower-cased changes nothing, and a rune they upper-cased out
    of another one has a lower case of its own. *)
Theorem IsEq_exact_or_lowercase (a b : string) :
  (forall r, ValidRune r = true -> unicode.MaxASCII < r ->
     ValidRune (unicode_To LowerCase r) = true
     /\ ValidRune (unicode_To UpperCase r) = true) ->
  (forall r, ValidRune r = true -> unicode.MaxASCII < r ->
     unicode.ToLower (unicode_To LowerCase r) = unicode_To LowerCase r) ->
  (forall r, ValidRune r = true -> unicode.MaxASCII < r ->
     unicode_To UpperCase r <> r ->
     unicode.ToLower (unicode_To UpperCase r) <> unicode_To UpperCase r) ->
  (@enumer.IsEq (tables T) a b = true <->
   a = b \/ @ToLower (tables T) a = @ToLower (tables T) b).
Proof.
  intros Hvalid Hlower Hupper. split.
  - intros E. apply (@IsEq_true (tables T)) in E as [E | [E | E]]; auto.
    right. apply (ToLower_meets_ToUpper Hvalid Hlower Hupper), E.
  - intros [-> | E];
      [apply (@IsEq_refl (tables T)) | apply (@IsEq_lower (tables T)), E].
Qed.

End CaseTables.

End Utf8.

(** The fragment of the case tables has the three properties. *)
Lemma reference_tables_valid r :
  utf8.ValidRune r = true -> (unicode.MaxASCII < r)%Z ->
  utf8.ValidRune (@unicode_To ReferenceTables.caseRanges LowerCase r) = true
  /\ utf8.ValidRune (@unicode_To ReferenceTables.caseRanges UpperCase r)
     = true.
Proof.
  intros V _. cbn [unicode_To ReferenceTables.caseRanges].
  repeat match goal with
  | |- context [Z.eqb ?x ?y] => destruct (Z.eqb_spec x y)
  end; split; first [exact V | reflexivity].
Qed.

Lemma reference_tables_lower_of_lower r :
  utf8.ValidRune r = true -> (unicode.MaxASCII < r)%Z ->
  @unicode.ToLower ReferenceTables.caseRanges
    (@unicode_To ReferenceTables.caseRanges LowerCase r)
  = @unicode_To ReferenceTables.caseRanges LowerCase r.
Proof.
  intros _ G. unfold unicode.ToLower, unicode.MaxASCII in *.
  cbn [unicode_To ReferenceTables.caseRanges].
  repeat match goal with
  | |- context [Z.eqb ?x ?y] => destruct (Z.eqb_spec x y)
  | |- context [Z.leb ?x ?y] => destruct (Z.leb_spec x y)
  end; cbn [andb]; try reflexivity; lia.
Qed.

Lemma reference_tables_lower_of_upper r :
  utf8.ValidRune r = true -> (unicode.MaxASCII < r)%Z ->
  @unicode_To ReferenceTables.caseRanges UpperCase r <> r ->
  @unicode.ToLower ReferenceTables.caseRanges
    (@unicode_To ReferenceTables.caseRanges UpperCase r)
  <> @unicode_To ReferenceTables.caseRanges UpperCase r.
Proof.
  intros _ G. unfold unicode.ToLower, unicode.MaxASCII in *.
  cbn [unicode_To ReferenceTables.caseRanges].
  repeat match goal with
  | |- context [Z.eqb ?x ?y] => destruct (Z.eqb_spec x y)
  | |- context [Z.leb ?x ?y] => destruct (Z.leb_spec x y)
  end; cbn [andb]; lia.
Qed.

Lemma IsEq_exact_or_lowercase_sample :
  @enumer.IsEq (GoStringsMap.tables ReferenceTables.caseRanges)
    ReferenceTables.upperCafe ReferenceTables.lowerCafe = true
  <-> ReferenceTables.upperCafe = ReferenceTables.lowerCafe
      \/ @GoStrings.ToLower (GoStringsMap.tables ReferenceTables.caseRanges)
           ReferenceTables.upperCafe
         = @GoStrings.ToLower (GoStringsMap.tables ReferenceTables.caseRanges)
             ReferenceTables.lowerCafe.
Proof.
  exact (IsEq_exact_or_lowercase ReferenceTables.caseRanges
           ReferenceTables.upperCafe ReferenceTables.lowerCafe
           reference_tables_valid reference_tables_lower_of_lower
           reference_tables_lower_of_upper).
Defined.

(** The model at work on the fragment: case mapping through UTF-8, a rune
    above ASCII whose lower case is an ASCII letter, and invalid bytes. *)
Lemma tables_at_work :
  @GoStrings.ToLower (GoStringsMap.tables ReferenceTables.caseRanges)
    ReferenceTables.upperCafe = ReferenceTables.lowerCafe
  /\ @GoStrings.ToUpper (GoStringsMap.tables ReferenceTables.caseRanges)
       ReferenceTables.lowerCafe = ReferenceTables.upperCafe
  /\ @GoStrings.ToLower (GoStringsMap.tables ReferenceTables.caseRanges)
       ReferenceTables.kelvin = "k"
  /\ @enumer.IsEq (GoStringsMap.tables ReferenceTables.caseRanges)
       ReferenceTables.kelvin "K" = true
  /\ utf8.rangeRunes 0 (utf8.bytes [0xFF; 0x41; 0xED; 0xA0; 0x80]%Z)
     = [utf8.RuneError; 0x41; utf8.RuneError; utf8.RuneError;
        utf8.RuneError]%Z
  /\ @GoStrings.ToLower (GoStringsMap.tables ReferenceTables.caseRanges)
       (utf8.bytes [0xFF; 0x41]%Z)
     = utf8.bytes [0xEF; 0xBF; 0xBD; 0x61]%Z.
Proof. vm_compute. repeat split. Qed.

(** ** The companion of the older generator *)

Section OlderCompanion.
Import GoStrings.
Context `{Unicode}.
Variable enum : enumer.EnumData.

Lemma enumer_Join_strings values sep :
  enumer.Join values sep = GoStrings.Join values sep.
Proof.
  unfold enumer.Join. f_equal.
  enough (G : forall acc, fold_left (fun ss value => ss ++ [value]) values acc
                          = acc ++ values) by apply (G []).
  induction values as [|x xs IH]; intros acc; simpl.
  - symmetry. apply app_nil_r.
  - rewrite IH, <- app_assoc. reflexivity.
Qed.

(** The loop stops at the first value [IsEq] accepts. *)
Lemma older_loop_find v values found ok :
  MainOlder.ParseFrom_loop v values found ok =
  match find (enumer.IsEq v) values with
  | Some w => (w, true)
  | None => (found, ok)
  end.
Proof.
  induction values as [|w ws IH]; simpl; [reflexivity|].
  destruct (enumer.IsEq v w); [reflexivity | apply IH].
Qed.

Lemma older_IsFrom_find v values :
  MainOlder.IsFrom v values =
  match find (enumer.IsEq v) values with Some _ => true | None => false end.
Proof.
  induction values as [|w ws IH]; simpl; [reflexivity|].
  destruct (enumer.IsEq v w); [reflexivity | apply IH].
Qed.

Lemma find_first_true {A} (p : A -> bool) pre c post :
  Forall (fun w => p w = false) pre -> p c = true ->
  find p (pre ++ c :: post) = Some c.
Proof.
  induction 1 as [|w ws Hw _ IH]; intros Hc; simpl.
  - rewrite Hc. reflexivity.
  - rewrite Hw. apply IH, Hc.
Qed.

Lemma find_all_false {A} (p : A -> bool) l :
  Forall (fun w => p w = false) l -> find p l = None.
Proof.
  induction 1 as [|w ws Hw _ IH]; simpl; [reflexivity|].
  rewrite Hw. exact IH.
Qed.

Lemma older_ParseFrom_first v pre c post :
  Forall (fun w => enumer.IsEq v w = false) pre ->
  enumer.IsEq v c = true ->
  MainOlder.ParseFrom enum v (pre ++ c :: post) = (c, None).
Proof.
  intros Hpre Hc. unfold MainOlder.ParseFrom.
  rewrite older_loop_find, (find_first_true _ _ _ _ Hpre Hc). reflexivity.
Qed.

Lemma older_ParseFrom_none v values :
  Forall (fun w => enumer.IsEq v w = false) values ->
  MainOlder.ParseFrom enum v values
  = ("", Some (MainOlder.newErr enum (anyString v) values)).
Proof.
  intros Hall. unfold MainOlder.ParseFrom.
  rewrite older_loop_find, (find_all_false _ _ Hall). reflexivity.
Qed.

Lemma older_newErr_message v values :
  Error (MainOlder.newErr enum (anyString v) values)
  = "invalid invalid " +:+ enumer.Type' enum +:+ " value '" +:+ v
    +:+ "'. Must be one of " +:+ GoStrings.Join values ", ".
Proof.
  unfold MainOlder.newErr. simpl. rewrite enumer_Join_strings. reflexivity.
Qed.

Lemma older_IsFrom_iff v values :
  MainOlder.IsFrom v values = true <->
  snd (MainOlder.ParseFrom enum v values) = None.
Proof.
  unfold MainOlder.ParseFrom.
  rewrite older_IsFrom_find, older_loop_find.
  destruct (find (enumer.IsEq v) values); simpl; split; congruence.
Qed.

(** With ASCII values whose serialized forms stay distinct when
    lower-cased, the first value [IsEq] accepts for a text that
    lower-cases like [x] is [x]. *)
Lemma older_Parse_value x s :
  In x (enumer.Values enum) ->
  isASCII s = true ->
  Forall (fun y => isASCII (enumer.Serialized y) = true) (enumer.Values enum) ->
  (forall y, In y (enumer.Values enum) ->
     ToLower (enumer.Serialized y) = ToLower (enumer.Serialized x) ->
     enumer.Serialized y = enumer.Serialized x) ->
  ToLower s = ToLower (enumer.Serialized x) ->
  MainOlder.Parse enum s = (enumer.Serialized x, None).
Proof.
  intros Hx Hs Hascii Hdistinct Hlow.
  unfold MainOlder.Parse, MainOlder.ParseFrom, MainOlder.Values.
  rewrite older_loop_find.
  destruct (find (enumer.IsEq s) (map enumer.Serialized (enumer.Values enum)))
    as [w|] eqn:F.
  - apply find_some in F as [Hw Hm].
    apply in_map_iff in Hw as (y & <- & Hy).
    rewrite Forall_forall in Hascii.
    apply IsEq_ascii in Hm; [|exact Hs|].
    2:{ apply Hascii. apply list_elem_of_In. exact Hy. }
    assert (E : ToLower (enumer.Serialized y) = ToLower (enumer.Serialized x)).
    { destruct Hm as [-> | <-]; [exact Hlow | congruence]. }
    rewrite (Hdistinct y Hy E). reflexivity.
  - exfalso.
    pose proof (find_none _ _ F (enumer.Serialized x)) as N.
    rewrite (IsEq_lower _ _ Hlow) in N.
    discriminate N. apply in_map, Hx.
Qed.
End OlderCompanion.

(** ** The companion of src/cmd/enumer/main.go *)

Section NewerCompanion.
Variable t : Main.companion.

Lemma matchers_loop_spec v item matchers found ok :
  Main.matchers_loop v item matchers found ok =
  if existsb (String.eqb v) matchers then (item, true) else (found, ok).
Proof.
  induction matchers as [|m ms IH]; simpl; [reflexivity|].
  destruct (String.eqb v m); [reflexivity | apply IH].
Qed.

Lemma existsb_eqb_In v (l : list string) :
  existsb (String.eqb v) l = true <-> In v l.
Proof.
  rewrite existsb_exists. split.
  - intros (x & Hx & E). apply String.eqb_eq in E. subst. exact Hx.
  - intros Hv. exists v. split; [exact Hv | apply String.eqb_refl].
Qed.

Lemma newer_loop_unregistered v items rest found ok :
  Forall (fun item => Main.parseMap t !! item = None) rest ->
  Main.ParseFrom_loop t v items rest found ok = (found, None).
Proof.
  induction 1 as [|item rest Hi _ IH]; simpl; [reflexivity|].
  rewrite Hi. exact IH.
Qed.

(** The loop decides on the first item the table knows. *)
Lemma newer_loop_first v items pre c post matchers :
  Forall (fun item => Main.parseMap t !! item = None) pre ->
  Main.parseMap t !! c = Some matchers ->
  Main.ParseFrom_loop t v items (pre ++ c :: post) "" false =
  if existsb (String.eqb v) matchers then (c, None)
  else ("", Some (Main.errf t (anyString v) items)).
Proof.
  induction 1 as [|item rest Hi _ IH]; intros Hc; simpl.
  - rewrite Hc, matchers_loop_spec.
    destruct (existsb (String.eqb v) matchers); reflexivity.
  - rewrite Hi. apply IH, Hc.
Qed.

(** A success names a candidate that lists the text, unless no candidate
    is in the table. *)
Lemma newer_loop_sound v items rest found :
  Main.ParseFrom_loop t v items rest "" false = (found, None) ->
  (exists matchers, In found rest /\ Main.parseMap t !! found = Some matchers
                    /\ In v matchers)
  \/ (found = "" /\ Forall (fun item => Main.parseMap t !! item = None) rest).
Proof.
  induction rest as [|item rest IH]; simpl; intros E.
  - right. injection E as <-. split; [reflexivity | constructor].
  - destruct (Main.parseMap t !! item) as [matchers|] eqn:L.
    + rewrite matchers_loop_spec in E.
      destruct (existsb (String.eqb v) matchers) eqn:X; simpl in E;
        [|discriminate E].
      injection E as <-. left. exists matchers.
      split; [left; reflexivity|]. split; [exact L|].
      apply existsb_eqb_In, X.
    + destruct (IH E) as [(m & Hin & Hl & Hv) | [-> Hall]].
      * left. exists m. split; [right; exact Hin | split; assumption].
      * right. split; [reflexivity | constructor; assumption].
Qed.

(** A failure carries the zero value and what [errf] builds. *)
Lemma newer_loop_error v items rest found err :
  Main.ParseFrom_loop t v items rest "" false = (found, Some err) ->
  found = "" /\ err = Main.errf t (anyString v) items.
Proof.
  induction rest as [|item rest IH]; simpl; intros E; [discriminate E|].
  destruct (Main.parseMap t !! item) as [matchers|]; [|apply IH, E].
  rewrite matchers_loop_spec in E.
  destruct (existsb (String.eqb v) matchers); simpl in E;
    [discriminate E|].
  injection E as <- <-. split; reflexivity.
Qed.

Lemma errf_fold items : forall acc,
  fold_left
    (fun xs item =>
       match Main.parseMap t !! item with
       | Some x => xs ++ x
       | None => xs
       end) items acc
  = acc ++ Main.listed t items.
Proof.
  induction items as [|item items IH]; intros acc; simpl.
  - symmetry. apply app_nil_r.
  - rewrite IH. destruct (Main.parseMap t !! item).
    + rewrite <- app_assoc. reflexivity.
    + reflexivity.
Qed.

Lemma errf_message a items :
  Error (Main.errf t a items)
  = Error (Main.Err t) +:+ ": " +:+ Sprint a +:+ " is not one of "
    +:+ GoStrings.Join (Main.listed t items) ",".
Proof. unfold Main.errf. rewrite errf_fold. reflexivity. Qed.

Lemma newer_IsFrom_iff v items :
  Main.IsFrom t v items = true <-> snd (Main.ParseFrom t v items) = None.
Proof.
  unfold Main.IsFrom. destruct (Main.ParseFrom t v items) as [found [err|]];
    simpl; split; congruence.
Qed.
End NewerCompanion.

(** The table [init()] builds. *)
Section ParseMap.

Lemma init_parseMap_fold enum :
  Main.parseMap (Main.Ts enum)
  = fold_left Main.register (enumer.Values enum) ∅.
Proof. reflexivity. Qed.

Lemma fold_register_other l : forall d k,
  ~ In k (map enumer.Serialized l) ->
  fold_left Main.register l d !! k = d !! k.
Proof.
  induction l as [|y l IH]; intros d k Hk; simpl; [reflexivity|].
  rewrite IH.
  - unfold Main.register. apply lookup_insert_ne.
    intros E. apply Hk. left. exact E.
  - intros Hin. apply Hk. right. exact Hin.
Qed.


End ParseMap.

(** ** The matching contract of the companions *)

(** C7: in both companions, [Is text] is true exactly when [Parse text]
    returns no error, and [IsFrom text candidates] is true exactly when
    [ParseFrom text candidates] returns no error; the result is a boolean,
    the error of [ParseFrom] is not passed on. *)
Theorem is_iff_parse_succeeds `{Unicode} (enum : enumer.EnumData)
    (t : Main.companion) (text : string) (candidates : list string) :
  (MainOlder.Is enum text = true <-> snd (MainOlder.Parse enum text) = None)
  /\ (MainOlder.IsFrom text candidates = true
      <-> snd (MainOlder.ParseFrom enum text candidates) = None)
  /\ (Main.Is t text = true <-> snd (Main.Parse t text) = None)
  /\ (Main.IsFrom t text candidates = true
      <-> snd (Main.ParseFrom t text candidates) = None).
Proof.
  split; [apply older_IsFrom_iff|].
  split; [apply older_IsFrom_iff|].
  split; apply newer_IsFrom_iff.
Qed.

(** C10: in the companion of src/cmd/enumer/main.go, [ParseFrom] on an empty
    candidate list returns the zero value and a nil error, and so [IsFrom]
    with no candidate is true for every text. *)
Theorem ParseFrom_without_candidates (t : Main.companion) (text : string) :
  Main.ParseFrom t text [] = ("", None) /\ Main.IsFrom t text [] = true.
Proof. split; reflexivity. Qed.

(** C3, as the code has it.  Older companion: [ParseFrom] returns the first
    candidate [IsEq] accepts for the text (the candidate is its serialized
    form; names and [ParseFrom] entries play no part), and when [IsEq]
    accepts no candidate it fails with the zero value and an error whose
    message holds the text and every candidate, joined by a comma and a
    space.  Companion of src/cmd/enumer/main.go: a candidate is returned only
    when the text is, byte for byte, one of the entries the table holds for
    it; the first candidate the table knows is returned when the text is one
    of its entries; and a failure carries the zero value and a message with
    the text and the table entries of every candidate, joined by commas. *)
Theorem parseFrom_contract `{Unicode} (enum : enumer.EnumData)
    (t : Main.companion) (text : string) :
  (forall pre c post,
     Forall (fun w => enumer.IsEq text w = false) pre ->
     enumer.IsEq text c = true ->
     MainOlder.ParseFrom enum text (pre ++ c :: post) = (c, None))
  /\ (forall candidates,
        Forall (fun w => enumer.IsEq text w = false) candidates ->
        exists err,
          MainOlder.ParseFrom enum text candidates = ("", Some err)
          /\ Error err = "invalid invalid " +:+ enumer.Type' enum
                         +:+ " value '" +:+ text +:+ "'. Must be one of "
                         +:+ GoStrings.Join candidates ", ")
  /\ (forall candidates found,
        Main.ParseFrom t text candidates = (found, None) ->
        Exists (fun c => Main.parseMap t !! c <> None) candidates ->
        exists matchers,
          In found candidates /\ Main.parseMap t !! found = Some matchers
          /\ In text matchers)
  /\ (forall pre c post matchers,
        Forall (fun item => Main.parseMap t !! item = None) pre ->
        Main.parseMap t !! c = Some matchers ->
        In text matchers ->
        Main.ParseFrom t text (pre ++ c :: post) = (c, None))
  /\ (forall candidates found err,
        Main.ParseFrom t text candidates = (found, Some err) ->
        found = ""
        /\ Error err = Error (Main.Err t) +:+ ": " +:+ text
                       +:+ " is not one of "
                       +:+ GoStrings.Join (Main.listed t candidates) ",").
Proof.
  split; [|split; [|split; [|split]]].
  - intros pre c post. apply older_ParseFrom_first.
  - intros candidates Hall. eexists. split.
    + apply older_ParseFrom_none, Hall.
    + apply older_newErr_message.
  - intros candidates found E Hreg.
    destruct (newer_loop_sound t text candidates candidates found E)
      as [G | [_ Hnone]]; [exact G|].
    exfalso. apply Exists_exists in Hreg as (c & Hc & Hk).
    rewrite Forall_forall in Hnone. exact (Hk (Hnone c Hc)).
  - intros pre c post matchers Hpre Hc Hin. unfold Main.ParseFrom.
    rewrite (newer_loop_first t text _ pre c post matchers Hpre Hc).
    apply existsb_eqb_In in Hin. rewrite Hin. reflexivity.
  - intros candidates found err E.
    apply newer_loop_error in E as [-> ->].
    split; [reflexivity | apply errf_message].
Qed.

Lemma parseFrom_contract_sample :
  @MainOlder.ParseFrom Reference.unicode Reference.status "OPEN" ["done"; "open"]
  = ("open", None)
  /\ Main.ParseFrom (Main.Ts Reference.status) "Done" ["closed"; "done"; "open"]
     = ("done", None).
Proof.
  destruct (@parseFrom_contract Reference.unicode Reference.status
              (Main.Ts Reference.status) "OPEN") as (A & _).
  destruct (@parseFrom_contract Reference.unicode Reference.status
              (Main.Ts Reference.status) "Done") as (_ & _ & _ & B & _).
  split.
  - apply (A ["done"] "open" []); [|reflexivity].
    constructor; [reflexivity | constructor].
  - apply (B ["closed"] "done" ["open"] ["done"; "Done"; "finished"]).
    + constructor; [reflexivity | constructor].
    + reflexivity.
    + right. left. reflexivity.
Defined.

(** C3 as stated fails both ways.  In the older companion the text
    "finished", a [ParseFrom] entry of the candidate "done", is rejected; in
    the companion of src/cmd/enumer/main.go the text "DONE", which differs
    from the candidate "done" by case only, is rejected. *)
Lemma parseFrom_alias_set_case_insensitive_fails :
  In "finished" (enumer.ParseFrom Reference.done)
  /\ (exists err,
        @MainOlder.ParseFrom Reference.unicode Reference.status "finished"
          ["done"; "open"] = ("", Some err))
  /\ @GoStrings.ToLower Reference.unicode "DONE"
     = @GoStrings.ToLower Reference.unicode (enumer.Serialized Reference.done)
  /\ (exists err,
        Main.ParseFrom (Main.Ts Reference.status) "DONE" ["done"; "open"]
        = ("", Some err)).
Proof.
  split; [left; reflexivity|].
  split; [eexists; vm_compute; reflexivity|].
  split; [reflexivity|].
  eexists; vm_compute; reflexivity.
Qed.




(** ** The relational-driver codec *)

(** C8: [Scan] fails with "cannot be null" on the nil value; fails with
    "not a string" when the driver's conversion yields something that is not
    a string; and otherwise hands the converted text to [parser], whose
    error it returns as it is and whose value it stores.  (An error of the
    conversion itself is returned as it is too.)  On failure the stored
    value is left as it was. *)
Theorem Scan_outcomes `{Driver} (value : any) (e : string)
    (parser : string -> string * option error) :
  (value = anyNil ->
   enumer.Scan value e parser = (e, Some (errorString "cannot be null")))
  /\ (forall dv,
        value <> anyNil -> String_ConvertValue value = (dv, None) ->
        (forall s, dv <> anyString s) ->
        enumer.Scan value e parser = (e, Some (errorString "not a string")))
  /\ (forall s p err,
        value <> anyNil -> String_ConvertValue value = (anyString s, None) ->
        parser s = (p, Some err) ->
        enumer.Scan value e parser = (e, Some err))
  /\ (forall s p,
        value <> anyNil -> String_ConvertValue value = (anyString s, None) ->
        parser s = (p, None) ->
        enumer.Scan value e parser = (p, None))
  /\ (forall dv err,
        value <> anyNil -> String_ConvertValue value = (dv, Some err) ->
        enumer.Scan value e parser = (e, Some err)).
Proof.
  assert (N : value <> anyNil -> isNil value = false)
    by (destruct value; [congruence | reflexivity ..]).
  split; [|split; [|split; [|split]]].
  - intros ->. reflexivity.
  - intros dv Hv Hc Hs. unfold enumer.Scan. rewrite (N Hv), Hc.
    destruct dv as [|s| |]; try reflexivity. destruct (Hs s eq_refl).
  - intros s p err Hv Hc Hp. unfold enumer.Scan. rewrite (N Hv), Hc, Hp.
    reflexivity.
  - intros s p Hv Hc Hp. unfold enumer.Scan. rewrite (N Hv), Hc, Hp.
    reflexivity.
  - intros dv err Hv Hc. unfold enumer.Scan. rewrite (N Hv), Hc. reflexivity.
Qed.

Lemma Scan_outcomes_sample :
  @enumer.Scan Reference.driver anyNil "open"
    (@MainOlder.Parse Reference.unicode Reference.status)
  = ("open", Some (errorString "cannot be null"))
  /\ @enumer.Scan Reference.driver (anyBytes "done") "open"
       (@MainOlder.Parse Reference.unicode Reference.status)
     = ("open", Some (errorString "not a string"))
  /\ @enumer.Scan Reference.driver (anyString "Done") "open"
       (@MainOlder.Parse Reference.unicode Reference.status)
     = ("done", None)
  /\ @enumer.Scan Reference.driver (anyString "closed") "open"
       (@MainOlder.Parse Reference.unicode Reference.status)
     = ("open",
        Some (@MainOlder.newErr Reference.status (anyString "closed")
                ["done"; "open"])).
Proof.
  pose (parser := @MainOlder.Parse Reference.unicode Reference.status).
  split; [|split; [|split]].
  - destruct (@Scan_outcomes Reference.driver anyNil "open" parser)
      as (A & _).
    apply A. reflexivity.
  - destruct (@Scan_outcomes Reference.driver (anyBytes "done") "open" parser)
      as (_ & B & _).
    apply (B (anyBytes "done")); [discriminate | reflexivity | discriminate].
  - destruct (@Scan_outcomes Reference.driver (anyString "Done") "open" parser)
      as (_ & _ & _ & D & _).
    apply (D "Done" "done"); [discriminate | reflexivity | reflexivity].
  - destruct (@Scan_outcomes Reference.driver (anyString "closed") "open" parser)
      as (_ & _ & C & _).
    apply (C "closed" ""); [discriminate | reflexivity | reflexivity].
Defined.

(** ** Resolution: the loop over the values *)

Section NewerResolution.
Import enumer Generator.
Context `{OS} `{Imports}.

(** The loop body fails exactly on a value with both fields empty, and the
    index only shows in the error. *)
Lemma newer_value_invalid i value :
  stringer_IsEmpty (Name value) && stringer_IsEmpty (Serialized value) = true ->
  Main.processEnum_value i value =
  (value, Some (errorString ("invalid values[" +:+ pretty i
                             +:+ "] name or serialized value"))).
Proof. intros E. unfold Main.processEnum_value. rewrite E. reflexivity. Qed.

Lemma newer_value_valid i value :
  stringer_IsEmpty (Name value) && stringer_IsEmpty (Serialized value) = false ->
  Main.processEnum_value i value
  = (fst (Main.processEnum_value 0 value), None).
Proof.
  intros E. unfold Main.processEnum_value. rewrite E.
  repeat match goal with
         | |- context [if ?b then _ else _] => destruct b
         end; reflexivity.
Qed.

(** Without an invalid value the loop resolves every value on its own and
    returns no error. *)
Lemma newer_values_valid values : forall i,
  Forall (fun value =>
            stringer_IsEmpty (Name value)
            && stringer_IsEmpty (Serialized value) = false) values ->
  Main.processEnum_values i values
  = (map (fun value => fst (Main.processEnum_value 0 value)) values, None).
Proof.
  induction values as [|value rest IH]; intros i Hall; [reflexivity|].
  apply Forall_cons in Hall as [Hv Hrest].
  simpl. rewrite (newer_value_valid i value Hv), (IH (S i) Hrest).
  reflexivity.
Qed.

(** The loop stops at the first invalid value, with its index. *)
Lemma newer_values_invalid pre : forall i value post,
  Forall (fun value =>
            stringer_IsEmpty (Name value)
            && stringer_IsEmpty (Serialized value) = false) pre ->
  stringer_IsEmpty (Name value) && stringer_IsEmpty (Serialized value) = true ->
  Main.processEnum_values i (pre ++ value :: post)
  = (map (fun value => fst (Main.processEnum_value 0 value)) pre
       ++ value :: post,
     Some (errorString ("invalid values[" +:+ pretty (i + length pre)
                        +:+ "] name or serialized value"))).
Proof.
  induction pre as [|p pre IH]; intros i value post Hpre Hv; simpl.
  - rewrite (newer_value_invalid i value Hv), Nat.add_0_r. reflexivity.
  - apply Forall_cons in Hpre as [Hp Hpre].
    rewrite (newer_value_valid i p Hp), (IH (S i) value post Hpre Hv).
    replace (S i + length pre) with (i + S (length pre)) by lia.
    reflexivity.
Qed.

(** Once the configuration is read, [processEnum] reaches the loop with
    the values of the document, and an error of the loop is its result. *)
Lemma newer_processEnum_loop_error args enum0 bs doc values err :
  os_ReadFile (args_InputPath args) = (bs, None) ->
  yaml_Unmarshal bs enum0 = (doc, None) ->
  Main.processEnum_values 0 (Values doc) = (values, Some err) ->
  snd (run (Main.processEnum args) enum0) = Some err
  /\ Values (fst (run (Main.processEnum args) enum0)) = values.
Proof.
  intros Hread Hdoc Hloop.
  unfold run, Main.processEnum, bind, get, when, modify, ret.
  rewrite Hread, Hdoc.
  destruct (args_SkipFormat args), (args_Debug args); cbn;
    destruct (String.eqb (OutputPath doc) ""); cbn;
    destruct (String.eqb (Package doc) ""); cbn;
    destruct (String.eqb (Type' doc) ""); cbn;
    destruct (String.eqb (Struct doc) ""); cbn;
    rewrite Hloop; cbn; split; reflexivity.
Qed.

(** When the loop succeeds and the header file, if one is named, exists,
    [processEnum] returns no error and leaves the values of the loop. *)
Lemma newer_processEnum_loop_ok args enum0 bs doc values :
  os_ReadFile (args_InputPath args) = (bs, None) ->
  yaml_Unmarshal bs enum0 = (doc, None) ->
  Main.processEnum_values 0 (Values doc) = (values, None) ->
  (HeaderFrom doc <> "" -> os_Stat (HeaderFrom doc) = None) ->
  snd (run (Main.processEnum args) enum0) = None
  /\ Values (fst (run (Main.processEnum args) enum0)) = values.
Proof.
  intros Hread Hdoc Hloop Hstat.
  unfold run, Main.processEnum, bind, get, when, modify, ret.
  rewrite Hread, Hdoc.
  destruct (String.eqb_spec (HeaderFrom doc) "") as [Hf | Hf].
  - destruct (args_SkipFormat args), (args_Debug args); cbn;
      destruct (String.eqb (OutputPath doc) ""); cbn;
      destruct (String.eqb (Package doc) ""); cbn;
      destruct (String.eqb (Type' doc) ""); cbn;
      destruct (String.eqb (Struct doc) ""); cbn;
      rewrite Hloop; cbn; rewrite Hf; cbn;
      destruct (String.eqb (Header doc) ""); cbn;
      destruct (args_Overwrite args); cbn; split; reflexivity.
  - specialize (Hstat Hf). apply String.eqb_neq in Hf.
    destruct (args_SkipFormat args), (args_Debug args); cbn;
      destruct (String.eqb (OutputPath doc) ""); cbn;
      destruct (String.eqb (Package doc) ""); cbn;
      destruct (String.eqb (Type' doc) ""); cbn;
      destruct (String.eqb (Struct doc) ""); cbn;
      rewrite Hloop; cbn; rewrite Hf; cbn;
      destruct (String.eqb (Header doc) ""); cbn;
      rewrite Hstat; cbn;
      destruct (args_Overwrite args); cbn; split; reflexivity.
Qed.
End NewerResolution.

Section NewerResolutionClaims.
Import enumer Generator.
Context `{OS} `{Imports}.

(** A list with an invalid value at [i] splits at its first invalid
    value, at or before [i]. *)
Lemma first_invalid (values : list EnumValue) : forall i value,
  values !! i = Some value ->
  stringer_IsEmpty (Name value) && stringer_IsEmpty (Serialized value) = true ->
  exists pre w post,
    values = pre ++ w :: post
    /\ Forall (fun value =>
                 stringer_IsEmpty (Name value)
                 && stringer_IsEmpty (Serialized value) = false) pre
    /\ stringer_IsEmpty (Name w) && stringer_IsEmpty (Serialized w) = true
    /\ length pre <= i.
Proof.
  induction values as [|x rest IH]; intros i value Hi Hv; [discriminate Hi|].
  destruct (stringer_IsEmpty (Name x) && stringer_IsEmpty (Serialized x))
    eqn:Hx.
  - exists [], x, rest. repeat split; [constructor | exact Hx | simpl; lia].
  - destruct i as [|i]; simpl in Hi.
    + injection Hi as ->. congruence.
    + destruct (IH i value Hi Hv) as (pre & w & post & -> & Hpre & Hw & Hlen).
      exists (x :: pre), w, post.
      repeat split; [constructor; assumption | exact Hw | simpl; lia].
Qed.

(** C6: when the value at index [i] of the document has both name and
    serialized form empty, [processEnum] returns the error "invalid
    values[j] name or serialized value", [j] being the index of the first
    such value ([j] is [i] when no earlier value is invalid), and [main]
    prints it and exits: no definition goes on to the template. *)
Theorem invalid_value_aborts (args : argsData) (bs : string)
    (doc : EnumData) (i : nat) (value : EnumValue) :
  os_ReadFile (args_InputPath args) = (bs, None) ->
  yaml_Unmarshal bs zeroEnum = (doc, None) ->
  Values doc !! i = Some value ->
  stringer_IsEmpty (Name value) = true ->
  stringer_IsEmpty (Serialized value) = true ->
  exists j w,
    j <= i
    /\ Values doc !! j = Some w
    /\ stringer_IsEmpty (Name w) && stringer_IsEmpty (Serialized w) = true
    /\ ((forall k x, k < i -> Values doc !! k = Some x ->
           stringer_IsEmpty (Name x) && stringer_IsEmpty (Serialized x)
           = false) -> j = i)
    /\ snd (run (Main.processEnum args) zeroEnum)
       = Some (errorString ("invalid values[" +:+ pretty j
                            +:+ "] name or serialized value"))
    /\ Main.main args
       = Exit1 ("invalid values[" +:+ pretty j
                +:+ "] name or serialized value").
Proof.
  intros Hread Hdoc Hi Hn Hs.
  assert (Hv : stringer_IsEmpty (Name value)
               && stringer_IsEmpty (Serialized value) = true)
    by (rewrite Hn, Hs; reflexivity).
  destruct (first_invalid _ i value Hi Hv)
    as (pre & w & post & V & Hpre & Hw & Hlen).
  exists (length pre), w.
  assert (Hj : Values doc !! length pre = Some w).
  { rewrite V. apply list_lookup_middle. reflexivity. }
  pose proof (newer_values_invalid pre 0 w post Hpre Hw) as Hloop.
  rewrite <- V in Hloop. simpl in Hloop.
  destruct (newer_processEnum_loop_error args zeroEnum bs doc _ _
              Hread Hdoc Hloop) as [Herr _].
  repeat split; try assumption.
  - intros Hearlier.
    destruct (Nat.eq_dec (length pre) i) as [E | E]; [exact E|].
    assert (Hlt : length pre < i) by lia.
    rewrite (Hearlier _ _ Hlt Hj) in Hw. discriminate Hw.
  - unfold Main.main.
    destruct (run (Main.processEnum args) zeroEnum) as [e r].
    simpl in Herr. rewrite Herr. reflexivity.
Qed.

(** C2, as the code has it: [processEnum] compares no value with
    another.  When no value of the document has both fields empty (and
    the header file, if one is named, exists), resolution succeeds and
    the definition that goes on to the template holds every value,
    resolved on its own, whatever the serialized forms are: alike up to
    letter case, or equal. *)
Theorem resolution_checks_no_uniqueness (args : argsData) (bs : string)
    (doc : EnumData) :
  os_ReadFile (args_InputPath args) = (bs, None) ->
  yaml_Unmarshal bs zeroEnum = (doc, None) ->
  Forall (fun value =>
            stringer_IsEmpty (Name value)
            && stringer_IsEmpty (Serialized value) = false) (Values doc) ->
  (HeaderFrom doc <> "" -> os_Stat (HeaderFrom doc) = None) ->
  exists enum,
    Main.main args = Emit enum
    /\ Values enum
       = map (fun value => fst (Main.processEnum_value 0 value)) (Values doc).
Proof.
  intros Hread Hdoc Hvalid Hstat.
  pose proof (newer_values_valid (Values doc) 0 Hvalid) as Hloop.
  destruct (newer_processEnum_loop_ok args zeroEnum bs doc _
              Hread Hdoc Hloop Hstat) as [Herr Hvalues].
  unfold Main.main.
  destruct (run (Main.processEnum args) zeroEnum) as [e r].
  simpl in Herr, Hvalues. subst r. exists e. split; [reflexivity | exact Hvalues].
Qed.
End NewerResolutionClaims.

Lemma invalid_value_aborts_sample :
  exists j w,
    j <= 2
    /\ enumer.Values Reference.incomplete !! j = Some w
    /\ @stringer_IsEmpty Reference.imports (enumer.Name w)
       && @stringer_IsEmpty Reference.imports (enumer.Serialized w) = true
    /\ ((forall k x, k < 2 -> enumer.Values Reference.incomplete !! k = Some x ->
           @stringer_IsEmpty Reference.imports (enumer.Name x)
           && @stringer_IsEmpty Reference.imports (enumer.Serialized x)
           = false) -> j = 2)
    /\ snd (Generator.run
              (@Main.processEnum (Reference.os Reference.incomplete)
                 Reference.imports Reference.args) Generator.zeroEnum)
       = Some (errorString ("invalid values[" +:+ pretty j
                            +:+ "] name or serialized value"))
    /\ @Main.main (Reference.os Reference.incomplete) Reference.imports
         Reference.args
       = Generator.Exit1 ("invalid values[" +:+ pretty j
                          +:+ "] name or serialized value")
    /\ @Main.main (Reference.os Reference.incomplete) Reference.imports
         Reference.args
       = Generator.Exit1 "invalid values[2] name or serialized value".
Proof.
  destruct (@invalid_value_aborts (Reference.os Reference.incomplete)
              Reference.imports Reference.args "" Reference.incomplete 2
              (Reference.value "" "" []) eq_refl eq_refl eq_refl eq_refl
              eq_refl) as (j & w & A & B & C & D & E & F).
  exists j, w.
  split; [exact A|]. split; [exact B|]. split; [exact C|].
  split; [exact D|]. split; [exact E|]. split; [exact F | reflexivity].
Defined.

Lemma resolution_checks_no_uniqueness_sample :
  exists enum,
    @Main.main (Reference.os Reference.collision) Reference.imports
      Reference.args = Generator.Emit enum
    /\ enumer.Values enum
       = map (fun value =>
                fst (@Main.processEnum_value Reference.imports 0 value))
           (enumer.Values Reference.collision).
Proof.
  apply (@resolution_checks_no_uniqueness (Reference.os Reference.collision)
           Reference.imports Reference.args "" Reference.collision).
  - reflexivity.
  - reflexivity.
  - repeat constructor.
  - intros Hf. exfalso. apply Hf. reflexivity.
Defined.

(** C2 as stated fails: the document with the serialized forms "Active" and
    "active", alike up to letter case, resolves without error and both
    values go on to the template. *)
Lemma case_collision_resolves :
  @GoStrings.ToLower Reference.unicode "Active"
  = @GoStrings.ToLower Reference.unicode "active"
  /\ map enumer.Serialized (enumer.Values Reference.collision)
     = ["Active"; "active"]
  /\ snd (Generator.run
            (@Main.processEnum (Reference.os Reference.collision)
               Reference.imports Reference.args) Generator.zeroEnum) = None
  /\ exists enum,
       @Main.main (Reference.os Reference.collision) Reference.imports
         Reference.args = Generator.Emit enum
       /\ enumer.Values enum
          = [Reference.value "Active" "Active" [];
             Reference.value "Active" "active" []].
Proof.
  split; [reflexivity|]. split; [reflexivity|]. split; [reflexivity|].
  eexists. split; vm_compute; reflexivity.
Qed.

Section OlderResolution.
Import enumer Generator.
Context `{OS} `{Imports}.

(** Once the configuration is read and the converters are found,
    [processEnum] runs the loop with them on the values of the document;
    what the loop leaves is what [processEnum] leaves, and an error of the
    loop is its result. *)
Lemma older_processEnum_loop args enum0 bs doc typeConverter valueConverter :
  os_ReadFile (args_InputPath args) = (bs, None) ->
  yaml_Unmarshal bs enum0 = (doc, None) ->
  MainOlder.typeConverterFor doc = ret typeConverter ->
  MainOlder.valueConverterFor doc = ret valueConverter ->
  Values (fst (run (MainOlder.processEnum args) enum0))
  = fst (MainOlder.processEnum_values typeConverter valueConverter 0 (Values doc))
  /\ (forall err,
        snd (MainOlder.processEnum_values typeConverter valueConverter 0
               (Values doc)) = Some err ->
        snd (run (MainOlder.processEnum args) enum0) = Some err).
Proof.
  intros Hread Hdoc Htc Hvc.
  unfold MainOlder.typeConverterFor in Htc.
  unfold MainOlder.valueConverterFor in Hvc.
  unfold run, MainOlder.processEnum, bind, get, when, modify,
    MainOlder.typeConverterFor, MainOlder.valueConverterFor.
  rewrite Hread, Hdoc.
  destruct (MainOlder.processEnum_values typeConverter valueConverter 0
              (Values doc)) as [values [err|]] eqn:Hloop.
  - destruct (args_SkipFormat args), (args_Debug args); cbn;
      destruct (String.eqb (OutputPath doc) ""); cbn;
      destruct (String.eqb (Package doc) ""); cbn;
      rewrite Htc; cbn;
      destruct (String.eqb (Type' doc) ""); cbn;
      destruct (String.eqb (Struct doc) ""); cbn;
      rewrite Hvc; cbn; rewrite Hloop; cbn;
      (split; [reflexivity | intros e E; exact E]).
  - destruct (args_SkipFormat args), (args_Debug args); cbn;
      destruct (String.eqb (OutputPath doc) ""); cbn;
      destruct (String.eqb (Package doc) ""); cbn;
      rewrite Htc; cbn;
      destruct (String.eqb (Type' doc) ""); cbn;
      destruct (String.eqb (Struct doc) ""); cbn;
      rewrite Hvc; cbn; rewrite Hloop; cbn;
      (split; [|intros e E; discriminate E]);
      destruct (String.eqb (Header doc) ""); cbn;
      destruct (String.eqb (HeaderFrom doc) ""); cbn;
      try destruct (os_Stat (HeaderFrom doc)); cbn;
      destruct (args_Overwrite args); cbn; reflexivity.
Qed.
End OlderResolution.

Section ConversionClaims.
Import enumer Generator.
Context `{Imports}.

(** C4, as the code has it, for a value with an empty name and a serialized
    form.  Older generator: the name becomes the value converter's image of
    the serialized form with symbols, then spaces, removed; the serialized
    form and the [ParseFrom] entries stay; the type converter plays no
    part; and the value converter is [passthrough] when the document names
    none.  src/cmd/enumer/main.go has no converter to configure: the name
    becomes the phrase-to-pascal conversion of the serialized form with its
    non-language characters replaced by spaces; the serialized form
    stays. *)
Theorem name_from_serialized (typeConverter valueConverter : string -> string)
    (i : nat) (value : EnumValue) :
  stringer_IsEmpty (Name value) = true ->
  stringer_IsEmpty (Serialized value) = false ->
  (MainOlder.processEnum_value typeConverter valueConverter i value
   = ({| Name := stringer_RemoveSpace
                   (stringer_RemoveSymbols (valueConverter (Serialized value)));
         Serialized := Serialized value;
         ParseFrom := ParseFrom value |}, None)
   /\ (forall typeConverter',
         MainOlder.processEnum_value typeConverter' valueConverter i value
         = MainOlder.processEnum_value typeConverter valueConverter i value)
   /\ (forall enum,
         stringer_IsEmpty (Serialize_Value (Serialize enum)) = true ->
         MainOlder.valueConverterFor enum = ret MainOlder.passthrough))
  /\ (stringer_IsDefined (Serialized value) = true ->
      Main.processEnum_value i value
      = ({| Name := caser_Convert
                      (stringer_ReplaceNonLanguageCharacters
                         (Serialized value) " " "_")
                      CaseTypes_Phrase CaseTypes_Pascal;
            Serialized := Serialized value;
            ParseFrom := ParseFrom value |}, None)).
Proof.
  intros Hn Hs. split; [split; [|split]|].
  - unfold MainOlder.processEnum_value. rewrite Hn, Hs. reflexivity.
  - intros tc'. unfold MainOlder.processEnum_value. rewrite Hn, Hs.
    reflexivity.
  - intros enum He. unfold MainOlder.valueConverterFor. rewrite He.
    reflexivity.
  - intros Hd. unfold Main.processEnum_value. rewrite Hn, Hs, Hd.
    reflexivity.
Qed.

(** C5, as the code has it, for a value with a name and an empty
    serialized form.  Older generator: the serialized form becomes the
    type converter's image of the name, nothing done to it afterwards, and
    the name stays exactly as written; the type converter is
    phrase-to-pascal when the document names none.
    src/cmd/enumer/main.go has no converter to configure: the serialized
    form becomes the pascal-to-kebab-lower conversion of the name with its
    non-language characters removed, and the name loses its non-language
    characters, then its spaces. *)
Theorem serialized_from_name (typeConverter valueConverter : string -> string)
    (i : nat) (value : EnumValue) :
  stringer_IsEmpty (Name value) = false ->
  stringer_IsEmpty (Serialized value) = true ->
  (MainOlder.processEnum_value typeConverter valueConverter i value
   = ({| Name := Name value;
         Serialized := typeConverter (Name value);
         ParseFrom := ParseFrom value |}, None)
   /\ (forall enum,
         Serialize_Type (Serialize enum) = "" ->
         MainOlder.typeConverterFor enum = ret caser_PhraseToPascal))
  /\ (stringer_IsDefined (Name value) = true ->
      Main.processEnum_value i value
      = ({| Name := stringer_RemoveSpace
                      (stringer_RemoveNonLanguageCharacters (Name value) "_");
            Serialized := caser_PascalToKebabLower
                            (stringer_RemoveNonLanguageCharacters
                               (Name value) "_");
            ParseFrom := ParseFrom value |}, None)).
Proof.
  intros Hn Hs. split; [split|].
  - unfold MainOlder.processEnum_value. rewrite Hn, Hs. reflexivity.
  - intros enum He. unfold MainOlder.typeConverterFor. rewrite He.
    reflexivity.
  - intros Hd. unfold Main.processEnum_value. rewrite Hn, Hs, Hd.
    reflexivity.
Qed.
End ConversionClaims.

Lemma name_from_serialized_sample :
  @MainOlder.processEnum_value Reference.imports
    (@caser_PhraseToPascal Reference.imports) MainOlder.passthrough 0
    Reference.onlySerialized
  = (Reference.value "done" "done" ["complete"; "finished"], None)
  /\ @Main.processEnum_value Reference.imports 0 Reference.onlySerialized
     = (Reference.value "Done" "done" ["complete"; "finished"], None).
Proof.
  destruct (@name_from_serialized Reference.imports
              (@caser_PhraseToPascal Reference.imports) MainOlder.passthrough
              0 Reference.onlySerialized eq_refl eq_refl)
    as ((A & _ & _) & B).
  split; [exact A | exact (B eq_refl)].
Defined.

(** C4 as stated fails on src/cmd/enumer/main.go: for the serialized form
    "done" and no converter configured, the statement gives the name "done"
    (the passthrough image, stripped), the generator the name "Done". *)
Lemma name_is_not_the_stripped_passthrough :
  @stringer_RemoveSpace Reference.imports
    (@stringer_RemoveSymbols Reference.imports
       (MainOlder.passthrough (enumer.Serialized Reference.onlySerialized)))
  = "done"
  /\ exists enum,
       @Main.main (Reference.os (Reference.document [Reference.onlySerialized]))
         Reference.imports Reference.args = Generator.Emit enum
       /\ map enumer.Name (enumer.Values enum) = ["Done"].
Proof.
  split; [reflexivity|]. eexists. split; vm_compute; reflexivity.
Qed.

Lemma serialized_from_name_sample :
  @MainOlder.processEnum_value Reference.imports
    (@caser_PhraseToPascal Reference.imports) MainOlder.passthrough 0
    Reference.spacedName
  = (Reference.value "In Progress" "InProgress" [], None)
  /\ @Main.processEnum_value Reference.imports 0 Reference.onlyName
     = (Reference.value "InProgress" "in-progress" [], None).
Proof.
  destruct (@serialized_from_name Reference.imports
              (@caser_PhraseToPascal Reference.imports) MainOlder.passthrough
              0 Reference.spacedName eq_refl eq_refl) as ((A & _) & _).
  destruct (@serialized_from_name Reference.imports
              (@caser_PhraseToPascal Reference.imports) MainOlder.passthrough
              0 Reference.onlyName eq_refl eq_refl) as (_ & B).
  split; [exact A | exact (B eq_refl)].
Defined.

(** C5 as stated fails both ways.  On src/cmd/enumer/main.go the name
    "InProgress" gets the serialized form "in-progress", not its
    phrase-to-pascal image "InProgress"; in the older generator the name
    "In Progress" stays as written, spaces included. *)
Lemma serialized_is_not_phrase_to_pascal_nor_name_normalized :
  @caser_PhraseToPascal Reference.imports (enumer.Name Reference.onlyName)
  = "InProgress"
  /\ (exists enum,
        @Main.main (Reference.os (Reference.document [Reference.onlyName]))
          Reference.imports Reference.args = Generator.Emit enum
        /\ map enumer.Serialized (enumer.Values enum) = ["in-progress"])
  /\ @stringer_RemoveSpace Reference.imports
       (@stringer_RemoveSymbols Reference.imports
          (enumer.Name Reference.spacedName)) = "InProgress"
  /\ (exists enum,
        @MainOlder.main (Reference.os (Reference.document [Reference.spacedName]))
          Reference.imports Reference.args = Generator.Emit enum
        /\ map enumer.Name (enumer.Values enum) = ["In Progress"]).
Proof.
  split; [reflexivity|].
  split; [eexists; split; vm_compute; reflexivity|].
  split; [reflexivity|].
  eexists; split; vm_compute; reflexivity.
Qed.

(** * Further properties of the code *)

(** ** [IsEq] on ASCII strings *)

Section IsEqAlgebra.
Import GoStrings.

Ltac each_byte c :=
  destruct c as [[] [] [] [] [] [] [] []]; vm_compute; reflexivity.

Lemma toLowerByte_ascii c : isASCIIByte (toLowerByte c) = isASCIIByte c.
Proof. each_byte c. Qed.

Lemma toUpperByte_ascii c : isASCIIByte (toUpperByte c) = isASCIIByte c.
Proof. each_byte c. Qed.

Lemma toLowerByte_lower c : toLowerByte (toLowerByte c) = toLowerByte c.
Proof. each_byte c. Qed.

Lemma toLowerByte_upper c : toLowerByte (toUpperByte c) = toLowerByte c.
Proof. each_byte c. Qed.

Lemma mapBytes_ascii f s :
  (forall c, isASCIIByte (f c) = isASCIIByte c) ->
  isASCII (mapBytes f s) = isASCII s.
Proof.
  intros Hf. unfold isASCII. induction s as [|c s IH]; simpl; [reflexivity|].
  rewrite Hf, IH. reflexivity.
Qed.

Lemma mapBytes_compose f g h s :
  (forall c, f (g c) = h c) -> mapBytes f (mapBytes g s) = mapBytes h s.
Proof.
  intros E. induction s as [|c s IH]; simpl; [reflexivity|].
  rewrite E, IH. reflexivity.
Qed.

Context `{Unicode}.

Lemma ToLower_keeps_ascii s : isASCII s = true -> isASCII (ToLower s) = true.
Proof.
  intros E. rewrite (ToLower_ascii s E), mapBytes_ascii; [exact E|].
  apply toLowerByte_ascii.
Qed.

Lemma ToUpper_keeps_ascii s : isASCII s = true -> isASCII (ToUpper s) = true.
Proof.
  intros E. rewrite (ToUpper_ascii s E), mapBytes_ascii; [exact E|].
  apply toUpperByte_ascii.
Qed.

Lemma ToLower_ToLower s : isASCII s = true -> ToLower (ToLower s) = ToLower s.
Proof.
  intros E. rewrite (ToLower_ascii _ (ToLower_keeps_ascii s E)).
  rewrite (ToLower_ascii s E). apply mapBytes_compose, toLowerByte_lower.
Qed.

Lemma ToLower_ToUpper s : isASCII s = true -> ToLower (ToUpper s) = ToLower s.
Proof.
  intros E. rewrite (ToLower_ascii _ (ToUpper_keeps_ascii s E)).
  rewrite (ToUpper_ascii s E), (ToLower_ascii s E).
  apply mapBytes_compose, toLowerByte_upper.
Qed.

(** On ASCII strings [IsEq] compares the lower-cased forms. *)
Lemma IsEq_ascii_lower a b :
  isASCII a = true -> isASCII b = true ->
  (enumer.IsEq a b = true <-> ToLower a = ToLower b).
Proof.
  intros Ha Hb. rewrite (IsEq_ascii a b Ha Hb). split.
  - intros [-> | E]; [reflexivity | exact E].
  - intros E. right. exact E.
Qed.

Lemma IsEq_ascii_bool a b :
  isASCII a = true -> isASCII b = true ->
  enumer.IsEq a b = String.eqb (ToLower a) (ToLower b).
Proof.
  intros Ha Hb. apply eq_true_iff_eq.
  rewrite (IsEq_ascii_lower a b Ha Hb), String.eqb_eq. reflexivity.
Qed.

(** X1: on ASCII strings [IsEq] is an equivalence: reflexive, symmetric and
    transitive. *)
Theorem IsEq_equivalence a b c :
  isASCII a = true -> isASCII b = true -> isASCII c = true ->
  enumer.IsEq a a = true
  /\ enumer.IsEq a b = enumer.IsEq b a
  /\ (enumer.IsEq a b = true -> enumer.IsEq b c = true ->
      enumer.IsEq a c = true).
Proof.
  intros Ha Hb Hc. split; [apply IsEq_refl|]. split.
  - rewrite (IsEq_ascii_bool a b Ha Hb), (IsEq_ascii_bool b a Hb Ha).
    apply String.eqb_sym.
  - rewrite (IsEq_ascii_lower a b Ha Hb), (IsEq_ascii_lower b c Hb Hc),
      (IsEq_ascii_lower a c Ha Hc).
    congruence.
Qed.

(** X2: on ASCII strings the answer of [IsEq] does not change when either
    argument is put in lower or in upper case. *)
Theorem IsEq_recased a b :
  isASCII a = true -> isASCII b = true ->
  enumer.IsEq (ToLower a) b = enumer.IsEq a b
  /\ enumer.IsEq (ToUpper a) b = enumer.IsEq a b
  /\ enumer.IsEq a (ToLower b) = enumer.IsEq a b
  /\ enumer.IsEq a (ToUpper b) = enumer.IsEq a b.
Proof.
  intros Ha Hb.
  pose proof (ToLower_keeps_ascii a Ha) as Hla.
  pose proof (ToUpper_keeps_ascii a Ha) as Hua.
  pose proof (ToLower_keeps_ascii b Hb) as Hlb.
  pose proof (ToUpper_keeps_ascii b Hb) as Hub.
  rewrite (IsEq_ascii_bool _ b Hla Hb), (IsEq_ascii_bool _ b Hua Hb),
    (IsEq_ascii_bool a _ Ha Hlb), (IsEq_ascii_bool a _ Ha Hub),
    (IsEq_ascii_bool a b Ha Hb).
  rewrite (ToLower_ToLower a Ha), (ToLower_ToUpper a Ha),
    (ToLower_ToLower b Hb), (ToLower_ToUpper b Hb).
  repeat split; reflexivity.
Qed.
End IsEqAlgebra.

Lemma IsEq_equivalence_sample :
  @enumer.IsEq Reference.unicode "Done" "Done" = true
  /\ @enumer.IsEq Reference.unicode "Done" "DONE"
     = @enumer.IsEq Reference.unicode "DONE" "Done"
  /\ (@enumer.IsEq Reference.unicode "Done" "DONE" = true ->
      @enumer.IsEq Reference.unicode "DONE" "done" = true ->
      @enumer.IsEq Reference.unicode "Done" "done" = true).
Proof.
  apply (@IsEq_equivalence Reference.unicode "Done" "DONE" "done");
    reflexivity.
Defined.

Lemma IsEq_recased_sample :
  @enumer.IsEq Reference.unicode (@GoStrings.ToLower Reference.unicode "In-Progress") "in-PROGRESS"
  = @enumer.IsEq Reference.unicode "In-Progress" "in-PROGRESS"
  /\ @enumer.IsEq Reference.unicode (@GoStrings.ToUpper Reference.unicode "In-Progress") "in-PROGRESS"
     = @enumer.IsEq Reference.unicode "In-Progress" "in-PROGRESS"
  /\ @enumer.IsEq Reference.unicode "In-Progress" (@GoStrings.ToLower Reference.unicode "in-PROGRESS")
     = @enumer.IsEq Reference.unicode "In-Progress" "in-PROGRESS"
  /\ @enumer.IsEq Reference.unicode "In-Progress" (@GoStrings.ToUpper Reference.unicode "in-PROGRESS")
     = @enumer.IsEq Reference.unicode "In-Progress" "in-PROGRESS".
Proof.
  apply (@IsEq_recased Reference.unicode "In-Progress" "in-PROGRESS");
    reflexivity.
Defined.

(** ** The decoders of package enumer *)

Section EnumerDecoders.
Context `{Driver} `{Json}.

Lemma Scan_cases value e parser r err :
  enumer.Scan value e parser = (r, err) ->
  (err <> None /\ r = e) \/ (err = None /\ exists s, parser s = (r, None)).
Proof.
  unfold enumer.Scan. destruct (isNil value).
  - intros [= <- <-]. left. split; [discriminate | reflexivity].
  - destruct (String_ConvertValue value) as [dv [cerr|]].
    + intros [= <- <-]. left. split; [discriminate | reflexivity].
    + destruct dv as [|s|b|p];
        try (intros [= <- <-]; left; split; [discriminate | reflexivity]).
      destruct (parser s) as [p [perr|]] eqn:P.
      * intros [= <- <-]. left. split; [discriminate | reflexivity].
      * intros [= <- <-]. right. split; [reflexivity|]. exists s. exact P.
Qed.

Lemma UnmarshalJSON_cases data e parser r err :
  enumerCodec.UnmarshalJSON data e parser = (r, err) ->
  (err <> None /\ r = e) \/ (err = None /\ exists s, parser s = (r, None)).
Proof.
  unfold enumerCodec.UnmarshalJSON.
  destruct (json_Unmarshal data) as [s [jerr|]].
  - intros [= <- <-]. left. split; [discriminate | reflexivity].
  - destruct (parser s) as [p [perr|]] eqn:P.
    + intros [= <- <-]. left. split; [discriminate | reflexivity].
    + intros [= <- <-]. right. split; [reflexivity|]. exists s. exact P.
Qed.

Lemma UnmarshalYAML_cases unmarshal e parser r err :
  enumerCodec.UnmarshalYAML unmarshal e parser = (r, err) ->
  (err <> None /\ r = e) \/ (err = None /\ exists s, parser s = (r, None)).
Proof.
  unfold enumerCodec.UnmarshalYAML.
  destruct (unmarshal "") as [s [uerr|]].
  - intros [= <- <-]. left. split; [discriminate | reflexivity].
  - destruct (parser s) as [p [perr|]] eqn:P.
    + intros [= <- <-]. left. split; [discriminate | reflexivity].
    + intros [= <- <-]. right. split; [reflexivity|]. exists s. exact P.
Qed.

(** X3: the three decoders of package enumer, [Scan], [UnmarshalJSON] and
    [UnmarshalYAML], change the value behind the pointer only on success:
    with an error the value is the one passed in, and without an error it is
    a value the parser returned without error. *)
Theorem decoders_store_on_success_only (value : any) (data : string)
    (unmarshal : string -> string * option error) (e : string)
    (parser : string -> string * option error) :
  (forall r err, enumer.Scan value e parser = (r, err) ->
     (err <> None /\ r = e) \/ (err = None /\ exists s, parser s = (r, None)))
  /\ (forall r err, enumerCodec.UnmarshalJSON data e parser = (r, err) ->
     (err <> None /\ r = e) \/ (err = None /\ exists s, parser s = (r, None)))
  /\ (forall r err, enumerCodec.UnmarshalYAML unmarshal e parser = (r, err) ->
     (err <> None /\ r = e) \/ (err = None /\ exists s, parser s = (r, None))).
Proof.
  split; [|split]; intros r err.
  - apply Scan_cases.
  - apply UnmarshalJSON_cases.
  - apply UnmarshalYAML_cases.
Qed.
End EnumerDecoders.

Lemma decoders_store_on_success_only_sample :
  ((None : option error) = None
   /\ exists s, @MainOlder.Parse Reference.unicode Reference.status s
                = ("done", None))
  /\ (Some (errorString "not a string") <> None /\ "open" = "open").
Proof.
  destruct (@decoders_store_on_success_only Reference.driver ReferenceIO.json
              (anyString "DONE") "" (fun s => (s, None)) "open"
              (@MainOlder.Parse Reference.unicode Reference.status))
    as (A & _).
  destruct (@decoders_store_on_success_only Reference.driver ReferenceIO.json
              (anyBytes "done") "" (fun s => (s, None)) "open"
              (@MainOlder.Parse Reference.unicode Reference.status))
    as (B & _).
  split.
  - destruct (A "done" None eq_refl) as [[N _] | G]; [destruct (N eq_refl)|].
    exact G.
  - destruct (B "open" (Some (errorString "not a string")) eq_refl)
      as [G | [N _]]; [exact G | discriminate N].
Defined.

(** ** The older companion: what [ParseFrom] returns *)

Section OlderCompanionMore.
Context `{Unicode} `{Driver} `{Json}.
Variable enum : enumer.EnumData.

Lemma find_split {A} (p : A -> bool) l w :
  find p l = Some w ->
  exists pre post,
    l = pre ++ w :: post /\ Forall (fun x => p x = false) pre /\ p w = true.
Proof.
  induction l as [|x l IH]; simpl; [discriminate|].
  destruct (p x) eqn:Px.
  - intros [= ->]. exists [], l. repeat split; [constructor | exact Px].
  - intros F. destruct (IH F) as (pre & post & -> & Hpre & Hw).
    exists (x :: pre), post. repeat split; [constructor; assumption | exact Hw].
Qed.

Lemma find_nothing {A} (p : A -> bool) l :
  find p l = None -> Forall (fun x => p x = false) l.
Proof.
  induction l as [|x l IH]; simpl; [constructor|].
  destruct (p x) eqn:Px; [discriminate|]. constructor; auto.
Qed.

Lemma older_ParseFrom_success v candidates w :
  MainOlder.ParseFrom enum v candidates = (w, None) ->
  exists pre post,
    candidates = pre ++ w :: post
    /\ Forall (fun c => enumer.IsEq v c = false) pre
    /\ enumer.IsEq v w = true.
Proof.
  unfold MainOlder.ParseFrom. rewrite older_loop_find.
  destruct (find (enumer.IsEq v) candidates) as [c|] eqn:F; simpl;
    [|discriminate].
  intros [= <-]. apply find_split, F.
Qed.

Lemma older_ParseFrom_failure v candidates found err :
  MainOlder.ParseFrom enum v candidates = (found, Some err) ->
  found = "" /\ err = MainOlder.newErr enum (anyString v) candidates
  /\ Forall (fun c => enumer.IsEq v c = false) candidates.
Proof.
  unfold MainOlder.ParseFrom. rewrite older_loop_find.
  destruct (find (enumer.IsEq v) candidates) as [c|] eqn:F; simpl;
    [discriminate|].
  intros [= <- <-]. repeat split. apply find_nothing, F.
Qed.

(** X4: in the older companion a success of [ParseFrom] names one of the
    candidates, one [IsEq] accepts while it rejects every candidate before
    it; a failure means [IsEq] rejects every candidate, and it returns the
    zero value with an error that wraps the companion's [Err]. *)
Theorem older_ParseFrom_outcomes (v : string) (candidates : list string) :
  (forall w,
     MainOlder.ParseFrom enum v candidates = (w, None) ->
     In w candidates
     /\ exists pre post,
          candidates = pre ++ w :: post
          /\ Forall (fun c => enumer.IsEq v c = false) pre
          /\ enumer.IsEq v w = true)
  /\ (forall found err,
        MainOlder.ParseFrom enum v candidates = (found, Some err) ->
        found = "" /\ Unwrap err = Some (MainOlder.Err enum)
        /\ Forall (fun c => enumer.IsEq v c = false) candidates).
Proof.
  split.
  - intros w E. destruct (older_ParseFrom_success v candidates w E)
      as (pre & post & -> & Hpre & Hw).
    split; [apply in_elt | exists pre, post; auto].
  - intros found err E.
    destruct (older_ParseFrom_failure v candidates found err E)
      as (-> & -> & Hall).
    repeat split. exact Hall.
Qed.

(** X5: [IsFrom] and [ParseFrom] over two candidate lists put end to end:
    [IsFrom] is the disjunction of the two answers; a success of [ParseFrom]
    on the first list stands, and after a failure on the first list the
    value returned is the one found in the second. *)
Theorem older_candidates_append (v : string) (l1 l2 : list string) :
  MainOlder.IsFrom v (l1 ++ l2) = MainOlder.IsFrom v l1 || MainOlder.IsFrom v l2
  /\ (forall w, MainOlder.ParseFrom enum v l1 = (w, None) ->
        MainOlder.ParseFrom enum v (l1 ++ l2) = (w, None))
  /\ (snd (MainOlder.ParseFrom enum v l1) <> None ->
      fst (MainOlder.ParseFrom enum v (l1 ++ l2))
      = fst (MainOlder.ParseFrom enum v l2)
      /\ (snd (MainOlder.ParseFrom enum v (l1 ++ l2)) = None
          <-> snd (MainOlder.ParseFrom enum v l2) = None)).
Proof.
  assert (F : find (enumer.IsEq v) (l1 ++ l2)
              = match find (enumer.IsEq v) l1 with
                | Some w => Some w
                | None => find (enumer.IsEq v) l2
                end).
  { induction l1 as [|x l1 IH]; simpl; [reflexivity|].
    destruct (enumer.IsEq v x); [reflexivity | exact IH]. }
  split; [|split].
  - rewrite !older_IsFrom_find, F.
    destruct (find (enumer.IsEq v) l1); reflexivity.
  - intros w. unfold MainOlder.ParseFrom. rewrite !older_loop_find, F.
    destruct (find (enumer.IsEq v) l1); simpl; [|discriminate].
    intros [= <-]. reflexivity.
  - unfold MainOlder.ParseFrom. rewrite !older_loop_find, F.
    destruct (find (enumer.IsEq v) l1); simpl; [intros N; destruct (N eq_refl)|].
    intros _. destruct (find (enumer.IsEq v) l2); simpl.
    + split; [reflexivity | split; reflexivity].
    + split; [reflexivity | split; discriminate].
Qed.

(** X6: through the older companion, a decoder that returns no error has
    stored one of the declared values; this holds for [Scan],
    [UnmarshalJSON] and [UnmarshalYAML]. *)
Theorem older_decoders_store_declared (value : any) (data : string)
    (unmarshal : string -> string * option error) (t r : string) :
  (MainOlder.Scan enum value t = (r, None) -> In r (MainOlder.Values enum))
  /\ (MainOlderMethods.UnmarshalJSON enum data t = (r, None) ->
      In r (MainOlder.Values enum))
  /\ (MainOlderMethods.UnmarshalYAML enum unmarshal t = (r, None) ->
      In r (MainOlder.Values enum)).
Proof.
  assert (P : forall s, MainOlder.Parse enum s = (r, None) ->
                        In r (MainOlder.Values enum)).
  { intros s E. apply older_ParseFrom_success in E
      as (pre & post & -> & _). apply in_elt. }
  split; [|split]; intros E.
  - apply Scan_cases in E as [[N _] | [_ [s Ps]]];
      [destruct (N eq_refl) | exact (P s Ps)].
  - apply UnmarshalJSON_cases in E as [[N _] | [_ [s Ps]]];
      [destruct (N eq_refl) | exact (P s Ps)].
  - apply UnmarshalYAML_cases in E as [[N _] | [_ [s Ps]]];
      [destruct (N eq_refl) | exact (P s Ps)].
Qed.

(** X7: round trips through the older companion.  For a declared value
    [x], with ASCII serialized forms that stay distinct when lower-cased:
    [Scan] of what [Value] returns gives [x] back when the driver's
    conversion hands a string over as it is; [UnmarshalJSON] gives [x] back
    from any text that decodes to its serialized form, such as what
    [MarshalJSON] returns when the JSON codec inverts itself on it; and
    [UnmarshalYAML] gives [x] back when the callback yields the string
    [MarshalYAML] returned. *)
Theorem older_codec_round_trips (x : enumer.EnumValue) (t : string) :
  In x (enumer.Values enum) ->
  Forall (fun y => GoStrings.isASCII (enumer.Serialized y) = true)
    (enumer.Values enum) ->
  (forall y, In y (enumer.Values enum) ->
     GoStrings.ToLower (enumer.Serialized y)
     = GoStrings.ToLower (enumer.Serialized x) ->
     enumer.Serialized y = enumer.Serialized x) ->
  (String_ConvertValue (anyString (enumer.Serialized x))
   = (anyString (enumer.Serialized x), None) ->
   MainOlder.Scan enum (fst (MainOlderMethods.Value (enumer.Serialized x))) t
   = (enumer.Serialized x, None))
  /\ (forall data,
        MainOlderMethods.MarshalJSON (enumer.Serialized x) = (data, None) ->
        json_Unmarshal data = (enumer.Serialized x, None) ->
        MainOlderMethods.UnmarshalJSON enum data t
        = (enumer.Serialized x, None))
  /\ (forall unmarshal,
        MainOlderMethods.MarshalYAML (enumer.Serialized x)
        = (anyString (enumer.Serialized x), None)
        /\ (unmarshal "" = (enumer.Serialized x, None) ->
            MainOlderMethods.UnmarshalYAML enum unmarshal t
            = (enumer.Serialized x, None))).
Proof.
  intros Hx Hascii Hdistinct.
  assert (P : MainOlder.Parse enum (enumer.Serialized x)
              = (enumer.Serialized x, None)).
  { apply older_Parse_value; try assumption; [|reflexivity].
    rewrite Forall_forall in Hascii. apply Hascii, list_elem_of_In, Hx. }
  split; [|split].
  - intros Hc. unfold MainOlder.Scan, enumer.Scan. simpl.
    rewrite Hc, P. reflexivity.
  - intros data _ Hu.
    unfold MainOlderMethods.UnmarshalJSON, enumerCodec.UnmarshalJSON.
    rewrite Hu, P. reflexivity.
  - intros unmarshal. split; [reflexivity|]. intros Hu.
    unfold MainOlderMethods.UnmarshalYAML, enumerCodec.UnmarshalYAML.
    rewrite Hu, P. reflexivity.
Qed.
End OlderCompanionMore.

Lemma older_ParseFrom_outcomes_sample :
  (In "open" ["done"; "open"]
   /\ exists pre post,
        ["done"; "open"] = pre ++ "open" :: post
        /\ Forall (fun c => @enumer.IsEq Reference.unicode "OPEN" c = false) pre
        /\ @enumer.IsEq Reference.unicode "OPEN" "open" = true)
  /\ Unwrap (@MainOlder.newErr Reference.status (anyString "closed")
               ["done"; "open"])
     = Some (MainOlder.Err Reference.status).
Proof.
  destruct (@older_ParseFrom_outcomes Reference.unicode Reference.status
              "OPEN" ["done"; "open"]) as (A & _).
  destruct (@older_ParseFrom_outcomes Reference.unicode Reference.status
              "closed" ["done"; "open"]) as (_ & B).
  split.
  - exact (A "open" eq_refl).
  - destruct (B "" _ eq_refl) as (_ & U & _). exact U.
Defined.

Lemma older_candidates_append_sample :
  @MainOlder.ParseFrom Reference.unicode Reference.status "DONE"
    (["done"] ++ ["open"]) = ("done", None)
  /\ fst (@MainOlder.ParseFrom Reference.unicode Reference.status "OPEN"
            (["done"] ++ ["open"]))
     = fst (@MainOlder.ParseFrom Reference.unicode Reference.status "OPEN"
              ["open"]).
Proof.
  destruct (@older_candidates_append Reference.unicode Reference.status
              "DONE" ["done"] ["open"]) as (_ & A & _).
  destruct (@older_candidates_append Reference.unicode Reference.status
              "OPEN" ["done"] ["open"]) as (_ & _ & B).
  split.
  - exact (A "done" eq_refl).
  - apply B. discriminate.
Defined.

Lemma older_decoders_store_declared_sample :
  In "done" (MainOlder.Values Reference.status).
Proof.
  destruct (@older_decoders_store_declared Reference.unicode Reference.driver
              ReferenceIO.json Reference.status (anyString "Done") ""
              (fun s => (s, None)) "open" "done") as (A & _).
  exact (A eq_refl).
Defined.

Lemma older_codec_round_trips_sample :
  @MainOlder.Scan Reference.unicode Reference.status Reference.driver
    (fst (MainOlderMethods.Value "done")) "open" = ("done", None)
  /\ @MainOlderMethods.UnmarshalJSON Reference.unicode ReferenceIO.json
       Reference.status
       (fst (@MainOlderMethods.MarshalJSON ReferenceIO.json "done")) "open"
     = ("done", None)
  /\ @MainOlderMethods.UnmarshalYAML Reference.unicode Reference.status
       (fun _ => ("done", None)) "open" = ("done", None).
Proof.
  destruct (@older_codec_round_trips Reference.unicode Reference.driver
              ReferenceIO.json Reference.status Reference.done "open")
    as (A & B & C).
  - left. reflexivity.
  - repeat constructor.
  - intros y [<- | [<- | []]]; vm_compute; intros E;
      [reflexivity | discriminate E].
  - split; [exact (A eq_refl)|]. split.
    + exact (B _ eq_refl eq_refl).
    + destruct (C (fun _ => ("done", None))) as [_ G]. exact (G eq_refl).
Defined.

(** ** The companion of src/cmd/enumer/main.go: the table and [Parse] *)

Section NewerCompanionMore.

Lemma fold_register_lookup l : forall d k m,
  fold_left Main.register l d !! k = Some m ->
  (exists y, In y l /\ enumer.Serialized y = k /\ m = Main.aliases y)
  \/ d !! k = Some m.
Proof.
  induction l as [|z l IH]; intros d k m E; simpl in E; [right; exact E|].
  destruct (IH _ _ _ E) as [(y & Hy & Ek & Em) | L].
  - left. exists y. split; [right; exact Hy | split; assumption].
  - unfold Main.register in L.
    destruct (string_dec (enumer.Serialized z) k) as [Ez | Nz].
    + subst k. rewrite lookup_insert_eq in L. injection L as <-.
      left. exists z. split; [left; reflexivity | split; reflexivity].
    + rewrite lookup_insert_ne in L by exact Nz. right. exact L.
Qed.

Lemma fold_register_present l : forall d k,
  In k (map enumer.Serialized l) ->
  exists m, fold_left Main.register l d !! k = Some m.
Proof.
  induction l as [|z l IH]; intros d k Hk; simpl; [destruct Hk|].
  destruct (in_dec string_dec k (map enumer.Serialized l)) as [Hin | Hout].
  - apply IH, Hin.
  - destruct Hk as [<- | Hk]; [|contradiction].
    rewrite fold_register_other by exact Hout.
    unfold Main.register. rewrite lookup_insert_eq. eauto.
Qed.

Lemma parseMap_key_iff enum k :
  Main.parseMap (Main.Ts enum) !! k <> None
  <-> In k (map enumer.Serialized (enumer.Values enum)).
Proof.
  rewrite init_parseMap_fold. split.
  - destruct (fold_left Main.register (enumer.Values enum) ∅ !! k)
      as [m|] eqn:L; [|intros N; destruct (N eq_refl)].
    intros _. destruct (fold_register_lookup _ _ _ _ L)
      as [(y & Hy & <- & _) | E].
    + apply in_map, Hy.
    + rewrite lookup_empty in E. discriminate E.
  - intros Hk. destruct (fold_register_present _ ∅ k Hk) as [m ->].
    discriminate.
Qed.

Lemma parseMap_entry_of enum k m :
  Main.parseMap (Main.Ts enum) !! k = Some m ->
  exists y, In y (enumer.Values enum) /\ enumer.Serialized y = k
            /\ m = enumer.Serialized y :: enumer.Name y :: enumer.ParseFrom y.
Proof.
  rewrite init_parseMap_fold. intros L.
  destruct (fold_register_lookup _ _ _ _ L) as [(y & Hy & Ek & Em) | E].
  - exists y. split; [exact Hy | split; [exact Ek | exact Em]].
  - rewrite lookup_empty in E. discriminate E.
Qed.

(** X8: the table [init()] builds has the serialized forms of the declared
    values as its keys, no other, and under each key the serialized form,
    the name and the [ParseFrom] entries of a declared value with that
    serialized form. *)
Theorem parseMap_keys_and_entries (enum : enumer.EnumData) (k : string) :
  (Main.parseMap (Main.Ts enum) !! k <> None
   <-> In k (map enumer.Serialized (enumer.Values enum)))
  /\ (forall m,
        Main.parseMap (Main.Ts enum) !! k = Some m ->
        exists y, In y (enumer.Values enum) /\ enumer.Serialized y = k
                  /\ m = enumer.Serialized y :: enumer.Name y
                           :: enumer.ParseFrom y).
Proof.
  split; [apply parseMap_key_iff | intros m; apply parseMap_entry_of].
Qed.

Lemma newer_Parse_first enum x rest s :
  enumer.Values enum = x :: rest ->
  exists y,
    In y (enumer.Values enum)
    /\ enumer.Serialized y = enumer.Serialized x
    /\ Main.Parse (Main.Ts enum) s
       = if existsb (String.eqb s) (Main.aliases y)
         then (enumer.Serialized x, None)
         else ("", Some (Main.errf (Main.Ts enum) (anyString s)
                           (map enumer.Serialized (enumer.Values enum)))).
Proof.
  intros V.
  assert (Hk : In (enumer.Serialized x)
                 (map enumer.Serialized (enumer.Values enum)))
    by (rewrite V; left; reflexivity).
  destruct (Main.parseMap (Main.Ts enum) !! enumer.Serialized x)
    as [m|] eqn:L;
    [|apply parseMap_key_iff in Hk; destruct (Hk L)].
  destruct (parseMap_entry_of enum _ m L) as (y & Hy & Ey & ->).
  exists y. split; [exact Hy|]. split; [exact Ey|].
  assert (Hitems : map enumer.Serialized (enumer.Values enum)
                   = [] ++ enumer.Serialized x :: map enumer.Serialized rest)
    by (rewrite V; reflexivity).
  pose proof (newer_loop_first (Main.Ts enum) s
                (map enumer.Serialized (enumer.Values enum)) []
                (enumer.Serialized x) (map enumer.Serialized rest) _
                (List.Forall_nil _) L) as P.
  rewrite <- Hitems in P.
  unfold Main.Parse, Main.ParseFrom, Main.Values.
  change (Main.members (Main.Ts enum))
    with (map enumer.Serialized (enumer.Values enum)).
  exact P.
Qed.

(** X9: in the companion of src/cmd/enumer/main.go the first declared
    value decides [Parse].  With [x] the first value: a success returns
    [x]; the serialized form of [x] is always parsed; and, the serialized
    forms being distinct, [Parse s] succeeds exactly when [s] is the
    serialized form, the name or a [ParseFrom] entry of [x], the entries of
    the later values playing no part. *)
Theorem newer_Parse_first_value_only (enum : enumer.EnumData)
    (x : enumer.EnumValue) (rest : list enumer.EnumValue) (s : string) :
  enumer.Values enum = x :: rest ->
  (forall found, Main.Parse (Main.Ts enum) s = (found, None) ->
     found = enumer.Serialized x)
  /\ Main.Parse (Main.Ts enum) (enumer.Serialized x)
     = (enumer.Serialized x, None)
  /\ (NoDup (map enumer.Serialized (enumer.Values enum)) ->
      (snd (Main.Parse (Main.Ts enum) s) = None
       <-> In s (enumer.Serialized x :: enumer.Name x :: enumer.ParseFrom x))).
Proof.
  intros V. split; [|split].
  - intros found. destruct (newer_Parse_first enum x rest s V)
      as (y & _ & _ & ->).
    destruct (existsb _ _); [intros [= <-]; reflexivity | discriminate].
  - destruct (newer_Parse_first enum x rest (enumer.Serialized x) V)
      as (y & _ & Ey & ->).
    unfold Main.aliases. simpl. rewrite Ey, String.eqb_refl. reflexivity.
  - intros Hnd. destruct (newer_Parse_first enum x rest s V)
      as (y & Hy & Ey & ->).
    assert (y = x) as ->.
    { rewrite V in Hy, Hnd. destruct Hy as [<- | Hy]; [reflexivity|].
      simpl in Hnd. apply NoDup_cons in Hnd as [Hx _].
      exfalso. apply Hx. rewrite <- Ey.
      apply list_elem_of_In, in_map, Hy. }
    rewrite <- existsb_eqb_In. unfold Main.aliases.
    destruct (existsb _ _); simpl; split; congruence.
Qed.
End NewerCompanionMore.

Lemma newer_Parse_first_value_only_sample :
  Main.Parse (Main.Ts Reference.status) "done" = ("done", None)
  /\ (snd (Main.Parse (Main.Ts Reference.status) "open") = None
      <-> In "open" ["done"; "Done"; "finished"]).
Proof.
  destruct (@newer_Parse_first_value_only Reference.status Reference.done
              [Reference.open] "open" eq_refl) as (_ & A & B).
  split; [exact A|]. apply B.
  change (NoDup ["done"; "open"]).
  apply NoDup_cons. split; [|apply NoDup_singleton].
  intros Hm. apply list_elem_of_In in Hm as [E | []]. discriminate E.
Defined.

(** ** The methods of src/cmd/enumer/main.go: decoding *)

Section NewerMethods.
Context `{Json} `{Driver}.

Lemma newer_Scan_cases Ts value t r err :
  MainMethods.Scan Ts value t = (r, err) ->
  (err <> None /\ r = t)
  \/ (err = None /\ exists s, Main.Parse Ts s = (r, None)).
Proof.
  unfold MainMethods.Scan. destruct (isNil value).
  - intros [= <- <-]. left. split; [discriminate | reflexivity].
  - destruct (String_ConvertValue value) as [dv [cerr|]].
    + intros [= <- <-]. left. split; [discriminate | reflexivity].
    + destruct dv as [|s|b|p];
        try (intros [= <- <-]; left; split; [discriminate | reflexivity]).
      destruct (Main.Parse Ts s) as [p [perr|]] eqn:P.
      * intros [= <- <-]. left. split; [discriminate | reflexivity].
      * intros [= <- <-]. right. split; [reflexivity|]. exists s. exact P.
Qed.

Lemma newer_UnmarshalJSON_cases Ts data t r err :
  MainMethods.UnmarshalJSON Ts data t = (r, err) ->
  (err <> None /\ r = t)
  \/ (err = None /\ exists s, Main.Parse Ts s = (r, None)).
Proof.
  unfold MainMethods.UnmarshalJSON.
  destruct (json_Unmarshal data) as [s [jerr|]].
  - intros [= <- <-]. left. split; [discriminate | reflexivity].
  - destruct (Main.Parse Ts s) as [p [perr|]] eqn:P.
    + intros [= <- <-]. left. split; [discriminate | reflexivity].
    + intros [= <- <-]. right. split; [reflexivity|]. exists s. exact P.
Qed.

Lemma newer_UnmarshalYAML_cases Ts unmarshal t r err :
  MainMethods.UnmarshalYAML Ts unmarshal t = (r, err) ->
  (err <> None /\ r = t)
  \/ (err = None /\ exists s, Main.Parse Ts s = (r, None)).
Proof.
  unfold MainMethods.UnmarshalYAML.
  destruct (unmarshal "") as [s [uerr|]].
  - intros [= <- <-]. left. split; [discriminate | reflexivity].
  - destruct (Main.Parse Ts s) as [p [perr|]] eqn:P.
    + intros [= <- <-]. left. split; [discriminate | reflexivity].
    + intros [= <- <-]. right. split; [reflexivity|]. exists s. exact P.
Qed.

(** X10: the decoders src/cmd/enumer/main.go emits ([Scan],
    [UnmarshalJSON], [UnmarshalYAML]) leave the receiver as it was when they
    return an error, and for an enumeration with at least one value a
    decoder that returns no error has stored the first declared value. *)
Theorem newer_decoders_store_first (enum : enumer.EnumData)
    (x : enumer.EnumValue) (rest : list enumer.EnumValue)
    (value : any) (data : string)
    (unmarshal : string -> string * option error) (t : string) :
  enumer.Values enum = x :: rest ->
  (forall r err, MainMethods.Scan (Main.Ts enum) value t = (r, err) ->
     (err <> None /\ r = t) \/ (err = None /\ r = enumer.Serialized x))
  /\ (forall r err,
        MainMethods.UnmarshalJSON (Main.Ts enum) data t = (r, err) ->
        (err <> None /\ r = t) \/ (err = None /\ r = enumer.Serialized x))
  /\ (forall r err,
        MainMethods.UnmarshalYAML (Main.Ts enum) unmarshal t = (r, err) ->
        (err <> None /\ r = t) \/ (err = None /\ r = enumer.Serialized x)).
Proof.
  intros V.
  assert (P : forall s r, Main.Parse (Main.Ts enum) s = (r, None) ->
                          r = enumer.Serialized x).
  { intros s r. destruct (newer_Parse_first enum x rest s V)
      as (y & _ & _ & ->).
    destruct (existsb _ _); [intros [= <-]; reflexivity | discriminate]. }
  split; [|split]; intros r err E.
  - apply newer_Scan_cases in E as [G | [-> [s Ps]]]; [left; exact G|].
    right. split; [reflexivity | exact (P s r Ps)].
  - apply newer_UnmarshalJSON_cases in E as [G | [-> [s Ps]]];
      [left; exact G|].
    right. split; [reflexivity | exact (P s r Ps)].
  - apply newer_UnmarshalYAML_cases in E as [G | [-> [s Ps]]];
      [left; exact G|].
    right. split; [reflexivity | exact (P s r Ps)].
Qed.
End NewerMethods.

Section NewerRoundTrip.
Context `{Json} `{Driver}.

(** X11: round trips through the companion of src/cmd/enumer/main.go.  The
    first declared value [x] comes back from [Scan] after [Value] (when the
    driver's conversion hands a string over as it is), from [UnmarshalJSON]
    on a text that decodes to its serialized form, and from [UnmarshalYAML]
    when the callback yields it.  A later value [y] does not, unless its
    serialized form is also an entry of [x]: the serialized forms being
    distinct, each of the three decoders returns an error that wraps [Err]
    and leaves the receiver as it was. *)
Theorem newer_round_trip_first_only (enum : enumer.EnumData)
    (x : enumer.EnumValue) (rest : list enumer.EnumValue) (t : string) :
  enumer.Values enum = x :: rest ->
  ((String_ConvertValue (anyString (enumer.Serialized x))
    = (anyString (enumer.Serialized x), None) ->
    MainMethods.Scan (Main.Ts enum)
      (fst (MainMethods.Value (enumer.Serialized x))) t
    = (enumer.Serialized x, None))
   /\ (forall data,
         json_Unmarshal data = (enumer.Serialized x, None) ->
         MainMethods.UnmarshalJSON (Main.Ts enum) data t
         = (enumer.Serialized x, None))
   /\ (forall unmarshal,
         unmarshal "" = (enumer.Serialized x, None) ->
         MainMethods.UnmarshalYAML (Main.Ts enum) unmarshal t
         = (enumer.Serialized x, None)))
  /\ (forall y,
        NoDup (map enumer.Serialized (enumer.Values enum)) ->
        In y rest ->
        ~ In (enumer.Serialized y)
            (enumer.Serialized x :: enumer.Name x :: enumer.ParseFrom x) ->
        exists err,
          Unwrap err = Some (Main.Err (Main.Ts enum))
          /\ (String_ConvertValue (anyString (enumer.Serialized y))
              = (anyString (enumer.Serialized y), None) ->
              MainMethods.Scan (Main.Ts enum)
                (fst (MainMethods.Value (enumer.Serialized y))) t
              = (t, Some err))
          /\ (forall data,
                json_Unmarshal data = (enumer.Serialized y, None) ->
                MainMethods.UnmarshalJSON (Main.Ts enum) data t
                = (t, Some err))
          /\ (forall unmarshal,
                unmarshal "" = (enumer.Serialized y, None) ->
                MainMethods.UnmarshalYAML (Main.Ts enum) unmarshal t
                = (t, Some err))).
Proof.
  intros V. split.
  - assert (P : Main.Parse (Main.Ts enum) (enumer.Serialized x)
                = (enumer.Serialized x, None)).
    { destruct (newer_Parse_first enum x rest (enumer.Serialized x) V)
        as (y & _ & Ey & ->).
      simpl. rewrite Ey, String.eqb_refl. reflexivity. }
    split; [|split].
    + intros Hc. unfold MainMethods.Scan. simpl. rewrite Hc, P. reflexivity.
    + intros data Hu. unfold MainMethods.UnmarshalJSON. rewrite Hu, P.
      reflexivity.
    + intros unmarshal Hu. unfold MainMethods.UnmarshalYAML. rewrite Hu, P.
      reflexivity.
  - intros y Hnd Hy Hout.
    destruct (newer_Parse_first enum x rest (enumer.Serialized y) V)
      as (z & Hz & Ez & P).
    assert (z = x) as ->.
    { rewrite V in Hz, Hnd. destruct Hz as [<- | Hz]; [reflexivity|].
      simpl in Hnd. apply NoDup_cons in Hnd as [Hx _].
      exfalso. apply Hx. rewrite <- Ez.
      apply list_elem_of_In, in_map, Hz. }
    assert (X : existsb (String.eqb (enumer.Serialized y)) (Main.aliases x)
                = false).
    { destruct (existsb _ _) eqn:X; [|reflexivity].
      exfalso. apply Hout. apply existsb_eqb_In in X. exact X. }
    rewrite X in P.
    exists (Main.errf (Main.Ts enum) (anyString (enumer.Serialized y))
              (map enumer.Serialized (enumer.Values enum))).
    split; [|split; [|split]].
    + reflexivity.
    + intros Hc. unfold MainMethods.Scan. simpl. rewrite Hc, P. reflexivity.
    + intros data Hu. unfold MainMethods.UnmarshalJSON. rewrite Hu, P.
      reflexivity.
    + intros unmarshal Hu. unfold MainMethods.UnmarshalYAML. rewrite Hu, P.
      reflexivity.
Qed.
End NewerRoundTrip.

Lemma newer_decoders_store_first_sample :
  ((None : option error) <> None /\ "done" = "open")
  \/ ((None : option error) = None /\ "done" = "done").
Proof.
  destruct (@newer_decoders_store_first ReferenceIO.json Reference.driver
              Reference.status Reference.done [Reference.open]
              (anyString "Done") "" (fun s => (s, None)) "open" eq_refl)
    as (A & _).
  exact (A "done" None eq_refl).
Defined.

Lemma newer_round_trip_first_only_sample :
  @MainMethods.Scan Reference.driver (Main.Ts Reference.status)
    (fst (MainMethods.Value "done")) "open" = ("done", None)
  /\ exists err,
       Unwrap err = Some (Main.Err (Main.Ts Reference.status))
       /\ @MainMethods.Scan Reference.driver (Main.Ts Reference.status)
            (fst (MainMethods.Value "open")) "done" = ("done", Some err).
Proof.
  destruct (@newer_round_trip_first_only ReferenceIO.json Reference.driver
              Reference.status Reference.done [Reference.open] "open" eq_refl)
    as ((A & _) & _).
  destruct (@newer_round_trip_first_only ReferenceIO.json Reference.driver
              Reference.status Reference.done [Reference.open] "done" eq_refl)
    as (_ & B).
  split; [exact (A eq_refl)|].
  destruct (B Reference.open) as (err & U & S & _).
  - change (NoDup ["done"; "open"]).
    apply NoDup_cons. split; [|apply NoDup_singleton].
    intros Hm. apply list_elem_of_In in Hm as [E | []]. discriminate E.
  - left. reflexivity.
  - intros [E | [E | [E | []]]]; discriminate E.
  - exists err. split; [exact U | exact (S eq_refl)].
Defined.

(** ** [processEnum] of src/cmd/enumer/main.go: the record it leaves *)

Section NewerState.
Import enumer Generator.
Context `{OS} `{Imports}.

Ltac newer_run_cases args doc :=
  destruct (args_SkipFormat args), (args_Debug args); cbn;
  destruct (String.eqb (OutputPath doc) ""); cbn;
  destruct (String.eqb (Package doc) ""); cbn;
  destruct (String.eqb (Type' doc) ""); cbn;
  destruct (String.eqb (Struct doc) ""); cbn.

(** The fields settled before and by the loop, whatever happens later. *)
Lemma newer_processEnum_state args enum0 bs doc :
  os_ReadFile (args_InputPath args) = (bs, None) ->
  yaml_Unmarshal bs enum0 = (doc, None) ->
  let enum := fst (run (Main.processEnum args) enum0) in
  InputPath enum = args_InputPath args
  /\ SkipFormat enum = args_SkipFormat args || SkipFormat doc
  /\ Debug enum = args_Debug args || Debug doc
  /\ OutputPath enum
     = (if String.eqb (OutputPath doc) ""
        then extentioner_Swap (args_InputPath args) ".yaml" ".go"
        else OutputPath doc)
  /\ Package enum
     = (if String.eqb (Package doc) ""
        then stringer_ReplaceInList
               (pather_Base (pather_Dir (OutputPath enum))) ["-"; " "] "_"
        else Package doc)
  /\ Type' enum
     = (if String.eqb (Type' doc) ""
        then caser_KebabToPascal
               (extentioner_Strip
                  (extentioner_Strip (pather_Base (OutputPath enum))))
        else Type' doc)
  /\ Struct enum
     = (if String.eqb (Struct doc) ""
        then pluralize_Plural (Type' enum)
        else Struct doc)
  /\ Values enum = fst (Main.processEnum_values 0 (Values doc))
  /\ Serialize enum = Serialize doc
  /\ HeaderFrom enum = HeaderFrom doc.
Proof.
  intros Hread Hdoc.
  unfold run, Main.processEnum, bind, get, when, modify, ret.
  rewrite Hread, Hdoc.
  destruct (Main.processEnum_values 0 (Values doc)) as [values [err|]] eqn:Hloop.
  - newer_run_cases args doc; rewrite Hloop; cbn; repeat split; reflexivity.
  - newer_run_cases args doc; rewrite Hloop; cbn;
      destruct (String.eqb (Header doc) ""); cbn;
      destruct (String.eqb (HeaderFrom doc) ""); cbn;
      try destruct (os_Stat (HeaderFrom doc)); cbn;
      destruct (args_Overwrite args); cbn; repeat split; reflexivity.
Qed.

(** The fields settled after the loop, when [processEnum] returns no
    error. *)
Lemma newer_processEnum_success_state args enum0 bs doc :
  os_ReadFile (args_InputPath args) = (bs, None) ->
  yaml_Unmarshal bs enum0 = (doc, None) ->
  snd (run (Main.processEnum args) enum0) = None ->
  let enum := fst (run (Main.processEnum args) enum0) in
  HeaderLines enum
  = (if negb (String.eqb (HeaderFrom doc) "") then stringer_Split bs LF
     else if negb (String.eqb (Header doc) "")
          then stringer_Split (Header doc) LF
          else Main.Header)
  /\ Header enum = Main.box (GoStrings.Join (HeaderLines enum) LF)
  /\ Overwrite enum = args_Overwrite args || Overwrite doc
  /\ (HeaderFrom doc <> "" -> os_Stat (HeaderFrom doc) = None).
Proof.
  intros Hread Hdoc.
  unfold run, Main.processEnum, bind, get, when, modify, ret.
  rewrite Hread, Hdoc.
  destruct (Main.processEnum_values 0 (Values doc)) as [values [err|]] eqn:Hloop.
  - newer_run_cases args doc; rewrite Hloop; cbn; discriminate.
  - newer_run_cases args doc; rewrite Hloop; cbn;
      destruct (String.eqb (Header doc) ""); cbn;
      destruct (String.eqb_spec (HeaderFrom doc) ""); cbn;
      try destruct (os_Stat (HeaderFrom doc)); cbn;
      destruct (args_Overwrite args); cbn; intros E;
      try discriminate E;
      repeat split; try reflexivity; intros; congruence.
Qed.

(** What the loop does to one value does not depend on its index, and
    every element the loop leaves is the value of the document at that
    index, resolved or not yet. *)
Lemma newer_value_index i value :
  fst (Main.processEnum_value i value) = fst (Main.processEnum_value 0 value).
Proof.
  unfold Main.processEnum_value.
  repeat match goal with
         | |- context [if ?b then _ else _] => destruct b
         end; reflexivity.
Qed.

Lemma newer_values_pointwise values : forall i0 i v,
  values !! i = Some v ->
  exists v',
    fst (Main.processEnum_values i0 values) !! i = Some v'
    /\ (v' = v \/ v' = fst (Main.processEnum_value 0 v)).
Proof.
  induction values as [|x rest IH]; intros i0 i v Hi; [discriminate Hi|].
  simpl. destruct (Main.processEnum_value i0 x) as [x' [err|]] eqn:Px.
  - simpl. exists v. split; [exact Hi | left; reflexivity].
  - destruct (Main.processEnum_values (S i0) rest) as [rest' err] eqn:Pr.
    destruct i as [|i]; simpl in Hi |- *.
    + injection Hi as <-. exists x'. split; [reflexivity|]. right.
      rewrite <- (newer_value_index i0 x), Px. reflexivity.
    + destruct (IH (S i0) i v Hi) as (v' & Hv' & Hor).
      rewrite Pr in Hv'. exists v'. split; assumption.
Qed.

Lemma newer_values_length values : forall i0,
  length (fst (Main.processEnum_values i0 values)) = length values.
Proof.
  induction values as [|x rest IH]; intros i0; [reflexivity|].
  simpl. destruct (Main.processEnum_value i0 x) as [x' [err|]]; [reflexivity|].
  specialize (IH (S i0)).
  destruct (Main.processEnum_values (S i0) rest) as [rest' err].
  simpl in *. rewrite IH. reflexivity.
Qed.

Lemma newer_value_ParseFrom value :
  ParseFrom (fst (Main.processEnum_value 0 value)) = ParseFrom value.
Proof.
  unfold Main.processEnum_value.
  repeat match goal with
         | |- context [if ?b then _ else _] => destruct b
         end; reflexivity.
Qed.

Lemma newer_value_Serialized value :
  stringer_IsEmpty (Serialized value) = false ->
  Serialized (fst (Main.processEnum_value 0 value)) = Serialized value.
Proof.
  intros E. unfold Main.processEnum_value. rewrite E, !andb_false_r.
  repeat match goal with
         | |- context [if ?b then _ else _] => destruct b
         end; reflexivity.
Qed.

(** X12: once the configuration is read, [processEnum] of
    src/cmd/enumer/main.go adds, drops and moves no value, whether it
    returns an error or not: the list it leaves has the length of the
    document's, with at every index the same [ParseFrom] entries and, where
    the document gives a serialized form, that serialized form
    unchanged. *)
Theorem newer_resolution_keeps_values_in_place (args : argsData)
    (enum0 doc : EnumData) (bs : string) :
  os_ReadFile (args_InputPath args) = (bs, None) ->
  yaml_Unmarshal bs enum0 = (doc, None) ->
  length (Values (fst (run (Main.processEnum args) enum0)))
  = length (Values doc)
  /\ (forall i v,
        Values doc !! i = Some v ->
        exists v',
          Values (fst (run (Main.processEnum args) enum0)) !! i = Some v'
          /\ ParseFrom v' = ParseFrom v
          /\ (stringer_IsEmpty (Serialized v) = false ->
              Serialized v' = Serialized v)).
Proof.
  intros Hread Hdoc.
  destruct (newer_processEnum_state args enum0 bs doc Hread Hdoc)
    as (_ & _ & _ & _ & _ & _ & _ & -> & _).
  split; [apply newer_values_length|].
  intros i v Hi.
  destruct (newer_values_pointwise (Values doc) 0 i v Hi) as (v' & Hv' & Hor).
  exists v'. split; [exact Hv'|].
  destruct Hor as [-> | ->].
  - split; [reflexivity | intros _; reflexivity].
  - split; [apply newer_value_ParseFrom | apply newer_value_Serialized].
Qed.

(** X13: once the configuration is read, what the document sets wins and
    what it leaves empty is derived, whether [processEnum] then returns an
    error or not: the output path from the input path, the package from
    the output path's directory, the type from the output file's name, the
    companion name from the type.  The serialize settings and the
    header-from path are left as read. *)
Theorem newer_settings_kept_or_derived (args : argsData)
    (enum0 doc : EnumData) (bs : string) :
  os_ReadFile (args_InputPath args) = (bs, None) ->
  yaml_Unmarshal bs enum0 = (doc, None) ->
  let enum := fst (run (Main.processEnum args) enum0) in
  OutputPath enum
  = (if String.eqb (OutputPath doc) ""
     then extentioner_Swap (args_InputPath args) ".yaml" ".go"
     else OutputPath doc)
  /\ Package enum
     = (if String.eqb (Package doc) ""
        then stringer_ReplaceInList
               (pather_Base (pather_Dir (OutputPath enum))) ["-"; " "] "_"
        else Package doc)
  /\ Type' enum
     = (if String.eqb (Type' doc) ""
        then caser_KebabToPascal
               (extentioner_Strip
                  (extentioner_Strip (pather_Base (OutputPath enum))))
        else Type' doc)
  /\ Struct enum
     = (if String.eqb (Struct doc) ""
        then pluralize_Plural (Type' enum)
        else Struct doc)
  /\ Serialize enum = Serialize doc
  /\ HeaderFrom enum = HeaderFrom doc.
Proof.
  intros Hread Hdoc enum.
  destruct (newer_processEnum_state args enum0 bs doc Hread Hdoc)
    as (_ & _ & _ & A & B & C & D & _ & E & F).
  repeat split; assumption.
Qed.

(** X14: the command line can switch the format skipping, the debugging
    and the overwriting on, never off, and the input path recorded is the
    one of the command line, whatever the document says. *)
Theorem newer_flags_switch_on_only (args : argsData)
    (enum0 doc : EnumData) (bs : string) :
  os_ReadFile (args_InputPath args) = (bs, None) ->
  yaml_Unmarshal bs enum0 = (doc, None) ->
  let enum := fst (run (Main.processEnum args) enum0) in
  InputPath enum = args_InputPath args
  /\ SkipFormat enum = args_SkipFormat args || SkipFormat doc
  /\ Debug enum = args_Debug args || Debug doc
  /\ (snd (run (Main.processEnum args) enum0) = None ->
      Overwrite enum = args_Overwrite args || Overwrite doc).
Proof.
  intros Hread Hdoc enum.
  destruct (newer_processEnum_state args enum0 bs doc Hread Hdoc)
    as (A & B & C & _).
  repeat split; try assumption.
  intros Hok.
  destruct (newer_processEnum_success_state args enum0 bs doc Hread Hdoc Hok)
    as (_ & _ & G & _).
  exact G.
Qed.

(** X15: the header of a successful [processEnum].  When the document names
    a header-from file, that file must exist, but the lines boxed are those
    of the configuration file that was read, and the document's own header
    is not used; otherwise the lines are those of the document's header,
    or the default lines when it has none.  The header is the box around
    the lines. *)
Theorem newer_header_lines (args : argsData) (enum0 doc : EnumData)
    (bs : string) :
  os_ReadFile (args_InputPath args) = (bs, None) ->
  yaml_Unmarshal bs enum0 = (doc, None) ->
  snd (run (Main.processEnum args) enum0) = None ->
  let enum := fst (run (Main.processEnum args) enum0) in
  (HeaderFrom doc <> "" ->
   os_Stat (HeaderFrom doc) = None
   /\ HeaderLines enum = stringer_Split bs LF)
  /\ (HeaderFrom doc = "" -> Header doc <> "" ->
      HeaderLines enum = stringer_Split (Header doc) LF)
  /\ (HeaderFrom doc = "" -> Header doc = "" ->
      HeaderLines enum = Main.Header)
  /\ Header enum = Main.box (GoStrings.Join (HeaderLines enum) LF).
Proof.
  intros Hread Hdoc Hok enum.
  destruct (newer_processEnum_success_state args enum0 bs doc Hread Hdoc Hok)
    as (L & B & _ & S).
  fold enum in L, B.
  split; [|split; [|split]].
  - intros Hf. split; [exact (S Hf)|].
    rewrite L. apply String.eqb_neq in Hf. rewrite Hf. reflexivity.
  - intros Hf Hh. rewrite L, Hf. apply String.eqb_neq in Hh. rewrite Hh.
    reflexivity.
  - intros Hf Hh. rewrite L, Hf, Hh. reflexivity.
  - exact B.
Qed.
End NewerState.

Lemma newer_resolution_keeps_values_in_place_sample :
  length (enumer.Values
            (fst (Generator.run
                    (@Main.processEnum (Reference.os Reference.incomplete)
                       Reference.imports Reference.args) Generator.zeroEnum)))
  = 3
  /\ snd (Generator.run
            (@Main.processEnum (Reference.os Reference.incomplete)
               Reference.imports Reference.args) Generator.zeroEnum) <> None.
Proof.
  destruct (@newer_resolution_keeps_values_in_place
              (Reference.os Reference.incomplete) Reference.imports
              Reference.args Generator.zeroEnum Reference.incomplete ""
              eq_refl eq_refl) as (A & _).
  split; [exact A | discriminate].
Defined.

Lemma newer_settings_kept_or_derived_sample :
  enumer.OutputPath
    (fst (Generator.run
            (@Main.processEnum (Reference.os ReferenceIO.licensed)
               Reference.imports Reference.args) Generator.zeroEnum))
  = "/work/gen/status.go"
  /\ enumer.Type'
       (fst (Generator.run
               (@Main.processEnum (Reference.os ReferenceIO.licensed)
                  Reference.imports Reference.args) Generator.zeroEnum))
     = "Status".
Proof.
  destruct (@newer_settings_kept_or_derived
              (Reference.os ReferenceIO.licensed) Reference.imports
              Reference.args Generator.zeroEnum ReferenceIO.licensed ""
              eq_refl eq_refl) as (A & _ & C & _).
  split; [exact A | exact C].
Defined.

Lemma newer_flags_switch_on_only_sample :
  enumer.InputPath
    (fst (Generator.run
            (@Main.processEnum (Reference.os ReferenceIO.licensed)
               Reference.imports Reference.args) Generator.zeroEnum))
  = "/work/status.enum.yaml"
  /\ enumer.Debug
       (fst (Generator.run
               (@Main.processEnum (Reference.os ReferenceIO.licensed)
                  Reference.imports Reference.args) Generator.zeroEnum))
     = true.
Proof.
  destruct (@newer_flags_switch_on_only
              (Reference.os ReferenceIO.licensed) Reference.imports
              Reference.args Generator.zeroEnum ReferenceIO.licensed ""
              eq_refl eq_refl) as (A & _ & C & _).
  split; [exact A | exact C].
Defined.

Lemma newer_header_lines_sample :
  enumer.HeaderLines
    (fst (Generator.run
            (@Main.processEnum (Reference.os ReferenceIO.licensed)
               Reference.imports Reference.args) Generator.zeroEnum))
  = @stringer_Split Reference.imports "" LF.
Proof.
  destruct (@newer_header_lines
              (Reference.os ReferenceIO.licensed) Reference.imports
              Reference.args Generator.zeroEnum ReferenceIO.licensed ""
              eq_refl eq_refl eq_refl) as (A & _).
  destruct A as [_ L]; [discriminate | exact L].
Defined.

(** ** The older generator: converters and the loop *)

Section OlderState.
Import enumer Generator.
Context `{OS} `{Imports}.

Lemma older_value_index tc vc i value :
  fst (MainOlder.processEnum_value tc vc i value)
  = fst (MainOlder.processEnum_value tc vc 0 value).
Proof.
  unfold MainOlder.processEnum_value.
  repeat match goal with
         | |- context [if ?b then _ else _] => destruct b
         end; reflexivity.
Qed.

Lemma older_values_pointwise tc vc values : forall i0 i v,
  values !! i = Some v ->
  exists v',
    fst (MainOlder.processEnum_values tc vc i0 values) !! i = Some v'
    /\ (v' = v \/ v' = fst (MainOlder.processEnum_value tc vc 0 v)).
Proof.
  induction values as [|x rest IH]; intros i0 i v Hi; [discriminate Hi|].
  simpl. destruct (MainOlder.processEnum_value tc vc i0 x) as [x' [err|]] eqn:Px.
  - simpl. exists v. split; [exact Hi | left; reflexivity].
  - destruct (MainOlder.processEnum_values tc vc (S i0) rest)
      as [rest' err] eqn:Pr.
    destruct i as [|i]; simpl in Hi |- *.
    + injection Hi as <-. exists x'. split; [reflexivity|]. right.
      rewrite <- (older_value_index tc vc i0 x), Px. reflexivity.
    + destruct (IH (S i0) i v Hi) as (v' & Hv' & Hor).
      rewrite Pr in Hv'. exists v'. split; assumption.
Qed.

Lemma older_values_length tc vc values : forall i0,
  length (fst (MainOlder.processEnum_values tc vc i0 values)) = length values.
Proof.
  induction values as [|x rest IH]; intros i0; [reflexivity|].
  simpl. destruct (MainOlder.processEnum_value tc vc i0 x) as [x' [err|]];
    [reflexivity|].
  specialize (IH (S i0)).
  destruct (MainOlder.processEnum_values tc vc (S i0) rest) as [rest' err].
  simpl in *. rewrite IH. reflexivity.
Qed.

Lemma older_value_kept tc vc value :
  ParseFrom (fst (MainOlder.processEnum_value tc vc 0 value)) = ParseFrom value
  /\ (stringer_IsEmpty (Serialized value) = false ->
      Serialized (fst (MainOlder.processEnum_value tc vc 0 value))
      = Serialized value)
  /\ (stringer_IsEmpty (Name value) = false ->
      Name (fst (MainOlder.processEnum_value tc vc 0 value)) = Name value).
Proof.
  unfold MainOlder.processEnum_value. split; [|split].
  - repeat match goal with
           | |- context [if ?b then _ else _] => destruct b
           end; reflexivity.
  - intros E. rewrite E, !andb_false_r. simpl.
    destruct (stringer_IsEmpty (Name value)); reflexivity.
  - intros E. rewrite E. simpl.
    destruct (stringer_IsEmpty (Serialized value)); reflexivity.
Qed.

(** X16: the loop of the older generator, whatever the converters and
    whether it stops on an error or not, adds, drops and moves no value:
    the list it leaves has the length of the one it was given, with at
    every index the same [ParseFrom] entries, the serialized form of the
    document where it gives one and the name of the document where it gives
    one. *)
Theorem older_loop_keeps_what_is_given
    (typeConverter valueConverter : string -> string)
    (values : list EnumValue) :
  length (fst (MainOlder.processEnum_values typeConverter valueConverter 0
                 values)) = length values
  /\ (forall i v,
        values !! i = Some v ->
        exists v',
          fst (MainOlder.processEnum_values typeConverter valueConverter 0
                 values) !! i = Some v'
          /\ ParseFrom v' = ParseFrom v
          /\ (stringer_IsEmpty (Serialized v) = false ->
              Serialized v' = Serialized v)
          /\ (stringer_IsEmpty (Name v) = false -> Name v' = Name v)).
Proof.
  split; [apply older_values_length|].
  intros i v Hi.
  destruct (older_values_pointwise typeConverter valueConverter values 0 i v Hi)
    as (v' & Hv' & Hor).
  exists v'. split; [exact Hv'|].
  destruct Hor as [-> | ->].
  - repeat split; reflexivity.
  - apply older_value_kept.
Qed.

(** X17: in the older generator a converter the document names and
    [caser.Converter] does not know stops [processEnum] before any value is
    looked at: the error of [caser.Converter] is returned as it is, the
    values are those of the document, and [main] prints the error and
    exits.  This holds for the type converter and, the type converter being
    found or not named, for the value converter. *)
Theorem older_unknown_converter_aborts (args : argsData) (doc : EnumData)
    (bs : string) (err : error) :
  os_ReadFile (args_InputPath args) = (bs, None) ->
  yaml_Unmarshal bs zeroEnum = (doc, None) ->
  (Serialize_Type (Serialize doc) <> "" ->
   caser_Converter (Serialize_Type (Serialize doc)) = inr err ->
   snd (run (MainOlder.processEnum args) zeroEnum) = Some err
   /\ Values (fst (run (MainOlder.processEnum args) zeroEnum)) = Values doc
   /\ MainOlder.main args = Exit1 (Error err))
  /\ (forall typeConverter,
        MainOlder.typeConverterFor doc = ret typeConverter ->
        stringer_IsEmpty (Serialize_Value (Serialize doc)) = false ->
        caser_Converter (Serialize_Value (Serialize doc)) = inr err ->
        snd (run (MainOlder.processEnum args) zeroEnum) = Some err
        /\ Values (fst (run (MainOlder.processEnum args) zeroEnum))
           = Values doc
        /\ MainOlder.main args = Exit1 (Error err)).
Proof.
  intros Hread Hdoc. split.
  - intros Hname Hconv. apply String.eqb_neq in Hname.
    assert (R : snd (run (MainOlder.processEnum args) zeroEnum) = Some err
                /\ Values (fst (run (MainOlder.processEnum args) zeroEnum))
                   = Values doc).
    { unfold run, MainOlder.processEnum, bind, get, when, modify,
        MainOlder.typeConverterFor, MainOlder.converter, fail.
      rewrite Hread, Hdoc.
      destruct (args_SkipFormat args), (args_Debug args); cbn;
        destruct (String.eqb (OutputPath doc) ""); cbn;
        destruct (String.eqb (Package doc) ""); cbn;
        rewrite Hname, Hconv; cbn; split; reflexivity. }
    destruct R as [R1 R2]. split; [exact R1|]. split; [exact R2|].
    unfold MainOlder.main.
    destruct (run (MainOlder.processEnum args) zeroEnum) as [e r].
    simpl in R1. rewrite R1. reflexivity.
  - intros tc Htc Hname Hconv.
    assert (R : snd (run (MainOlder.processEnum args) zeroEnum) = Some err
                /\ Values (fst (run (MainOlder.processEnum args) zeroEnum))
                   = Values doc).
    { unfold MainOlder.typeConverterFor in Htc.
      unfold run, MainOlder.processEnum, bind, get, when, modify,
        MainOlder.typeConverterFor, MainOlder.valueConverterFor.
      rewrite Hread, Hdoc.
      destruct (args_SkipFormat args), (args_Debug args); cbn;
        destruct (String.eqb (OutputPath doc) ""); cbn;
        destruct (String.eqb (Package doc) ""); cbn;
        rewrite Htc; cbn;
        destruct (String.eqb (Type' doc) ""); cbn;
        destruct (String.eqb (Struct doc) ""); cbn;
        rewrite Hname; cbn; unfold MainOlder.converter; rewrite Hconv; cbn;
        split; reflexivity. }
    destruct R as [R1 R2]. split; [exact R1|]. split; [exact R2|].
    unfold MainOlder.main.
    destruct (run (MainOlder.processEnum args) zeroEnum) as [e r].
    simpl in R1. rewrite R1. reflexivity.
Qed.
End OlderState.

(** ** The tool of src/cmd/enumer/main.go: arguments and output *)

Section ToolProperties.
Import enumer Generator.
Context `{OS} `{Imports} `{Shell} `{Disk} `{Texts}.

(** The fields [processArgs] takes from the flags and those it leaves. *)
Lemma processArgs_fields cl args :
  args_SkipFormat (fst (Tool.processArgs cl args)) = Tool.flag_skip_format cl
  /\ args_Debug (fst (Tool.processArgs cl args)) = Tool.flag_debug cl
  /\ args_VsCode (fst (Tool.processArgs cl args)) = Tool.flag_vscode cl
  /\ args_Serialize (fst (Tool.processArgs cl args)) = args_Serialize args
  /\ args_Overwrite (fst (Tool.processArgs cl args)) = args_Overwrite args.
Proof.
  unfold Tool.processArgs. cbn.
  destruct (negb (String.eqb (Tool.flag_vscode cl) "")); cbn;
    [repeat split; reflexivity|].
  destruct (String.eqb (Tool.flag_config cl) ""); cbn;
    [repeat split; reflexivity|].
  destruct (negb (Tool.path_IsAbs (Tool.flag_config cl))); cbn.
  - destruct (filepath_Abs (Tool.flag_config cl)) as [absPath [err|]]; cbn;
      [repeat split; reflexivity|].
    destruct (negb (stringer_EndsWith absPath ".enum.yaml")); cbn;
      [repeat split; reflexivity|].
    destruct (os_Stat absPath); cbn; repeat split; reflexivity.
  - destruct (negb (stringer_EndsWith (Tool.flag_config cl) ".enum.yaml")); cbn;
      [repeat split; reflexivity|].
    destruct (os_Stat (Tool.flag_config cl)); cbn; repeat split; reflexivity.
Qed.

(** X18: [processArgs] sets the overwrite and the serialize arguments from
    no flag: they stay as they were passed in (false and empty in [main]).
    And with the vscode flag given it checks nothing about the
    configuration: it returns no error and records the config flag as it
    is, empty or not. *)
Theorem processArgs_unset_and_bypass (cl : Tool.commandLine) (args : argsData) :
  args_Overwrite (fst (Tool.processArgs cl args)) = args_Overwrite args
  /\ args_Serialize (fst (Tool.processArgs cl args)) = args_Serialize args
  /\ (Tool.flag_vscode cl <> "" ->
      snd (Tool.processArgs cl args) = None
      /\ args_InputPath (fst (Tool.processArgs cl args)) = Tool.flag_config cl).
Proof.
  destruct (processArgs_fields cl args) as (_ & _ & _ & S & O).
  split; [exact O|]. split; [exact S|].
  intros Hv. apply String.eqb_neq in Hv.
  unfold Tool.processArgs. cbn. rewrite Hv. cbn. split; reflexivity.
Qed.

(** X19: when [processArgs] returns no error and no vscode flag was given,
    the config flag was not empty and the input path it leaves ends in
    [.enum.yaml] (by [stringer.EndsWith]) and passes [os.Stat]; the input
    path is the config flag itself when that is absolute, and what
    [filepath.Abs] makes of it otherwise. *)
Theorem processArgs_accepts (cl : Tool.commandLine) (args args' : argsData) :
  Tool.flag_vscode cl = "" ->
  Tool.processArgs cl args = (args', None) ->
  Tool.flag_config cl <> ""
  /\ stringer_EndsWith (args_InputPath args') ".enum.yaml" = true
  /\ os_Stat (args_InputPath args') = None
  /\ (if Tool.path_IsAbs (Tool.flag_config cl)
      then args_InputPath args' = Tool.flag_config cl
      else filepath_Abs (Tool.flag_config cl) = (args_InputPath args', None)).
Proof.
  intros Hv. unfold Tool.processArgs. cbn. rewrite Hv. cbn.
  destruct (String.eqb_spec (Tool.flag_config cl) "") as [Hc | Hc]; cbn;
    [discriminate|].
  destruct (Tool.path_IsAbs (Tool.flag_config cl)); cbn.
  - destruct (stringer_EndsWith (Tool.flag_config cl) ".enum.yaml") eqn:He;
      cbn; [|discriminate].
    destruct (os_Stat (Tool.flag_config cl)) eqn:Hs; cbn; [discriminate|].
    intros [= <-]. cbn. repeat split; assumption.
  - destruct (filepath_Abs (Tool.flag_config cl)) as [absPath [err|]] eqn:Ha;
      cbn; [discriminate|].
    destruct (stringer_EndsWith absPath ".enum.yaml") eqn:He; cbn;
      [|discriminate].
    destruct (os_Stat absPath) eqn:Hs; cbn; [discriminate|].
    intros [= <-]. cbn. repeat split; assumption.
Qed.

Lemma processWrite_skips enum bs fs :
  Paths_Exists fs (OutputPath enum) = true ->
  Overwrite enum = false ->
  Tool.processWrite enum bs fs = (fs, None).
Proof.
  intros He Ho. unfold Tool.processWrite. rewrite He, Ho. reflexivity.
Qed.

(** X20: [processWrite] returns no error in two ways only.  Either the
    output file exists and the definition does not ask to overwrite it:
    then nothing is done to the file system; or the last thing done is a
    successful [os.WriteFile] of the generated text to the output path,
    with the file permissions of the tool. *)
Theorem processWrite_success (enum : EnumData) (bs : string) (fs fs' : FS) :
  Tool.processWrite enum bs fs = (fs', None) ->
  (Paths_Exists fs (OutputPath enum) = true /\ Overwrite enum = false
   /\ fs' = fs)
  \/ (exists fs1,
        (Paths_Exists fs (OutputPath enum) = false \/ Overwrite enum = true)
        /\ os_WriteFile fs1 (OutputPath enum) bs Tool.FilePermissions
           = (fs', None)).
Proof.
  unfold Tool.processWrite.
  assert (W : forall fs0,
            (let '(fs2, err) :=
               os_MkdirAll fs0 (pather_Dir (OutputPath enum))
                 Tool.FilePermissions in
             match err with
             | Some err => (fs2, Some err)
             | None =>
               let '(fs3, err0) := Paths_RemoveErr fs2 (OutputPath enum) in
               match err0 with
               | Some err1 => (fs3, Some err1)
               | None =>
                 os_WriteFile fs3 (OutputPath enum) bs Tool.FilePermissions
               end
             end) = (fs', None) ->
            exists fs1,
              os_WriteFile fs1 (OutputPath enum) bs Tool.FilePermissions
              = (fs', None)).
  { intros fs0.
    destruct (os_MkdirAll fs0 _ _) as [fs2 [e|]]; [discriminate|].
    destruct (Paths_RemoveErr fs2 _) as [fs3 [e|]]; [discriminate|].
    intros E. exists fs3. exact E. }
  destruct (Paths_Exists fs (OutputPath enum)) eqn:He.
  - destruct (Overwrite enum) eqn:Ho.
    + destruct (Paths_RemoveErr fs (OutputPath enum)) as [fs0 [e|]];
        [discriminate|].
      intros E. right. destruct (W fs0 E) as [fs1 G].
      exists fs1. split; [right; reflexivity | exact G].
    + intros [= <-]. left. repeat split.
  - intros E. right. destruct (W fs E) as [fs1 G].
    exists fs1. split; [left; reflexivity | exact G].
Qed.

(** X21: a run of the tool that finds its output file in place leaves it
    alone.  When the arguments are accepted, the configuration resolves
    without error, the document does not set overwrite and the output path
    of the resolved definition exists, [main] exits with status 0, prints
    nothing and does nothing to the file system: no flag can ask for the
    overwriting. *)
Theorem main_leaves_existing_output (cl : Tool.commandLine) (fs : FS)
    (args : argsData) (bs : string) (doc : EnumData) :
  Tool.flag_vscode cl = "" ->
  Tool.processArgs cl Tool.zeroArgs = (args, None) ->
  os_ReadFile (args_InputPath args) = (bs, None) ->
  yaml_Unmarshal bs zeroEnum = (doc, None) ->
  snd (run (Main.processEnum args) zeroEnum) = None ->
  Overwrite doc = false ->
  Paths_Exists fs (OutputPath (fst (run (Main.processEnum args) zeroEnum)))
  = true ->
  Tool.main cl fs = (fs, [], 0).
Proof.
  intros Hv Hargs Hread Hdoc Hok Hover Hexists.
  destruct (processArgs_fields cl Tool.zeroArgs) as (_ & _ & V & _ & O).
  rewrite Hargs in V, O. simpl in V, O.
  destruct (newer_processEnum_success_state args zeroEnum bs doc
              Hread Hdoc Hok) as (_ & _ & G & _).
  rewrite O, Hover in G. simpl in G.
  unfold Tool.main. rewrite Hargs, V, Hv. simpl.
  destruct (run (Main.processEnum args) zeroEnum) as [enum r].
  simpl in Hok, G, Hexists. subst r.
  rewrite (processWrite_skips enum _ fs Hexists G). reflexivity.
Qed.
End ToolProperties.

Lemma older_loop_keeps_what_is_given_sample :
  exists v',
    fst (@MainOlder.processEnum_values Reference.imports
           (@caser_PhraseToPascal Reference.imports) MainOlder.passthrough 0
           (enumer.Values Reference.incomplete)) !! 1 = Some v'
    /\ enumer.ParseFrom v' = []
    /\ (@stringer_IsEmpty Reference.imports "" = false ->
        enumer.Serialized v' = "")
    /\ (@stringer_IsEmpty Reference.imports "Idle" = false ->
        enumer.Name v' = "Idle").
Proof.
  destruct (@older_loop_keeps_what_is_given Reference.imports
              (@caser_PhraseToPascal Reference.imports) MainOlder.passthrough
              (enumer.Values Reference.incomplete)) as (_ & A).
  exact (A 1 (Reference.value "Idle" "" []) eq_refl).
Defined.

Lemma older_unknown_converter_aborts_sample :
  snd (Generator.run
         (@MainOlder.processEnum (Reference.os ReferenceIO.misconfigured)
            Reference.imports Reference.args) Generator.zeroEnum)
  = Some (errorString "unknown converter shouting")
  /\ enumer.Values
       (fst (Generator.run
               (@MainOlder.processEnum (Reference.os ReferenceIO.misconfigured)
                  Reference.imports Reference.args) Generator.zeroEnum))
     = [Reference.onlyName]
  /\ @MainOlder.main (Reference.os ReferenceIO.misconfigured)
       Reference.imports Reference.args
     = Generator.Exit1 "unknown converter shouting".
Proof.
  destruct (@older_unknown_converter_aborts
              (Reference.os ReferenceIO.misconfigured) Reference.imports
              Reference.args ReferenceIO.misconfigured ""
              (errorString "unknown converter shouting") eq_refl eq_refl)
    as (A & _).
  apply A; [discriminate | reflexivity].
Defined.

Lemma processArgs_unset_and_bypass_sample :
  snd (@Tool.processArgs (Reference.os Reference.status) ReferenceIO.shell
         ReferenceIO.vscodeLine Tool.zeroArgs) = None
  /\ Generator.args_InputPath
       (fst (@Tool.processArgs (Reference.os Reference.status)
               ReferenceIO.shell ReferenceIO.vscodeLine Tool.zeroArgs))
     = "".
Proof.
  destruct (@processArgs_unset_and_bypass (Reference.os Reference.status)
              ReferenceIO.shell ReferenceIO.vscodeLine Tool.zeroArgs)
    as (_ & _ & A).
  apply A. discriminate.
Defined.

Lemma processArgs_accepts_sample :
  Tool.flag_config ReferenceIO.commandLine <> ""
  /\ @stringer_EndsWith ReferenceIO.shell "/work/status.enum.yaml" ".enum.yaml"
     = true
  /\ @os_Stat (Reference.os Reference.status) "/work/status.enum.yaml" = None
  /\ @filepath_Abs ReferenceIO.shell "status.enum.yaml"
     = ("/work/status.enum.yaml", None).
Proof.
  exact (@processArgs_accepts (Reference.os Reference.status)
           ReferenceIO.shell ReferenceIO.commandLine Tool.zeroArgs
           (fst (@Tool.processArgs (Reference.os Reference.status)
                   ReferenceIO.shell ReferenceIO.commandLine Tool.zeroArgs))
           eq_refl eq_refl).
Defined.

Lemma processWrite_success_sample :
  (@Paths_Exists ReferenceIO.disk ReferenceIO.generated
     (enumer.OutputPath ReferenceIO.licensed) = true
   /\ enumer.Overwrite ReferenceIO.licensed = false
   /\ ReferenceIO.generated = ReferenceIO.generated)
  \/ (exists fs1 : @FS ReferenceIO.disk,
        (@Paths_Exists ReferenceIO.disk ReferenceIO.generated
           (enumer.OutputPath ReferenceIO.licensed) = false
         \/ enumer.Overwrite ReferenceIO.licensed = true)
        /\ @os_WriteFile ReferenceIO.disk fs1
             (enumer.OutputPath ReferenceIO.licensed) "package other"
             Tool.FilePermissions
           = (ReferenceIO.generated, None)).
Proof.
  exact (@processWrite_success Reference.imports ReferenceIO.disk
           ReferenceIO.licensed "package other" ReferenceIO.generated
           ReferenceIO.generated eq_refl).
Defined.

Lemma main_leaves_existing_output_sample :
  @Tool.main (Reference.os ReferenceIO.licensed) Reference.imports
    ReferenceIO.shell ReferenceIO.disk ReferenceIO.texts
    ReferenceIO.commandLine ReferenceIO.generated
  = (ReferenceIO.generated, [], 0).
Proof.
  apply (@main_leaves_existing_output (Reference.os ReferenceIO.licensed)
           Reference.imports ReferenceIO.shell ReferenceIO.disk
           ReferenceIO.texts ReferenceIO.commandLine ReferenceIO.generated
           (fst (@Tool.processArgs (Reference.os ReferenceIO.licensed)
                   ReferenceIO.shell ReferenceIO.commandLine Tool.zeroArgs))
           "" ReferenceIO.licensed); reflexivity.
Defined.
